(** * Heredity: exact inference over a small genetic pedigree

    A shallow embedding of [heredity.py] and the properties its design
    document states about it.

    Conventions of the embedding.
    - Python numbers are modelled twice.  The definitions of the first
      part compute with exact rationals ([Q]; equality of numbers is
      [Qeq], written [==]): they carry the control flow and what the
      program computes mathematically.  Module [binary64] repeats the
      numerical functions with binary64 floating point, rounding every
      operation as the interpreter does.  Both take the same path on
      every input ([joint_probability_same]).
    - A Python [set] of names is a [gset string]; iterating over it
      visits [elements s].  A [dict] keyed by names is a [gmap string _].
    - Exceptions and [print] are effects: a computation of type [M A]
      yields the lines it printed and either a value or the exception
      that ended it. *)

From Stdlib Require Import QArith Qabs Lia Lqa.
From Stdlib Require Import PrimFloat FloatOps SpecFloat.
From stdpp Require Import gmap strings list fin_maps fin_sets.

Set Warnings "-clear-no-such-hyp,-inexact-float".
Local Open Scope Q_scope.

(** ** Effects: printed lines and exceptions *)

Inductive exn : Set := TypeError | KeyError | ZeroDivisionError.

Inductive outcome (A : Type) : Type :=
  | Return (a : A)
  | Raise (e : exn).
Arguments Return {A} a.
Arguments Raise {A} e.

Definition M (A : Type) : Type := (list string * outcome A)%type.

Definition printed {A} (m : M A) : list string := fst m.
Definition result {A} (m : M A) : outcome A := snd m.

#[global] Instance M_ret : MRet M := λ A a, ([], Return a).

#[global] Instance M_bind : MBind M := λ A B f m,
  match m with
  | (out, Return a) => let '(out', r) := f a in (out ++ out', r)
  | (out, Raise e) => (out, Raise e)
  end.

Definition raise {A} (e : exn) : M A := ([], Raise e).
Definition print (line : string) : M unit := ([line], Return tt).

(** A [for] loop threading the loop-carried variables [a]. *)
Fixpoint foldM {A B} (body : A → B → M A) (a : A) (l : list B) : M A :=
  match l with
  | [] => mret a
  | x :: l' => a' ← body a x; foldM body a' l'
  end.

(** ** The probability model ([PROBS]) *)

Inductive gene_count : Set := G0 | G1 | G2.

#[global] Instance gene_count_eq_dec : EqDecision gene_count.
Proof. solve_decision. Defined.

Definition PROBS_gene (g : gene_count) : Q :=
  match g with
  | G2 => 0.01
  | G1 => 0.03
  | G0 => 0.96
  end.

Definition PROBS_trait (g : gene_count) (t : bool) : Q :=
  match g, t with
  | G2, true => 0.65
  | G2, false => 0.35
  | G1, true => 0.56
  | G1, false => 0.44
  | G0, true => 0.01
  | G0, false => 0.99
  end.

Definition PROBS_mutation : Q := 0.01.

(** ** The pedigree *)

Record Person : Type := mkPerson {
  name : string;
  mother : option string;
  father : option string;
  trait : option bool
}.

(** [x in s] where [x] may be [None]: [None] is a member of no set of names. *)
Definition in_set (x : option string) (s : gset string) : bool :=
  match x with
  | Some n => bool_decide (n ∈ s)
  | None => false
  end.

Definition is_none {A} (x : option A) : bool :=
  match x with
  | None => true
  | Some _ => false
  end.

(** [people[person]] *)
Definition getitem {V} (d : gmap string V) (k : string) : M V :=
  match d !! k with
  | Some v => mret v
  | None => raise KeyError
  end.

(** ** [powerset] *)

(** [itertools.combinations(pool, r)]: the [r]-element subsequences of
    [pool], in lexicographic order of positions. *)
Fixpoint combinations {A} (pool : list A) (r : nat) {struct pool} : list (list A) :=
  match r, pool with
  | O, _ => [[]]
  | S _, [] => []
  | S r', x :: rest => (cons x <$> combinations rest r') ++ combinations rest (S r')
  end.

(** [chain.from_iterable(combinations(s, r) for r in range(len(s) + 1))] *)
Definition chain_combinations {A} (s : list A) : list (list A) :=
  concat (combinations s <$> seq 0 (length s + 1)).

Definition powerset (s : gset string) : list (gset string) :=
  let s := elements s in
  list_to_set <$> chain_combinations s.

(** ** [joint_probability] *)

(** The six running products of [joint_probability]. *)
Record products : Type := mkProducts {
  prob_two_genes_with_trait : Q;
  prob_two_genes_without_trait : Q;
  prob_one_gene_with_trait : Q;
  prob_one_gene_without_trait : Q;
  prob_no_genes_with_trait : Q;
  prob_no_genes_without_trait : Q
}.

Definition products_init : products := mkProducts 1 1 1 1 1 1.

Section joint.
Variable people : gmap string Person.
Variables one_gene two_genes have_trait : gset string.

Let set_people : gset string := dom people.
Let set_no_genes : gset string := set_people ∖ one_gene ∖ two_genes.
Let set_no_trait : gset string := set_people ∖ have_trait.

(** Lines 156-178: the gene factor of a person in [two_genes]. *)
Definition factor_two_genes (mother father : option string) : M Q :=
  if is_none mother && is_none father then mret (PROBS_gene G2)
  else if in_set mother two_genes && in_set father two_genes then
    mret (2 * (1 - PROBS_mutation))
  else if in_set mother set_no_genes && in_set father set_no_genes then
    mret (PROBS_mutation ^ 2)
  else if in_set mother one_gene && in_set father one_gene then
    mret (0.5 * 2 * (1 - PROBS_mutation))
  else if in_set mother one_gene && in_set father set_no_genes then
    mret (0.5 * (1 - PROBS_mutation) * PROBS_mutation)
  else if in_set father one_gene && in_set mother set_no_genes then
    mret (0.5 * (1 - PROBS_mutation) * PROBS_mutation)
  else if in_set mother two_genes && in_set father set_no_genes then
    mret ((1 - PROBS_mutation) * PROBS_mutation)
  else if in_set father two_genes && in_set mother set_no_genes then
    mret ((1 - PROBS_mutation) * PROBS_mutation)
  else if in_set mother one_gene && in_set father two_genes then
    mret (0.5 * (1 - PROBS_mutation) ^ 2)
  else if in_set father one_gene && in_set mother two_genes then
    mret (0.5 * (1 - PROBS_mutation) ^ 2)
  else raise TypeError.

(** Lines 194-216: the gene factor of a person in [one_gene]. *)
Definition factor_one_gene (mother father : option string) : M Q :=
  if is_none mother && is_none father then mret (PROBS_gene G1)
  else if in_set mother two_genes && in_set father two_genes then
    mret 1
  else if in_set mother set_no_genes && in_set father set_no_genes then
    mret (PROBS_mutation * (1 - PROBS_mutation) * 2)
  else if in_set mother one_gene && in_set father set_no_genes then
    mret ((0.5 * (1 - PROBS_mutation) * (1 - PROBS_mutation))
          + (0.5 * (1 - PROBS_mutation) * PROBS_mutation))
  else if in_set father one_gene && in_set mother set_no_genes then
    mret ((0.5 * (1 - PROBS_mutation) * (1 - PROBS_mutation))
          + (0.5 * (1 - PROBS_mutation) * PROBS_mutation))
  else if in_set mother two_genes && in_set father set_no_genes then
    mret (((1 - PROBS_mutation) ^ 2) + PROBS_mutation ^ 2)
  else if in_set father two_genes && in_set mother set_no_genes then
    mret (((1 - PROBS_mutation) ^ 2) + PROBS_mutation ^ 2)
  else if in_set mother one_gene && in_set father one_gene then
    mret (((0.5 * (1 - PROBS_mutation)) ^ 2) * 2)
  else if in_set mother one_gene && in_set father two_genes then
    mret (((1 - PROBS_mutation) ^ 2) * 0.5 * 2)
  else if in_set mother two_genes && in_set father one_gene then
    mret (((1 - PROBS_mutation) ^ 2) * 0.5 * 2)
  else raise TypeError.

(** Lines 230-252: the gene factor of a person in [set_no_genes]. *)
Definition factor_no_genes (mother father : option string) : M Q :=
  if is_none mother && is_none father then mret (PROBS_gene G0)
  else if in_set mother two_genes && in_set father two_genes then
    mret (PROBS_mutation ^ 2)
  else if in_set mother set_no_genes && in_set father set_no_genes then
    mret ((1 - PROBS_mutation) ^ 2)
  else if in_set mother one_gene && in_set father set_no_genes then
    mret (0.5 * (1 - PROBS_mutation))
  else if in_set father one_gene && in_set mother set_no_genes then
    mret (0.5 * (1 - PROBS_mutation))
  else if in_set mother two_genes && in_set father set_no_genes then
    mret (PROBS_mutation * (1 - PROBS_mutation))
  else if in_set father two_genes && in_set mother set_no_genes then
    mret (PROBS_mutation * (1 - PROBS_mutation))
  else if in_set mother one_gene && in_set father one_gene then
    mret ((0.5 * (1 - PROBS_mutation)) ^ 2)
  else if in_set mother one_gene && in_set father two_genes then
    mret (PROBS_mutation * 0.5 * (1 - PROBS_mutation))
  else if in_set mother two_genes && in_set father one_gene then
    mret (PROBS_mutation * 0.5 * (1 - PROBS_mutation))
  else raise TypeError.

(** Body of [for person in two_genes] (lines 153-188). *)
Definition body_two_genes (acc : products) (person : string) : M products :=
  record ← getitem people person;
  probability ← factor_two_genes (mother record) (father record);
  if bool_decide (person ∈ have_trait) then
    let probability := probability * PROBS_trait G2 true in
    mret (mkProducts
            (prob_two_genes_with_trait acc * probability)
            (prob_two_genes_without_trait acc)
            (prob_one_gene_with_trait acc)
            (prob_one_gene_without_trait acc)
            (prob_no_genes_with_trait acc)
            (prob_no_genes_without_trait acc))
  else if bool_decide (person ∈ set_no_trait) then
    let probability := probability * PROBS_trait G2 false in
    mret (mkProducts
            (prob_two_genes_with_trait acc)
            (prob_two_genes_without_trait acc * probability)
            (prob_one_gene_with_trait acc)
            (prob_one_gene_without_trait acc)
            (prob_no_genes_with_trait acc)
            (prob_no_genes_without_trait acc))
  else
    _ ← print "Error"; mret acc.

(** Body of [for person in one_gene] (lines 191-225). *)
Definition body_one_gene (acc : products) (person : string) : M products :=
  record ← getitem people person;
  probability ← factor_one_gene (mother record) (father record);
  if bool_decide (person ∈ have_trait) then
    let probability := probability * PROBS_trait G1 true in
    mret (mkProducts
            (prob_two_genes_with_trait acc)
            (prob_two_genes_without_trait acc)
            (prob_one_gene_with_trait acc * probability)
            (prob_one_gene_without_trait acc)
            (prob_no_genes_with_trait acc)
            (prob_no_genes_without_trait acc))
  else if bool_decide (person ∈ set_no_trait) then
    let probability := probability * PROBS_trait G1 false in
    mret (mkProducts
            (prob_two_genes_with_trait acc)
            (prob_two_genes_without_trait acc)
            (prob_one_gene_with_trait acc)
            (prob_one_gene_without_trait acc * probability)
            (prob_no_genes_with_trait acc)
            (prob_no_genes_without_trait acc))
  else
    _ ← print "Error"; mret acc.

(** Body of [for person in set_no_genes] (lines 227-262). *)
Definition body_no_genes (acc : products) (person : string) : M products :=
  record ← getitem people person;
  probability ← factor_no_genes (mother record) (father record);
  if bool_decide (person ∈ have_trait) then
    let probability := probability * PROBS_trait G0 true in
    mret (mkProducts
            (prob_two_genes_with_trait acc)
            (prob_two_genes_without_trait acc)
            (prob_one_gene_with_trait acc)
            (prob_one_gene_without_trait acc)
            (prob_no_genes_with_trait acc * probability)
            (prob_no_genes_without_trait acc))
  else if bool_decide (person ∈ set_no_trait) then
    let probability := probability * PROBS_trait G0 false in
    mret (mkProducts
            (prob_two_genes_with_trait acc)
            (prob_two_genes_without_trait acc)
            (prob_one_gene_with_trait acc)
            (prob_one_gene_without_trait acc)
            (prob_no_genes_with_trait acc)
            (prob_no_genes_without_trait acc * probability))
  else
    _ ← print "Error"; mret acc.

(** The returned product, in the order of line 264. *)
Definition products_total (acc : products) : Q :=
  prob_no_genes_without_trait acc * prob_no_genes_with_trait acc
  * prob_one_gene_with_trait acc * prob_one_gene_without_trait acc
  * prob_two_genes_with_trait acc * prob_two_genes_without_trait acc.

Definition joint_probability : M Q :=
  acc ← foldM body_two_genes products_init (elements two_genes);
  acc ← foldM body_one_gene acc (elements one_gene);
  acc ← foldM body_no_genes acc (elements set_no_genes);
  mret (products_total acc).
End joint.

(** ** [update] *)

(** [probabilities[person]]: the ["gene"] and ["trait"] distributions. *)
Record belief : Type := mkBelief {
  gene2 : Q;
  gene1 : Q;
  gene0 : Q;
  trait_True : Q;
  trait_False : Q
}.

Definition add_gene2 (b : belief) (p : Q) : belief :=
  mkBelief (gene2 b + p) (gene1 b) (gene0 b) (trait_True b) (trait_False b).
Definition add_gene1 (b : belief) (p : Q) : belief :=
  mkBelief (gene2 b) (gene1 b + p) (gene0 b) (trait_True b) (trait_False b).
Definition add_gene0 (b : belief) (p : Q) : belief :=
  mkBelief (gene2 b) (gene1 b) (gene0 b + p) (trait_True b) (trait_False b).
Definition add_trait_True (b : belief) (p : Q) : belief :=
  mkBelief (gene2 b) (gene1 b) (gene0 b) (trait_True b + p) (trait_False b).
Definition add_trait_False (b : belief) (p : Q) : belief :=
  mkBelief (gene2 b) (gene1 b) (gene0 b) (trait_True b) (trait_False b + p).

(** Body of [for person in probabilities] (lines 275-300). *)
Definition update_person (one_gene two_genes have_trait : gset string) (p : Q)
    (person : string) (b : belief) : belief :=
  if bool_decide (person ∈ one_gene) then
    if bool_decide (person ∈ have_trait) then
      add_trait_True (add_gene1 b p) p
    else
      add_trait_False (add_gene1 b p) p
  else if bool_decide (person ∈ two_genes) then
    if bool_decide (person ∈ have_trait) then
      add_trait_True (add_gene2 b p) p
    else
      add_gene2 (add_trait_False b p) p
  else if negb (bool_decide (person ∈ one_gene))
          && negb (bool_decide (person ∈ two_genes)) then
    if bool_decide (person ∈ have_trait) then
      add_trait_True (add_gene0 b p) p
    else
      add_trait_False (add_gene0 b p) p
  else
    if bool_decide (person ∈ have_trait) then
      add_trait_True b p
    else
      add_trait_False b p.

Definition update (probabilities : gmap string belief)
    (one_gene two_genes have_trait : gset string) (p : Q) : gmap string belief :=
  map_imap (λ person b, Some (update_person one_gene two_genes have_trait p person b))
    probabilities.

(** ** [normalize] *)

(** Division; Python raises [ZeroDivisionError] on a zero divisor. *)
Definition truediv (x y : Q) : M Q :=
  if Qeq_bool y 0 then raise ZeroDivisionError else mret (x / y).

(** [sum(probabilities[person]["gene"].values())] *)
Definition gene_total (b : belief) : Q := 0 + gene2 b + gene1 b + gene0 b.

(** [sum(probabilities[person]["trait"].values())] *)
Definition trait_total (b : belief) : Q := 0 + trait_True b + trait_False b.

(** The two passes of [for field in probabilities[person]] (lines 309-312):
    first the ["gene"] distribution, then the ["trait"] distribution. *)
Definition normalize_person (b : belief) : M belief :=
  let total := gene_total b in
  g2 ← truediv (gene2 b * 1) total;
  g1 ← truediv (gene1 b * 1) total;
  g0 ← truediv (gene0 b * 1) total;
  let total := trait_total b in
  tT ← truediv (trait_True b * 1) total;
  tF ← truediv (trait_False b * 1) total;
  mret (mkBelief g2 g1 g0 tT tF).

(** Body of [for person in probabilities]: the entry is rewritten in place. *)
Definition normalize_step (probabilities : gmap string belief)
    (entry : string * belief) : M (gmap string belief) :=
  let '(person, b) := entry in
  b' ← normalize_person b;
  mret (<[person := b']> probabilities).

Definition normalize (probabilities : gmap string belief) : M (gmap string belief) :=
  foldM normalize_step probabilities (map_to_list probabilities).

(** ** The inference part of [main] (lines 47-85) *)

Definition probabilities_init (people : gmap string Person) : gmap string belief :=
  (λ _, mkBelief 0 0 0 0 0) <$> people.

(** Lines 68-72. [names] is [set(people)], so [people[person]] is defined
    for every name visited. *)
Definition fails_evidence (people : gmap string Person) (have_trait : gset string) : bool :=
  existsb (λ '(person, record),
             negb (is_none (trait record))
             && negb (bool_decide (trait record = Some (bool_decide (person ∈ have_trait)))))
          (map_to_list people).

Section main.
Variable people : gmap string Person.
Let names : gset string := dom people.

(** Lines 78-82. *)
Definition loop_two_genes (have_trait one_gene : gset string)
    (probabilities : gmap string belief) : M (gmap string belief) :=
  foldM (λ probabilities two_genes,
           p ← joint_probability people one_gene two_genes have_trait;
           mret (update probabilities one_gene two_genes have_trait p))
        probabilities (powerset (names ∖ one_gene)).

(** Lines 77-82. *)
Definition loop_one_gene (have_trait : gset string)
    (probabilities : gmap string belief) : M (gmap string belief) :=
  foldM (λ probabilities one_gene, loop_two_genes have_trait one_gene probabilities)
        probabilities (powerset names).

(** Lines 67-82: the body of [for have_trait in powerset(names)]. *)
Definition visit_have_trait (probabilities : gmap string belief)
    (have_trait : gset string) : M (gmap string belief) :=
  if fails_evidence people have_trait then mret probabilities
  else loop_one_gene have_trait probabilities.

(** Lines 47-82: the belief state before normalization. *)
Definition accumulate : M (gmap string belief) :=
  foldM visit_have_trait (probabilities_init people) (powerset names).

(** Lines 47-85. *)
Definition infer : M (gmap string belief) :=
  probabilities ← accumulate;
  normalize probabilities.
End main.

(** ** [load_data] *)

(** A row of the CSV file as [csv.DictReader] yields it. *)
Record Row : Type := mkRow {
  row_name : string;
  row_mother : string;
  row_father : string;
  row_trait : string
}.

(** [s or None] *)
Definition or_None (s : string) : option string :=
  if bool_decide (s = "") then None else Some s.

(** The record built from a row (lines 109-115). *)
Definition record_of_row (row : Row) : Person :=
  mkPerson (row_name row)
           (or_None (row_mother row))
           (or_None (row_father row))
           (if bool_decide (row_trait row = "1") then Some true
            else if bool_decide (row_trait row = "0") then Some false
            else None).

(** Body of [for row in reader]: [data[name] = {...}]. *)
Definition load_row (data : gmap string Person) (row : Row) : gmap string Person :=
  let name := row_name row in
  <[name := record_of_row row]> data.

Definition load_data (rows : list Row) : gmap string Person :=
  foldl load_row ∅ rows.

(** ** Notions used to state the properties *)

(** All subsequences of a list: the reference enumeration of subsets. *)
Fixpoint subsequences {A} (l : list A) : list (list A) :=
  match l with
  | [] => [[]]
  | x :: l' => (cons x <$> subsequences l') ++ subsequences l'
  end.

(** A record is valid when its parents are both absent, or both present
    and both names of the pedigree. *)
Definition valid_person (people : gmap string Person) (record : Person) : bool :=
  match mother record, father record with
  | None, None => true
  | Some m, Some f => bool_decide (m ∈ dom people) && bool_decide (f ∈ dom people)
  | _, _ => false
  end.

Definition valid_pedigree (people : gmap string Person) : Prop :=
  map_Forall (λ _ record, valid_person people record = true) people.

#[global] Instance valid_pedigree_dec people : Decision (valid_pedigree people).
Proof. unfold valid_pedigree. apply _. Defined.

(** A well-formed hypothesis over the pedigree. *)
Record well_formed (people : gmap string Person)
    (one_gene two_genes have_trait : gset string) : Prop := {
  wf_one_gene : one_gene ⊆ dom people;
  wf_two_genes : two_genes ⊆ dom people;
  wf_disjoint : one_gene ## two_genes;
  wf_have_trait : have_trait ⊆ dom people
}.

(** The transmission probability and the closed form of the design
    document (section 4.3), to be compared with the [factor_*] tables. *)
Definition transmit (g : gene_count) : Q :=
  match g with
  | G0 => PROBS_mutation
  | G1 => 0.5
  | G2 => 1 - PROBS_mutation
  end.

Definition closed_form (child mother father : gene_count) : Q :=
  let pm := transmit mother in
  let pf := transmit father in
  match child with
  | G2 => pm * pf
  | G0 => (1 - pm) * (1 - pf)
  | G1 => pm * (1 - pf) + pf * (1 - pm)
  end.

(** A hypothesis: [(one_gene, two_genes, have_trait)]. *)
Definition hypothesis : Type := (gset string * gset string * gset string)%type.

(** The hypotheses [main] scores, in the order of its three loops. *)
Definition hypotheses (people : gmap string Person) : list hypothesis :=
  have_trait ← powerset (dom people);
  if fails_evidence people have_trait then []
  else one_gene ← powerset (dom people);
       two_genes ← powerset (dom people ∖ one_gene);
       [(one_gene, two_genes, have_trait)].

(** Lines 81-82: score one hypothesis and fold it into the belief state. *)
Definition score_and_update (people : gmap string Person)
    (probabilities : gmap string belief) (h : hypothesis) : M (gmap string belief) :=
  let '(one_gene, two_genes, have_trait) := h in
  p ← joint_probability people one_gene two_genes have_trait;
  mret (update probabilities one_gene two_genes have_trait p).

(** The evidence: every observed person is in [have_trait] exactly when
    the observation is [True]. *)
Definition evidence_consistent (people : gmap string Person)
    (have_trait : gset string) : Prop :=
  ∀ person record observed,
    people !! person = Some record → trait record = Some observed →
    (person ∈ have_trait ↔ observed = true).

(** Folding a sequence of scored hypotheses into a belief state. *)
Definition fold_updates (probabilities : gmap string belief)
    (scored : list (hypothesis * Q)) : gmap string belief :=
  foldl (λ probs '((one_gene, two_genes, have_trait), p),
           update probs one_gene two_genes have_trait p)
        probabilities scored.

(** [p] is the joint probability [main] obtains for the hypothesis [h]. *)
Definition scores (people : gmap string Person) (h : hypothesis) (p : Q) : Prop :=
  ∃ out, joint_probability people h.1.1 h.1.2 h.2 = (out, Return p).

(** The persons observed with the trait. *)
Definition observed_true (people : gmap string Person) : gset string :=
  dom (filter (λ kv, trait kv.2 = Some true) people).

(** What [fold_updates] does to the entry of one person. *)
Definition fold_update_person (person : string) (b : belief)
    (scored : list (hypothesis * Q)) : belief :=
  foldl (λ b '((one_gene, two_genes, have_trait), p),
           update_person one_gene two_genes have_trait p person b)
        b scored.

Definition belief_equiv (b1 b2 : belief) : Prop :=
  gene2 b1 == gene2 b2 ∧ gene1 b1 == gene1 b2 ∧ gene0 b1 == gene0 b2
  ∧ trait_True b1 == trait_True b2 ∧ trait_False b1 == trait_False b2.

Definition Qsum (l : list Q) : Q := foldr Qplus 0 l.

Definition positive (acc : products) : Prop :=
  0 < prob_two_genes_with_trait acc ∧ 0 < prob_two_genes_without_trait acc
  ∧ 0 < prob_one_gene_with_trait acc ∧ 0 < prob_one_gene_without_trait acc
  ∧ 0 < prob_no_genes_with_trait acc ∧ 0 < prob_no_genes_without_trait acc.

(** The value [normalize] stores for a person when no division fails. *)
Definition normalized (b : belief) : belief :=
  mkBelief (gene2 b * 1 / gene_total b) (gene1 b * 1 / gene_total b)
           (gene0 b * 1 / gene_total b)
           (trait_True b * 1 / trait_total b) (trait_False b * 1 / trait_total b).

(** The gene count a hypothesis assigns to [person]. *)
Definition count_of (person : string) (one_gene two_genes : gset string)
    : gene_count :=
  if bool_decide (person ∈ one_gene) then G1
  else if bool_decide (person ∈ two_genes) then G2
  else G0.

(** The ratios between the buckets of each distribution agree in [b] and
    [b'] (cross-multiplied, so that empty buckets need no special case). *)
Definition same_ratios (b b' : belief) : Prop :=
  gene0 b' * gene1 b == gene1 b' * gene0 b
  ∧ gene0 b' * gene2 b == gene2 b' * gene0 b
  ∧ gene1 b' * gene2 b == gene2 b' * gene1 b
  ∧ trait_True b' * trait_False b == trait_False b' * trait_True b.

(** A family of three used to run the definitions: a child and two
    founders, the mother observed without the trait, the father with it. *)
Definition example_family : gmap string Person :=
  load_data [mkRow "Harry" "Lily" "James" "";
             mkRow "James" "" "" "1";
             mkRow "Lily" "" "" "0"].

(** The gene factor the code uses for a child with gene count [child]
    whose mother and father have counts [mo] and [fa]: the [factor_*]
    table of the child's loop, run on the hypothesis over the example
    family that assigns these counts. *)
Definition assigned (g : gene_count) (counts : list (string * gene_count))
    : gset string :=
  list_to_set (fst <$> filter (λ nc, nc.2 = g) counts).

Definition code_factor (child mo fa : gene_count) : M Q :=
  let counts := [("Harry"%string, child); ("Lily"%string, mo); ("James"%string, fa)] in
  let one_gene := assigned G1 counts in
  let two_genes := assigned G2 counts in
  match child with
  | G2 => factor_two_genes example_family one_gene two_genes (Some "Lily") (Some "James")
  | G1 => factor_one_gene example_family one_gene two_genes (Some "Lily") (Some "James")
  | G0 => factor_no_genes example_family one_gene two_genes (Some "Lily") (Some "James")
  end.

(** Whether the code's factor is the closed form, for each of the 27 cells. *)
Definition agrees_with_closed_form (child mo fa : gene_count) : bool :=
  match code_factor child mo fa with
  | (_, Return q) => Qeq_bool q (closed_form child mo fa)
  | (_, Raise _) => false
  end.

Definition cells : list (gene_count * gene_count * gene_count) :=
  child ← [G0; G1; G2]; mo ← [G0; G1; G2]; fa ← [G0; G1; G2]; [(child, mo, fa)].

(** A belief state with positive totals, and one with an empty distribution. *)
Definition example_beliefs : gmap string belief :=
  {["Ada" := mkBelief 1 2 1 3 1]}.

Definition example_empty_beliefs : gmap string belief :=
  {["Ada" := mkBelief 0 0 0 3 1]}.

(** ** Notions used to state further properties *)

(** The three tables of gene factors of [joint_probability], by the gene
    counts of the mother and the father (lines 159-176, 197-214, 233-250). *)
Definition table_two_genes (mo fa : gene_count) : Q :=
  match mo, fa with
  | G2, G2 => 2 * (1 - PROBS_mutation)
  | G0, G0 => PROBS_mutation ^ 2
  | G1, G1 => 0.5 * 2 * (1 - PROBS_mutation)
  | G1, G0 | G0, G1 => 0.5 * (1 - PROBS_mutation) * PROBS_mutation
  | G2, G0 | G0, G2 => (1 - PROBS_mutation) * PROBS_mutation
  | G1, G2 | G2, G1 => 0.5 * (1 - PROBS_mutation) ^ 2
  end.

Definition table_one_gene (mo fa : gene_count) : Q :=
  match mo, fa with
  | G2, G2 => 1
  | G0, G0 => PROBS_mutation * (1 - PROBS_mutation) * 2
  | G1, G0 | G0, G1 =>
      (0.5 * (1 - PROBS_mutation) * (1 - PROBS_mutation))
      + (0.5 * (1 - PROBS_mutation) * PROBS_mutation)
  | G2, G0 | G0, G2 => ((1 - PROBS_mutation) ^ 2) + PROBS_mutation ^ 2
  | G1, G1 => ((0.5 * (1 - PROBS_mutation)) ^ 2) * 2
  | G1, G2 | G2, G1 => ((1 - PROBS_mutation) ^ 2) * 0.5 * 2
  end.

Definition table_no_genes (mo fa : gene_count) : Q :=
  match mo, fa with
  | G2, G2 => PROBS_mutation ^ 2
  | G0, G0 => (1 - PROBS_mutation) ^ 2
  | G1, G0 | G0, G1 => 0.5 * (1 - PROBS_mutation)
  | G2, G0 | G0, G2 => PROBS_mutation * (1 - PROBS_mutation)
  | G1, G1 => (0.5 * (1 - PROBS_mutation)) ^ 2
  | G1, G2 | G2, G1 => PROBS_mutation * 0.5 * (1 - PROBS_mutation)
  end.

(** The table of the child's own count. *)
Definition gene_table (child mo fa : gene_count) : Q :=
  match child with
  | G2 => table_two_genes mo fa
  | G1 => table_one_gene mo fa
  | G0 => table_no_genes mo fa
  end.

(** The factor one person contributes to the joint probability: the prior
    or the table entry, times the trait probability. *)
Definition person_factor (people : gmap string Person)
    (one_gene two_genes have_trait : gset string) (person : string) : Q :=
  match people !! person with
  | Some record =>
      let count := count_of person one_gene two_genes in
      match mother record, father record with
      | None, None => PROBS_gene count
      | Some m, Some f =>
          gene_table count (count_of m one_gene two_genes) (count_of f one_gene two_genes)
      | _, _ => 0
      end * PROBS_trait count (bool_decide (person ∈ have_trait))
  | None => 1
  end.

Definition Qprod (l : list Q) : Q := foldr Qmult 1 l.

(** The buckets of a belief, by gene count and by trait value. *)
Definition gene_bucket (g : gene_count) (b : belief) : Q :=
  match g with
  | G2 => gene2 b
  | G1 => gene1 b
  | G0 => gene0 b
  end.

Definition trait_bucket (t : bool) (b : belief) : Q :=
  if t then trait_True b else trait_False b.

(** The total probability of the scored hypotheses that [selected] keeps. *)
Definition mass (selected : hypothesis → bool) (scored : list (hypothesis * Q)) : Q :=
  Qsum ((λ hp, if selected hp.1 then hp.2 else 0) <$> scored).

(** The hypothesis gives [person] the count [g]; the trait value [t]. *)
Definition has_count (person : string) (g : gene_count) (h : hypothesis) : bool :=
  bool_decide (count_of person h.1.1 h.1.2 = g).

Definition has_trait (person : string) (t : bool) (h : hypothesis) : bool :=
  bool_decide (bool_decide (person ∈ h.2) = t).

(** The docstring's condition on a row of the file [rows]: both parents
    blank, or both the name of a row. *)
Definition row_ok (rows : list Row) (row : Row) : Prop :=
  (row_mother row = ""%string ∧ row_father row = ""%string)
  ∨ (row_mother row ≠ ""%string ∧ row_father row ≠ ""%string
     ∧ row_mother row ∈ row_name <$> rows ∧ row_father row ∈ row_name <$> rows).

#[global] Instance row_ok_dec rows row : Decision (row_ok rows row).
Proof. unfold row_ok. apply _. Defined.


(** ** The program in binary64

    The same program with Python's [float]: every number is a binary64
    value and every [+], [-], [*] and [/] rounds to nearest, as the
    interpreter computes them.  The control flow is that of the
    definitions above; only the numbers differ.
    - An [int] operand ([1], [2], [0]) is converted exactly.
    - [x ** 2] is the correctly rounded square, [x * x].
    - [sum] adds from left to right, starting from [0] (CPython before
      version 3.12; later versions compensate the rounding error of the
      additions, see [founder_gene_total_rounding]). *)
Module binary64.
Local Open Scope float_scope.

Definition PROBS_gene (g : gene_count) : float :=
  match g with
  | G2 => 0.01
  | G1 => 0.03
  | G0 => 0.96
  end.

Definition PROBS_trait (g : gene_count) (t : bool) : float :=
  match g, t with
  | G2, true => 0.65
  | G2, false => 0.35
  | G1, true => 0.56
  | G1, false => 0.44
  | G0, true => 0.01
  | G0, false => 0.99
  end.

Definition PROBS_mutation : float := 0.01.

(** [x ** 2] *)
Definition square (x : float) : float := x * x.

Record products : Type := mkProducts {
  prob_two_genes_with_trait : float;
  prob_two_genes_without_trait : float;
  prob_one_gene_with_trait : float;
  prob_one_gene_without_trait : float;
  prob_no_genes_with_trait : float;
  prob_no_genes_without_trait : float
}.

Definition products_init : products := mkProducts 1 1 1 1 1 1.

Section joint.
Variable people : gmap string Person.
Variables one_gene two_genes have_trait : gset string.

Let set_people : gset string := dom people.
Let set_no_genes : gset string := set_people ∖ one_gene ∖ two_genes.
Let set_no_trait : gset string := set_people ∖ have_trait.

(** Lines 156-178. *)
Definition factor_two_genes (mother father : option string) : M float :=
  if is_none mother && is_none father then mret (PROBS_gene G2)
  else if in_set mother two_genes && in_set father two_genes then
    mret (2 * (1 - PROBS_mutation))
  else if in_set mother set_no_genes && in_set father set_no_genes then
    mret (square PROBS_mutation)
  else if in_set mother one_gene && in_set father one_gene then
    mret (0.5 * 2 * (1 - PROBS_mutation))
  else if in_set mother one_gene && in_set father set_no_genes then
    mret (0.5 * (1 - PROBS_mutation) * PROBS_mutation)
  else if in_set father one_gene && in_set mother set_no_genes then
    mret (0.5 * (1 - PROBS_mutation) * PROBS_mutation)
  else if in_set mother two_genes && in_set father set_no_genes then
    mret ((1 - PROBS_mutation) * PROBS_mutation)
  else if in_set father two_genes && in_set mother set_no_genes then
    mret ((1 - PROBS_mutation) * PROBS_mutation)
  else if in_set mother one_gene && in_set father two_genes then
    mret (0.5 * square (1 - PROBS_mutation))
  else if in_set father one_gene && in_set mother two_genes then
    mret (0.5 * square (1 - PROBS_mutation))
  else raise TypeError.

(** Lines 194-216. *)
Definition factor_one_gene (mother father : option string) : M float :=
  if is_none mother && is_none father then mret (PROBS_gene G1)
  else if in_set mother two_genes && in_set father two_genes then
    mret 1
  else if in_set mother set_no_genes && in_set father set_no_genes then
    mret (PROBS_mutation * (1 - PROBS_mutation) * 2)
  else if in_set mother one_gene && in_set father set_no_genes then
    mret ((0.5 * (1 - PROBS_mutation) * (1 - PROBS_mutation))
          + (0.5 * (1 - PROBS_mutation) * PROBS_mutation))
  else if in_set father one_gene && in_set mother set_no_genes then
    mret ((0.5 * (1 - PROBS_mutation) * (1 - PROBS_mutation))
          + (0.5 * (1 - PROBS_mutation) * PROBS_mutation))
  else if in_set mother two_genes && in_set father set_no_genes then
    mret (square (1 - PROBS_mutation) + square PROBS_mutation)
  else if in_set father two_genes && in_set mother set_no_genes then
    mret (square (1 - PROBS_mutation) + square PROBS_mutation)
  else if in_set mother one_gene && in_set father one_gene then
    mret (square (0.5 * (1 - PROBS_mutation)) * 2)
  else if in_set mother one_gene && in_set father two_genes then
    mret (square (1 - PROBS_mutation) * 0.5 * 2)
  else if in_set mother two_genes && in_set father one_gene then
    mret (square (1 - PROBS_mutation) * 0.5 * 2)
  else raise TypeError.

(** Lines 230-252. *)
Definition factor_no_genes (mother father : option string) : M float :=
  if is_none mother && is_none father then mret (PROBS_gene G0)
  else if in_set mother two_genes && in_set father two_genes then
    mret (square PROBS_mutation)
  else if in_set mother set_no_genes && in_set father set_no_genes then
    mret (square (1 - PROBS_mutation))
  else if in_set mother one_gene && in_set father set_no_genes then
    mret (0.5 * (1 - PROBS_mutation))
  else if in_set father one_gene && in_set mother set_no_genes then
    mret (0.5 * (1 - PROBS_mutation))
  else if in_set mother two_genes && in_set father set_no_genes then
    mret (PROBS_mutation * (1 - PROBS_mutation))
  else if in_set father two_genes && in_set mother set_no_genes then
    mret (PROBS_mutation * (1 - PROBS_mutation))
  else if in_set mother one_gene && in_set father one_gene then
    mret (square (0.5 * (1 - PROBS_mutation)))
  else if in_set mother one_gene && in_set father two_genes then
    mret (PROBS_mutation * 0.5 * (1 - PROBS_mutation))
  else if in_set mother two_genes && in_set father one_gene then
    mret (PROBS_mutation * 0.5 * (1 - PROBS_mutation))
  else raise TypeError.

(** Lines 153-188. *)
Definition body_two_genes (acc : products) (person : string) : M products :=
  record ← getitem people person;
  probability ← factor_two_genes (mother record) (father record);
  if bool_decide (person ∈ have_trait) then
    let probability := probability * PROBS_trait G2 true in
    mret (mkProducts
            (prob_two_genes_with_trait acc * probability)
            (prob_two_genes_without_trait acc)
            (prob_one_gene_with_trait acc)
            (prob_one_gene_without_trait acc)
            (prob_no_genes_with_trait acc)
            (prob_no_genes_without_trait acc))
  else if bool_decide (person ∈ set_no_trait) then
    let probability := probability * PROBS_trait G2 false in
    mret (mkProducts
            (prob_two_genes_with_trait acc)
            (prob_two_genes_without_trait acc * probability)
            (prob_one_gene_with_trait acc)
            (prob_one_gene_without_trait acc)
            (prob_no_genes_with_trait acc)
            (prob_no_genes_without_trait acc))
  else
    _ ← print "Error"; mret acc.

(** Lines 191-225. *)
Definition body_one_gene (acc : products) (person : string) : M products :=
  record ← getitem people person;
  probability ← factor_one_gene (mother record) (father record);
  if bool_decide (person ∈ have_trait) then
    let probability := probability * PROBS_trait G1 true in
    mret (mkProducts
            (prob_two_genes_with_trait acc)
            (prob_two_genes_without_trait acc)
            (prob_one_gene_with_trait acc * probability)
            (prob_one_gene_without_trait acc)
            (prob_no_genes_with_trait acc)
            (prob_no_genes_without_trait acc))
  else if bool_decide (person ∈ set_no_trait) then
    let probability := probability * PROBS_trait G1 false in
    mret (mkProducts
            (prob_two_genes_with_trait acc)
            (prob_two_genes_without_trait acc)
            (prob_one_gene_with_trait acc)
            (prob_one_gene_without_trait acc * probability)
            (prob_no_genes_with_trait acc)
            (prob_no_genes_without_trait acc))
  else
    _ ← print "Error"; mret acc.

(** Lines 227-262. *)
Definition body_no_genes (acc : products) (person : string) : M products :=
  record ← getitem people person;
  probability ← factor_no_genes (mother record) (father record);
  if bool_decide (person ∈ have_trait) then
    let probability := probability * PROBS_trait G0 true in
    mret (mkProducts
            (prob_two_genes_with_trait acc)
            (prob_two_genes_without_trait acc)
            (prob_one_gene_with_trait acc)
            (prob_one_gene_without_trait acc)
            (prob_no_genes_with_trait acc * probability)
            (prob_no_genes_without_trait acc))
  else if bool_decide (person ∈ set_no_trait) then
    let probability := probability * PROBS_trait G0 false in
    mret (mkProducts
            (prob_two_genes_with_trait acc)
            (prob_two_genes_without_trait acc)
            (prob_one_gene_with_trait acc)
            (prob_one_gene_without_trait acc)
            (prob_no_genes_with_trait acc)
            (prob_no_genes_without_trait acc * probability))
  else
    _ ← print "Error"; mret acc.

(** Line 264. *)
Definition products_total (acc : products) : float :=
  prob_no_genes_without_trait acc * prob_no_genes_with_trait acc
  * prob_one_gene_with_trait acc * prob_one_gene_without_trait acc
  * prob_two_genes_with_trait acc * prob_two_genes_without_trait acc.

Definition joint_probability : M float :=
  acc ← foldM body_two_genes products_init (elements two_genes);
  acc ← foldM body_one_gene acc (elements one_gene);
  acc ← foldM body_no_genes acc (elements set_no_genes);
  mret (products_total acc).
End joint.

Record belief : Type := mkBelief {
  gene2 : float;
  gene1 : float;
  gene0 : float;
  trait_True : float;
  trait_False : float
}.

Definition add_gene2 (b : belief) (p : float) : belief :=
  mkBelief (gene2 b + p) (gene1 b) (gene0 b) (trait_True b) (trait_False b).
Definition add_gene1 (b : belief) (p : float) : belief :=
  mkBelief (gene2 b) (gene1 b + p) (gene0 b) (trait_True b) (trait_False b).
Definition add_gene0 (b : belief) (p : float) : belief :=
  mkBelief (gene2 b) (gene1 b) (gene0 b + p) (trait_True b) (trait_False b).
Definition add_trait_True (b : belief) (p : float) : belief :=
  mkBelief (gene2 b) (gene1 b) (gene0 b) (trait_True b + p) (trait_False b).
Definition add_trait_False (b : belief) (p : float) : belief :=
  mkBelief (gene2 b) (gene1 b) (gene0 b) (trait_True b) (trait_False b + p).

(** Lines 275-300. *)
Definition update_person (one_gene two_genes have_trait : gset string) (p : float)
    (person : string) (b : belief) : belief :=
  if bool_decide (person ∈ one_gene) then
    if bool_decide (person ∈ have_trait) then
      add_trait_True (add_gene1 b p) p
    else
      add_trait_False (add_gene1 b p) p
  else if bool_decide (person ∈ two_genes) then
    if bool_decide (person ∈ have_trait) then
      add_trait_True (add_gene2 b p) p
    else
      add_gene2 (add_trait_False b p) p
  else if negb (bool_decide (person ∈ one_gene))
          && negb (bool_decide (person ∈ two_genes)) then
    if bool_decide (person ∈ have_trait) then
      add_trait_True (add_gene0 b p) p
    else
      add_trait_False (add_gene0 b p) p
  else
    if bool_decide (person ∈ have_trait) then
      add_trait_True b p
    else
      add_trait_False b p.

Definition update (probabilities : gmap string belief)
    (one_gene two_genes have_trait : gset string) (p : float) : gmap string belief :=
  map_imap (λ person b, Some (update_person one_gene two_genes have_trait p person b))
    probabilities.

(** Division; a divisor equal to zero raises [ZeroDivisionError]. *)
Definition truediv (x y : float) : M float :=
  if y =? 0 then raise ZeroDivisionError else mret (x / y).

Definition gene_total (b : belief) : float := 0 + gene2 b + gene1 b + gene0 b.

Definition trait_total (b : belief) : float := 0 + trait_True b + trait_False b.

(** Lines 309-312. *)
Definition normalize_person (b : belief) : M belief :=
  let total := gene_total b in
  g2 ← truediv (gene2 b * 1) total;
  g1 ← truediv (gene1 b * 1) total;
  g0 ← truediv (gene0 b * 1) total;
  let total := trait_total b in
  tT ← truediv (trait_True b * 1) total;
  tF ← truediv (trait_False b * 1) total;
  mret (mkBelief g2 g1 g0 tT tF).

Definition normalize_step (probabilities : gmap string belief)
    (entry : string * belief) : M (gmap string belief) :=
  let '(person, b) := entry in
  b' ← normalize_person b;
  mret (<[person := b']> probabilities).

Definition normalize (probabilities : gmap string belief) : M (gmap string belief) :=
  foldM normalize_step probabilities (map_to_list probabilities).

Definition probabilities_init (people : gmap string Person) : gmap string belief :=
  (λ _, mkBelief 0 0 0 0 0) <$> people.

Section main.
Variable people : gmap string Person.
Let names : gset string := dom people.

(** Lines 78-82. *)
Definition loop_two_genes (have_trait one_gene : gset string)
    (probabilities : gmap string belief) : M (gmap string belief) :=
  foldM (λ probabilities two_genes,
           p ← joint_probability people one_gene two_genes have_trait;
           mret (update probabilities one_gene two_genes have_trait p))
        probabilities (powerset (names ∖ one_gene)).

(** Lines 77-82. *)
Definition loop_one_gene (have_trait : gset string)
    (probabilities : gmap string belief) : M (gmap string belief) :=
  foldM (λ probabilities one_gene, loop_two_genes have_trait one_gene probabilities)
        probabilities (powerset names).

(** Lines 67-82. *)
Definition visit_have_trait (probabilities : gmap string belief)
    (have_trait : gset string) : M (gmap string belief) :=
  if fails_evidence people have_trait then mret probabilities
  else loop_one_gene have_trait probabilities.

(** Lines 47-82. *)
Definition accumulate : M (gmap string belief) :=
  foldM visit_have_trait (probabilities_init people) (powerset names).

(** Lines 47-85. *)
Definition infer : M (gmap string belief) :=
  probabilities ← accumulate;
  normalize probabilities.
End main.

(** Lines 81-82. *)
Definition score_and_update (people : gmap string Person)
    (probabilities : gmap string belief) (h : hypothesis) : M (gmap string belief) :=
  let '(one_gene, two_genes, have_trait) := h in
  p ← joint_probability people one_gene two_genes have_trait;
  mret (update probabilities one_gene two_genes have_trait p).

Definition fold_updates (probabilities : gmap string belief)
    (scored : list (hypothesis * float)) : gmap string belief :=
  foldl (λ probs '((one_gene, two_genes, have_trait), p),
           update probs one_gene two_genes have_trait p)
        probabilities scored.

Definition fold_update_person (person : string) (b : belief)
    (scored : list (hypothesis * float)) : belief :=
  foldl (λ b '((one_gene, two_genes, have_trait), p),
           update_person one_gene two_genes have_trait p person b)
        b scored.

(** [p] is the number [joint_probability] returns for the hypothesis [h]. *)
Definition scores (people : gmap string Person) (h : hypothesis) (p : float) : Prop :=
  ∃ out, joint_probability people h.1.1 h.1.2 h.2 = (out, Return p).

Definition gene_bucket (g : gene_count) (b : belief) : float :=
  match g with
  | G2 => gene2 b
  | G1 => gene1 b
  | G0 => gene0 b
  end.

Definition trait_bucket (t : bool) (b : belief) : float :=
  if t then trait_True b else trait_False b.

(** The numbers added to a bucket: the [p] of the scored hypotheses that
    [selected] keeps, in the order in which they are processed. *)
Definition addends (selected : hypothesis → bool) (scored : list (hypothesis * float))
    : list float :=
  snd <$> filter (λ hp, selected hp.1 = true) scored.

(** [start + x1 + x2 + ...], each addition rounded. *)
Definition running_sum (start : float) (l : list float) : float :=
  foldl PrimFloat.add start l.

(** The rational number a finite binary64 value stands for. *)
Definition to_Q (x : float) : Q :=
  match Prim2SF x with
  | S754_finite sign m e =>
      let magnitude := (inject_Z (Zpos m) * Qpower 2 e)%Q in
      if sign then Qopp magnitude else magnitude
  | _ => 0%Q
  end.
End binary64.

(** Two computations print the same lines and end the same way: both
    return, with results related by [R], or both raise the same exception. *)
Definition same_effects {A B} (R : A → B → Prop) (m : M A) (m' : M B) : Prop :=
  printed m = printed m'
  ∧ match result m, result m' with
    | Return a, Return a' => R a a'
    | Raise e, Raise e' => e = e'
    | _, _ => False
    end.

(** The relation that holds of any two results. *)
Definition any {A B} : A → B → Prop := λ _ _, True.

(** A founder whose trait is not observed, alone in the pedigree. *)
Definition example_founder : gmap string Person :=
  load_data [mkRow "Harry" "" "" ""].

(** The three hypotheses of [example_founder] without the trait, each with
    the number [joint_probability] returns for it, in the order in which
    [main] scores them and in the reverse order. *)
Definition example_scored : list (hypothesis * float) :=
  [((∅, ∅, ∅), 0.96 * 0.99);
   ((∅, {["Harry"]}, ∅), 0.01 * 0.35);
   (({["Harry"]}, ∅, ∅), 0.03 * 0.44)]%float.

Definition example_scored_reversed : list (hypothesis * float) :=
  [(({["Harry"]}, ∅, ∅), 0.03 * 0.44);
   ((∅, {["Harry"]}, ∅), 0.01 * 0.35);
   ((∅, ∅, ∅), 0.96 * 0.99)]%float.

(** The joint probability as the design document defines it (section 4.3):
    the product over the persons of the prior, for a founder, or of the
    closed form of the transmission, times the trait probability. *)
Definition spec_person_factor (people : gmap string Person)
    (one_gene two_genes have_trait : gset string) (person : string) : Q :=
  match people !! person with
  | Some record =>
      let count := count_of person one_gene two_genes in
      match mother record, father record with
      | None, None => PROBS_gene count
      | Some m, Some f =>
          closed_form count (count_of m one_gene two_genes) (count_of f one_gene two_genes)
      | _, _ => 0
      end * PROBS_trait count (bool_decide (person ∈ have_trait))
  | None => 1
  end.

Definition spec_joint_probability (people : gmap string Person) (h : hypothesis) : Q :=
  Qprod (spec_person_factor people h.1.1 h.1.2 h.2 <$> elements (dom people)).

(** The marginal likelihood of the evidence: the design document's joint
    probability summed over the hypotheses consistent with the evidence. *)
Definition spec_marginal_likelihood (people : gmap string Person) : Q :=
  Qsum (spec_joint_probability people <$> hypotheses people).

(** All buckets of a belief are non-negative. *)
Definition nonnegative (b : belief) : Prop :=
  0 <= gene2 b ∧ 0 <= gene1 b ∧ 0 <= gene0 b ∧ 0 <= trait_True b ∧ 0 <= trait_False b.


(** * Properties *)

(** Closed decidable statements are settled by evaluation. *)
Ltac by_computation :=
  match goal with
  | |- ?P => let d := constr:(_ : Decision P) in
             apply (@bool_decide_unpack P d); vm_compute; exact I
  end.

Ltac refuted_by_computation :=
  match goal with
  | |- ¬ ?P => let d := constr:(_ : Decision P) in
               apply (@bool_decide_eq_false_1 P d); vm_compute; reflexivity
  end.

Lemma example_family_valid : valid_pedigree example_family.
Proof. by_computation. Defined.

(** ** The effect monad *)

Section monad.
Context {A B : Type}.

Lemma bind_Return_inv (m : M A) (f : A → M B) out b :
  m ≫= f = (out, Return b) →
  ∃ o1 a o2, m = (o1, Return a) ∧ f a = (o2, Return b) ∧ out = o1 ++ o2.
Proof.
  destruct m as [o1 [a|e]]; unfold mbind, M_bind; [|done].
  destruct (f a) as [o2 r] eqn:Hf. intros [= <- ->]. eauto 6.
Qed.

Lemma bind_quiet (m : M A) (f : A → M B) a :
  m = ([], Return a) → m ≫= f = f a.
Proof. intros ->. unfold mbind, M_bind. by destruct (f a). Qed.

Lemma result_bind_Raise (m : M A) (f : A → M B) e :
  result m = Raise e → result (m ≫= f) = Raise e.
Proof. destruct m as [o [a|e']]; simpl; [done|]. by intros [= ->]. Qed.

Lemma result_bind_Return (m : M A) (f : A → M B) a :
  result m = Return a → result (m ≫= f) = result (f a).
Proof.
  destruct m as [o [a'|e']]; simpl; [|done]. intros [= ->].
  unfold mbind, M_bind. by destruct (f a).
Qed.
End monad.

Lemma bind_assoc {A B C} (m : M A) (f : A → M B) (g : B → M C) :
  (m ≫= f) ≫= g = m ≫= (λ a, f a ≫= g).
Proof.
  destruct m as [o1 [a|e]]; unfold mbind, M_bind; [|done].
  destruct (f a) as [o2 [b|e]]; [|done].
  destruct (g b) as [o3 r]. by rewrite (assoc (++)).
Qed.

Lemma bind_ext {A B} (m : M A) (f g : A → M B) :
  (∀ a, f a = g a) → m ≫= f = m ≫= g.
Proof.
  intros Hfg. destruct m as [o [a|e]]; unfold mbind, M_bind; [|done].
  by rewrite Hfg.
Qed.

Lemma bind_mret_l {A B} (a : A) (f : A → M B) : mret a ≫= f = f a.
Proof. by apply bind_quiet. Qed.

Lemma bind_mret_r {A} (m : M A) : m ≫= mret = m.
Proof.
  destruct m as [o [a|e]]; unfold mbind, M_bind, mret, M_ret; [|done].
  by rewrite app_nil_r.
Qed.

Section foldM.
Context {A B : Type} (body : A → B → M A).

Lemma foldM_app (l1 l2 : list B) (a : A) :
  foldM body a (l1 ++ l2) = foldM body a l1 ≫= (λ a', foldM body a' l2).
Proof.
  revert a. induction l1 as [|x l1 IH]; intros a.
  - symmetry. exact (bind_quiet (mret a) (λ a', foldM body a' l2) a eq_refl).
  - simpl.
    trans (body a x ≫= (λ a1, foldM body a1 l1 ≫= (λ a2, foldM body a2 l2))).
    + apply bind_ext. intros a1. apply IH.
    + symmetry. apply bind_assoc.
Qed.

(** A loop whose iterations all return quietly returns quietly, and
    maintains every invariant the iterations maintain. *)
Lemma foldM_quiet (P : A → Prop) (l : list B) (a : A) :
  (∀ a x, x ∈ l → P a → ∃ a', body a x = ([], Return a') ∧ P a') →
  P a → ∃ a', foldM body a l = ([], Return a') ∧ P a'.
Proof.
  revert a. induction l as [|x l IH]; intros a Hbody Ha; simpl.
  - eauto.
  - destruct (Hbody a x) as (a' & Hx & Ha'); [left|done|].
    rewrite (bind_quiet _ _ _ Hx). apply IH; [|done].
    intros ????. apply Hbody; [by right|done].
Qed.

(** An invariant of the iterations that return holds when the loop returns. *)
Lemma foldM_Return_inv (P : A → Prop) (l : list B) (a : A) out a' :
  (∀ a x out a', body a x = (out, Return a') → P a → P a') →
  foldM body a l = (out, Return a') → P a → P a'.
Proof.
  intros Hbody. revert a out. induction l as [|x l IH]; intros a out; simpl.
  - by intros [= _ ->].
  - intros (o1 & a1 & o2 & H1 & H2 & _)%bind_Return_inv Ha. eauto.
Qed.

(** A loop whose iterations can only return or raise [e] does the same. *)
Lemma foldM_Return_or_Raise (e : exn) (l : list B) (a : A) :
  (∀ a x, x ∈ l → result (body a x) = Raise e ∨ ∃ a', result (body a x) = Return a') →
  result (foldM body a l) = Raise e ∨ ∃ a', result (foldM body a l) = Return a'.
Proof.
  revert a. induction l as [|x l IH]; intros a Hbody; simpl.
  - right. eauto.
  - destruct (Hbody a x) as [Hx|[a' Hx]]; [left| |].
    + left. by apply result_bind_Raise.
    + rewrite (result_bind_Return _ _ _ Hx). apply IH.
      intros ???. apply Hbody. by right.
Qed.

(** ... and it raises [e] as soon as one iteration is bound to raise. *)
Lemma foldM_Raise (e : exn) (l : list B) (a : A) (x : B) :
  (∀ a x, x ∈ l → result (body a x) = Raise e ∨ ∃ a', result (body a x) = Return a') →
  x ∈ l → (∀ a, result (body a x) = Raise e) →
  result (foldM body a l) = Raise e.
Proof.
  intros Hbody Hx Hraise. revert a.
  induction l as [|y l IH]; intros a; [by apply elem_of_nil in Hx|]. simpl.
  destruct (Hbody a y) as [Hy|[a' Hy]]; [left|by apply result_bind_Raise|].
  rewrite (result_bind_Return _ _ _ Hy).
  apply elem_of_cons in Hx as [->|Hx].
  - rewrite Hraise in Hy. done.
  - apply IH; [|done]. intros ???. apply Hbody. by right.
Qed.
End foldM.

(** Nested loops visit the concatenation of the inner ranges. *)
Lemma foldM_bind {A B C} (body : A → C → M A) (inner : B → list C)
    (l : list B) (a : A) :
  foldM (λ a x, foldM body a (inner x)) a l = foldM body a (l ≫= inner).
Proof.
  revert a. induction l as [|x l IH]; intros a; [done|].
  simpl. rewrite foldM_app. apply bind_ext. intros a'. apply IH.
Qed.

Lemma foldM_ext {A B} (body1 body2 : A → B → M A) (l : list B) (a : A) :
  (∀ a x, x ∈ l → body1 a x = body2 a x) → foldM body1 a l = foldM body2 a l.
Proof.
  revert a. induction l as [|x l IH]; intros a Hbody; [done|]. simpl.
  rewrite Hbody by left. apply bind_ext. intros a'. apply IH.
  intros ???. apply Hbody. by right.
Qed.

(** ** [powerset] enumerates the subsets *)

Section combinations.
Context {A : Type}.

Lemma combinations_0 (l : list A) : combinations l 0 = [[]].
Proof. by destruct l. Qed.

Lemma combinations_long (l : list A) (r : nat) :
  (length l < r)%nat → combinations l r = [].
Proof.
  revert r. induction l as [|x l IH]; intros [|r] Hr; simpl in *; try lia; auto.
  rewrite !IH by lia. done.
Qed.

Lemma concat_seq_S {B} (f : nat → list B) (n : nat) :
  concat (f <$> seq 0 (S n)) = concat (f <$> seq 0 n) ++ f n.
Proof. rewrite seq_S, fmap_app, concat_app. simpl. by rewrite app_nil_r. Qed.

(** Combinations of [x :: l] of size at most [n]: those that take [x]
    and those that do not. *)
Lemma concat_combinations_cons (x : A) (l : list A) (n : nat) :
  concat (combinations (x :: l) <$> seq 0 (S n))
  ≡ₚ (cons x <$> concat (combinations l <$> seq 0 n))
     ++ concat (combinations l <$> seq 0 (S n)).
Proof.
  induction n as [|n IH].
  - simpl. by rewrite combinations_0.
  - rewrite (concat_seq_S (combinations (x :: l)) (S n)), IH.
    change (combinations (x :: l) (S n))
      with ((cons x <$> combinations l n) ++ combinations l (S n)).
    rewrite (concat_seq_S (combinations l) (S n)).
    set (Cn := concat (combinations l <$> seq 0 n)).
    set (CSn := concat (combinations l <$> seq 0 (S n))).
    assert (cons x <$> CSn = (cons x <$> Cn) ++ (cons x <$> combinations l n)) as ->.
    { unfold CSn. by rewrite concat_seq_S, fmap_app. }
    rewrite <- !(assoc (++)). f_equiv.
    rewrite !(assoc (++)). f_equiv. apply Permutation_app_comm.
Qed.

Lemma chain_combinations_cons (x : A) (l : list A) :
  chain_combinations (x :: l)
  ≡ₚ (cons x <$> chain_combinations l) ++ chain_combinations l.
Proof.
  unfold chain_combinations. simpl length.
  rewrite !Nat.add_1_r, concat_combinations_cons.
  rewrite (concat_seq_S (combinations l) (S (length l))).
  rewrite (combinations_long l (S (length l))) by lia.
  by rewrite app_nil_r.
Qed.

Lemma chain_combinations_subsequences (l : list A) :
  chain_combinations l ≡ₚ subsequences l.
Proof.
  induction l as [|x l IH]; [done|].
  rewrite chain_combinations_cons. simpl. by rewrite IH.
Qed.

Lemma length_subsequences (l : list A) :
  length (subsequences l) = (2 ^ length l)%nat.
Proof.
  induction l as [|x l IH]; [done|].
  simpl. rewrite length_app, length_fmap, IH. lia.
Qed.
End combinations.

Abbreviation to_sets l := (list_to_set (C := gset string) <$> l).

Lemma elem_of_subsequences_sets (l : list string) (X : gset string) :
  X ∈ to_sets (subsequences l) ↔ X ⊆ list_to_set l.
Proof.
  revert X. induction l as [|x l IH]; intros X.
  - simpl. rewrite list_elem_of_singleton. set_solver.
  - simpl subsequences. rewrite fmap_app, elem_of_app, <- list_fmap_compose.
    rewrite list_to_set_cons. split.
    + intros [H|H].
      * apply list_elem_of_fmap in H as (c & -> & Hc). simpl.
        assert (list_to_set c ∈ to_sets (subsequences l)) as Hc'
          by (apply list_elem_of_fmap; eauto).
        apply IH in Hc'. set_solver.
      * apply IH in H. set_solver.
    + intros HX. destruct (decide (x ∈ X)) as [Hx|Hx].
      * left. assert (X ∖ {[x]} ⊆ list_to_set l) as H by set_solver.
        apply IH, list_elem_of_fmap in H as (c & Hc & Hin).
        apply list_elem_of_fmap. exists c. split; [|done]. simpl.
        rewrite <- Hc. apply set_eq. intros y.
        rewrite elem_of_union, elem_of_difference, elem_of_singleton.
        destruct (decide (y = x)); naive_solver.
      * right. apply IH. set_solver.
Qed.

Lemma NoDup_subsequences_sets (l : list string) :
  NoDup l → NoDup (to_sets (subsequences l)).
Proof.
  induction 1 as [|x l Hx Hl IH]; simpl subsequences.
  - apply NoDup_singleton.
  - rewrite fmap_app, <- list_fmap_compose.
    change (list_to_set ∘ cons x)
      with ((λ X : gset string, {[x]} ∪ X) ∘ (list_to_set (C := gset string))).
    rewrite list_fmap_compose.
    apply NoDup_app. split_and!.
    + apply NoDup_fmap_2_strong; [|done].
      intros X1 X2 H1 H2 Heq.
      apply elem_of_subsequences_sets in H1, H2.
      assert ((x ∉ X1) ∧ (x ∉ X2)) as [??].
      { split; intros ?; apply Hx, (elem_of_list_to_set (C := gset string)); set_solver. }
      set_solver.
    + intros X H1 H2.
      apply list_elem_of_fmap in H1 as (c & -> & Hc).
      apply elem_of_subsequences_sets in H2.
      apply Hx, (elem_of_list_to_set (C := gset string)). set_solver.
    + done.
Qed.

Lemma powerset_Permutation (s : gset string) :
  powerset s ≡ₚ to_sets (subsequences (elements s)).
Proof. unfold powerset. by rewrite chain_combinations_subsequences. Qed.

Lemma elem_of_powerset (s X : gset string) : X ∈ powerset s ↔ X ⊆ s.
Proof.
  rewrite powerset_Permutation, elem_of_subsequences_sets.
  by rewrite list_to_set_elements_L.
Qed.

Lemma length_powerset (s : gset string) : length (powerset s) = (2 ^ size s)%nat.
Proof. by rewrite powerset_Permutation, length_fmap, length_subsequences. Qed.

Lemma NoDup_powerset (s : gset string) : NoDup (powerset s).
Proof.
  rewrite powerset_Permutation. apply NoDup_subsequences_sets, NoDup_elements.
Qed.

Lemma powerset_empty : powerset ∅ = [∅].
Proof. unfold powerset. by rewrite elements_empty. Qed.

Lemma powerset_singleton (x : string) : powerset {[x]} = [∅; {[x]}].
Proof.
  unfold powerset. rewrite elements_singleton. simpl.
  f_equal. f_equal. f_equal. set_solver.
Qed.

(** C5. For every finite set [s] of size [n], [powerset s] has exactly
    [2 ^ n] entries, they are pairwise distinct, they are exactly the
    subsets of [s], the empty set and [s] itself are among them, and on
    the empty set the result is the one-element list holding the empty set. *)
Theorem powerset_correct (s : gset string) :
  length (powerset s) = (2 ^ size s)%nat
  ∧ NoDup (powerset s)
  ∧ (∀ X, X ∈ powerset s ↔ X ⊆ s)
  ∧ ∅ ∈ powerset s
  ∧ s ∈ powerset s
  ∧ powerset ∅ = [∅].
Proof.
  split_and!.
  - apply length_powerset.
  - apply NoDup_powerset.
  - intros X. apply elem_of_powerset.
  - apply elem_of_powerset. set_solver.
  - by apply elem_of_powerset.
  - apply powerset_empty.
Qed.

(** ** [joint_probability]: every factor is positive *)

Lemma PROBS_trait_pos g t : 0 < PROBS_trait g t.
Proof. by destruct g, t. Qed.

Section joint_facts.
Variable people : gmap string Person.
Variables one_gene two_genes have_trait : gset string.

Ltac factor_cases :=
  repeat match goal with
         | |- context [if ?b then _ else _] => destruct b eqn:?
         end.

Lemma factor_two_genes_pos mo fa out q :
  factor_two_genes people one_gene two_genes mo fa = (out, Return q) → 0 < q.
Proof. unfold factor_two_genes. factor_cases; by intros [= _ <-]. Qed.

Lemma factor_one_gene_pos mo fa out q :
  factor_one_gene people one_gene two_genes mo fa = (out, Return q) → 0 < q.
Proof. unfold factor_one_gene. factor_cases; by intros [= _ <-]. Qed.

Lemma factor_no_genes_pos mo fa out q :
  factor_no_genes people one_gene two_genes mo fa = (out, Return q) → 0 < q.
Proof. unfold factor_no_genes. factor_cases; by intros [= _ <-]. Qed.

(** The gene factors raise nothing but [TypeError], and print nothing. *)
Lemma factor_two_genes_outcome mo fa :
  factor_two_genes people one_gene two_genes mo fa = ([], Raise TypeError)
  ∨ ∃ q, factor_two_genes people one_gene two_genes mo fa = ([], Return q).
Proof. unfold factor_two_genes. factor_cases; eauto. Qed.

Lemma factor_one_gene_outcome mo fa :
  factor_one_gene people one_gene two_genes mo fa = ([], Raise TypeError)
  ∨ ∃ q, factor_one_gene people one_gene two_genes mo fa = ([], Return q).
Proof. unfold factor_one_gene. factor_cases; eauto. Qed.

Lemma factor_no_genes_outcome mo fa :
  factor_no_genes people one_gene two_genes mo fa = ([], Raise TypeError)
  ∨ ∃ q, factor_no_genes people one_gene two_genes mo fa = ([], Return q).
Proof. unfold factor_no_genes. factor_cases; eauto. Qed.

Ltac body_pos Hfactor :=
  intros (o1 & record & o2 & _ & H & _)%bind_Return_inv;
  apply bind_Return_inv in H as (o3 & q & o4 & Hq%Hfactor & H & _);
  intros (? & ? & ? & ? & ? & ?);
  repeat case_bool_decide;
  first [ apply bind_Return_inv in H as (? & ? & ? & _ & [= _ <-] & _)
        | injection H as _ <- ];
  unfold positive; simpl; split_and!; try done;
  repeat apply Qmult_lt_0_compat; done.

Lemma body_two_genes_pos acc person out acc' :
  body_two_genes people one_gene two_genes have_trait acc person = (out, Return acc') →
  positive acc → positive acc'.
Proof. unfold body_two_genes. body_pos factor_two_genes_pos. Qed.

Lemma body_one_gene_pos acc person out acc' :
  body_one_gene people one_gene two_genes have_trait acc person = (out, Return acc') →
  positive acc → positive acc'.
Proof. unfold body_one_gene. body_pos factor_one_gene_pos. Qed.

Lemma body_no_genes_pos acc person out acc' :
  body_no_genes people one_gene two_genes have_trait acc person = (out, Return acc') →
  positive acc → positive acc'.
Proof. unfold body_no_genes. body_pos factor_no_genes_pos. Qed.

Lemma products_total_pos acc : positive acc → 0 < products_total acc.
Proof.
  intros (? & ? & ? & ? & ? & ?). unfold products_total.
  repeat apply Qmult_lt_0_compat; done.
Qed.

(** Whenever [joint_probability] returns, it returns a positive number. *)
Lemma joint_probability_pos out p :
  joint_probability people one_gene two_genes have_trait = (out, Return p) → 0 < p.
Proof.
  unfold joint_probability.
  intros (? & acc1 & ? & H1 & H & _)%bind_Return_inv.
  apply bind_Return_inv in H as (? & acc2 & ? & H2 & H & _).
  apply bind_Return_inv in H as (? & acc3 & ? & H3 & [= _ <-] & _).
  apply products_total_pos.
  eapply (foldM_Return_inv _ positive) in H1;
    [|intros ????; apply body_two_genes_pos|by repeat split].
  eapply (foldM_Return_inv _ positive) in H2;
    [|intros ????; apply body_one_gene_pos|done].
  eapply (foldM_Return_inv _ positive) in H3;
    [|intros ????; apply body_no_genes_pos|done].
  done.
Qed.
End joint_facts.

(** ** [joint_probability] on a well-formed hypothesis *)

Section well_formed_facts.
Variable people : gmap string Person.
Variables one_gene two_genes have_trait : gset string.
Hypothesis Hpedigree : valid_pedigree people.
Hypothesis Hwf : well_formed people one_gene two_genes have_trait.

Lemma valid_parents person record :
  people !! person = Some record →
  (mother record = None ∧ father record = None)
  ∨ (∃ m f, mother record = Some m ∧ father record = Some f
            ∧ m ∈ dom people ∧ f ∈ dom people).
Proof.
  intros Hp. apply Hpedigree in Hp. unfold valid_person in Hp.
  destruct (mother record) as [m|], (father record) as [f|]; try done; [|by left].
  apply andb_true_iff in Hp as [?%bool_decide_eq_true ?%bool_decide_eq_true].
  right. eauto 6.
Qed.

(** Each parent lies in exactly one of the three gene sets, so one of
    the nine branches is taken. *)
Ltac classify person record Hp :=
  destruct (valid_parents person record Hp) as [[-> ->]|(m & f & -> & -> & Hm & Hf)];
  [simpl; eauto|];
  destruct Hwf as [? ? ? ?]; simpl;
  repeat case_bool_decide; simpl; eauto; set_solver.

Lemma factor_two_genes_quiet person record :
  people !! person = Some record →
  ∃ q, factor_two_genes people one_gene two_genes (mother record) (father record)
       = ([], Return q).
Proof. intros Hp. unfold factor_two_genes. classify person record Hp. Qed.

Lemma factor_one_gene_quiet person record :
  people !! person = Some record →
  ∃ q, factor_one_gene people one_gene two_genes (mother record) (father record)
       = ([], Return q).
Proof. intros Hp. unfold factor_one_gene. classify person record Hp. Qed.

Lemma factor_no_genes_quiet person record :
  people !! person = Some record →
  ∃ q, factor_no_genes people one_gene two_genes (mother record) (father record)
       = ([], Return q).
Proof. intros Hp. unfold factor_no_genes. classify person record Hp. Qed.

(** A person of the pedigree is in [have_trait] or in its complement,
    so the branch that prints is not taken. *)
Ltac body_quiet person Hfactor :=
  intros [record Hp]%elem_of_dom; unfold getitem; rewrite Hp;
  rewrite (bind_quiet _ _ record eq_refl);
  destruct (Hfactor _ _ Hp) as [q Hq];
  rewrite (bind_quiet _ _ q Hq);
  assert (Hin : person ∈ dom people) by (apply elem_of_dom; eauto);
  repeat case_bool_decide; eauto; set_solver.

Lemma body_two_genes_quiet acc person :
  person ∈ dom people →
  ∃ acc', body_two_genes people one_gene two_genes have_trait acc person
          = ([], Return acc').
Proof. unfold body_two_genes. body_quiet person factor_two_genes_quiet. Qed.

Lemma body_one_gene_quiet acc person :
  person ∈ dom people →
  ∃ acc', body_one_gene people one_gene two_genes have_trait acc person
          = ([], Return acc').
Proof. unfold body_one_gene. body_quiet person factor_one_gene_quiet. Qed.

Lemma body_no_genes_quiet acc person :
  person ∈ dom people →
  ∃ acc', body_no_genes people one_gene two_genes have_trait acc person
          = ([], Return acc').
Proof. unfold body_no_genes. body_quiet person factor_no_genes_quiet. Qed.

Lemma loop_quiet (body : products → string → M products) (s : gset string) acc :
  s ⊆ dom people →
  (∀ acc person, person ∈ dom people → ∃ acc', body acc person = ([], Return acc')) →
  ∃ acc', foldM body acc (elements s) = ([], Return acc').
Proof.
  intros Hs Hbody.
  destruct (foldM_quiet body (λ _, True) (elements s) acc) as (acc' & ? & _);
    [|done|by eauto].
  intros a x Hx%elem_of_elements _.
  destruct (Hbody a x) as [a' ?]; [set_solver|eauto].
Qed.

Lemma joint_probability_quiet :
  ∃ p, joint_probability people one_gene two_genes have_trait = ([], Return p).
Proof.
  unfold joint_probability. destruct Hwf as [? ? ? ?].
  destruct (loop_quiet (body_two_genes people one_gene two_genes have_trait)
              two_genes products_init) as [acc1 H1];
    [done|apply body_two_genes_quiet|].
  rewrite (bind_quiet _ _ _ H1).
  destruct (loop_quiet (body_one_gene people one_gene two_genes have_trait)
              one_gene acc1) as [acc2 H2];
    [done|apply body_one_gene_quiet|].
  rewrite (bind_quiet _ _ _ H2).
  destruct (loop_quiet (body_no_genes people one_gene two_genes have_trait)
              (dom people ∖ one_gene ∖ two_genes) acc2) as [acc3 H3];
    [set_solver|apply body_no_genes_quiet|].
  rewrite (bind_quiet _ _ _ H3). eauto.
Qed.
End well_formed_facts.

(** C8. On a valid pedigree and a well-formed hypothesis
    [joint_probability] returns a number, raises no exception (so no
    [raise TypeError] branch is executed) and prints nothing (so no branch
    that prints ["Error"] is executed). *)
Theorem joint_probability_failure_unreachable
    (people : gmap string Person) (one_gene two_genes have_trait : gset string) :
  valid_pedigree people →
  well_formed people one_gene two_genes have_trait →
  ∃ p, joint_probability people one_gene two_genes have_trait = ([], Return p)
       ∧ 0 < p.
Proof.
  intros Hped Hwf.
  destruct (joint_probability_quiet _ _ _ _ Hped Hwf) as [p Hp].
  exists p. split; [done|]. by eapply joint_probability_pos.
Qed.

Lemma joint_probability_failure_unreachable_witness :
  valid_pedigree example_family
  ∧ well_formed example_family {["Harry"]} {["James"]} {["James"]}
  ∧ ∃ p, joint_probability example_family {["Harry"]} {["James"]} {["James"]}
         = ([], Return p) ∧ 0 < p.
Proof.
  assert (well_formed example_family {["Harry"]} {["James"]} {["James"]}) as Hwf.
  { split; by_computation. }
  split; [exact example_family_valid|]. split; [exact Hwf|].
  exact (joint_probability_failure_unreachable _ _ _ _ example_family_valid Hwf).
Defined.

(** ** The evidence filter *)

Lemma fails_evidence_true (people : gmap string Person) (have_trait : gset string) :
  fails_evidence people have_trait = true
  ↔ ∃ person record observed,
      people !! person = Some record ∧ trait record = Some observed
      ∧ observed ≠ bool_decide (person ∈ have_trait).
Proof.
  unfold fails_evidence. rewrite existsb_exists. split.
  - intros ([person record] & Hin & Hb).
    apply list_elem_of_In, elem_of_map_to_list in Hin.
    destruct (trait record) as [observed|] eqn:Ht; [|done].
    exists person, record, observed. split_and!; [done..|].
    simpl in Hb. apply negb_true_iff, bool_decide_eq_false in Hb. congruence.
  - intros (person & record & observed & Hp & Ht & Hne).
    exists (person, record). split.
    + by apply list_elem_of_In, elem_of_map_to_list.
    + rewrite Ht. simpl. apply negb_true_iff, bool_decide_eq_false. congruence.
Qed.

Lemma fails_evidence_false (people : gmap string Person) (have_trait : gset string) :
  fails_evidence people have_trait = false ↔ evidence_consistent people have_trait.
Proof.
  rewrite <- not_true_iff_false, fails_evidence_true. unfold evidence_consistent.
  split.
  - intros Hno person record observed Hp Ht.
    destruct (decide (observed = bool_decide (person ∈ have_trait))) as [->|Hne].
    + rewrite bool_decide_eq_true. done.
    + destruct Hno. eauto 7.
  - intros Hc (person & record & observed & Hp & Ht & Hne).
    apply Hne. specialize (Hc _ _ _ Hp Ht).
    destruct observed; symmetry.
    + apply bool_decide_eq_true. by apply Hc.
    + apply bool_decide_eq_false. intros Hin. by apply Hc in Hin.
Qed.

Lemma elem_of_hypotheses (people : gmap string Person) (h : hypothesis) :
  h ∈ hypotheses people
  ↔ h.2 ⊆ dom people ∧ evidence_consistent people h.2
    ∧ h.1.1 ⊆ dom people ∧ h.1.2 ⊆ dom people ∖ h.1.1.
Proof.
  destruct h as [[one_gene two_genes] have_trait]. simpl.
  unfold hypotheses. rewrite list_elem_of_bind. split.
  - intros (ht & Hin & Hht%elem_of_powerset).
    destruct (fails_evidence people ht) eqn:Hev; [by apply elem_of_nil in Hin|].
    apply list_elem_of_bind in Hin as (one & Hin & Hone%elem_of_powerset).
    apply list_elem_of_bind in Hin as (two & Hin & Htwo%elem_of_powerset).
    apply list_elem_of_singleton in Hin as [= -> -> ->].
    by apply fails_evidence_false in Hev.
  - intros (Hht & Hev%fails_evidence_false & Hone & Htwo).
    exists have_trait. rewrite Hev, elem_of_powerset. split; [|done].
    apply list_elem_of_bind. exists one_gene. rewrite elem_of_powerset. split; [|done].
    apply list_elem_of_bind. exists two_genes. rewrite elem_of_powerset. split; [|done].
    by apply list_elem_of_singleton.
Qed.

(** ** The loops of [main], flattened *)

Lemma loop_two_genes_flat people have_trait one_gene probabilities :
  loop_two_genes people have_trait one_gene probabilities
  = foldM (score_and_update people) probabilities
      ((λ two_genes, (one_gene, two_genes, have_trait))
         <$> powerset (dom people ∖ one_gene)).
Proof.
  unfold loop_two_genes.
  generalize (powerset (dom people ∖ one_gene)). intros l. revert probabilities.
  induction l as [|two_genes l IH]; intros probabilities; [done|].
  simpl. apply bind_ext. intros a. apply IH.
Qed.

Lemma list_fmap_bind_singleton {A B} (f : A → B) (l : list A) :
  f <$> l = l ≫= (λ x, [f x]).
Proof. induction l as [|x l IH]; [done|]. csimpl. by rewrite IH. Qed.

Lemma accumulate_flat people :
  accumulate people
  = foldM (score_and_update people) (probabilities_init people) (hypotheses people).
Proof.
  unfold accumulate, hypotheses. rewrite <- foldM_bind.
  apply foldM_ext. intros probabilities have_trait _.
  unfold visit_have_trait. destruct (fails_evidence people have_trait); [done|].
  unfold loop_one_gene. rewrite <- foldM_bind.
  apply foldM_ext. intros probs one_gene _.
  rewrite loop_two_genes_flat.
  generalize (powerset (dom people ∖ one_gene)). intros l.
  by rewrite list_fmap_bind_singleton.
Qed.

(** ** [update] *)

Lemma lookup_update probabilities one_gene two_genes have_trait p person :
  update probabilities one_gene two_genes have_trait p !! person
  = update_person one_gene two_genes have_trait p person <$> probabilities !! person.
Proof. unfold update. rewrite map_lookup_imap. by destruct (probabilities !! person). Qed.

(** [update] adds [p] to the gene bucket of the person's count and to the
    trait bucket of the person's membership in [have_trait]. *)
Lemma update_person_count one_gene two_genes have_trait p person b :
  update_person one_gene two_genes have_trait p person b
  = (if bool_decide (person ∈ have_trait) then add_trait_True else add_trait_False)
      (match count_of person one_gene two_genes with
       | G1 => add_gene1 b p
       | G2 => add_gene2 b p
       | G0 => add_gene0 b p
       end) p.
Proof. unfold update_person, count_of. by repeat case_bool_decide. Qed.

Lemma update_person_totals one_gene two_genes have_trait p person b :
  gene_total (update_person one_gene two_genes have_trait p person b)
  == gene_total b + p
  ∧ trait_total (update_person one_gene two_genes have_trait p person b)
    == trait_total b + p.
Proof.
  unfold update_person, gene_total, trait_total.
  repeat case_bool_decide; simpl; split; ring.
Qed.

#[global] Instance belief_equiv_equivalence : Equivalence belief_equiv.
Proof.
  unfold belief_equiv. split.
  - intros b. by repeat split.
  - intros b1 b2 (? & ? & ? & ? & ?). by repeat split.
  - intros b1 b2 b3 (H1 & H2 & H3 & H4 & H5) (? & ? & ? & ? & ?).
    rewrite H1, H2, H3, H4, H5. by repeat split.
Qed.

Lemma update_person_proper one_gene two_genes have_trait p person b1 b2 :
  belief_equiv b1 b2 →
  belief_equiv (update_person one_gene two_genes have_trait p person b1)
               (update_person one_gene two_genes have_trait p person b2).
Proof.
  intros (H1 & H2 & H3 & H4 & H5). unfold update_person, belief_equiv.
  repeat case_bool_decide; simpl; rewrite ?H1, ?H2, ?H3, ?H4, ?H5; by repeat split.
Qed.

Lemma update_person_comm o1 t1 h1 p1 o2 t2 h2 p2 person b :
  belief_equiv
    (update_person o1 t1 h1 p1 person (update_person o2 t2 h2 p2 person b))
    (update_person o2 t2 h2 p2 person (update_person o1 t1 h1 p1 person b)).
Proof.
  unfold update_person, belief_equiv.
  repeat case_bool_decide; simpl; split_and!; ring.
Qed.

Lemma Qsum_cons (p : Q) (ps : list Q) : Qsum (p :: ps) = p + Qsum ps.
Proof. done. Qed.

Lemma Qsum_pos (ps : list Q) : ps ≠ [] → Forall (λ p, 0 < p) ps → 0 < Qsum ps.
Proof.
  intros Hne Hpos. destruct Hpos as [|p ps Hp Hps]; [done|]. clear Hne.
  assert (0 <= Qsum ps) as Hge.
  { induction Hps as [|q ps Hq _ IH]; [done|]. rewrite Qsum_cons.
    cbv beta in Hq. lra. }
  rewrite Qsum_cons. cbv beta in Hp. lra.
Qed.

Lemma score_and_update_Return_inv people probs h out probs' :
  score_and_update people probs h = (out, Return probs') →
  ∃ p, scores people h p ∧ probs' = update probs h.1.1 h.1.2 h.2 p.
Proof.
  destruct h as [[one_gene two_genes] have_trait]. simpl.
  intros (o1 & p & o2 & Hp & [= _ <-] & _)%bind_Return_inv.
  exists p. split; [|done]. by exists o1.
Qed.

Lemma foldM_score_totals people hs probs out probs' :
  foldM (score_and_update people) probs hs = (out, Return probs') →
  ∃ ps, Forall2 (scores people) hs ps
        ∧ ∀ person,
            option_Forall2
              (λ b b', gene_total b' == gene_total b + Qsum ps
                       ∧ trait_total b' == trait_total b + Qsum ps)
              (probs !! person) (probs' !! person).
Proof.
  revert probs out. induction hs as [|h hs IH]; intros probs out; simpl.
  - intros [= _ <-]. exists []. split; [constructor|].
    intros person. destruct (probs !! person); constructor.
    unfold Qsum. simpl. split; ring.
  - intros (o1 & probs1 & o2 & H1 & H2 & _)%bind_Return_inv.
    apply score_and_update_Return_inv in H1 as (p & Hp & ->).
    apply IH in H2 as (ps & Hps & Htot).
    exists (p :: ps). split; [by constructor|].
    intros person. specialize (Htot person). rewrite lookup_update in Htot.
    destruct (probs !! person) as [b|]; simpl in Htot;
      inversion Htot as [b1 b' [Hg Ht]|]; subst; constructor.
    destruct (update_person_totals h.1.1 h.1.2 h.2 p person b) as [Hg1 Ht1].
    rewrite Qsum_cons, Hg, Ht, Hg1, Ht1. split; ring.
Qed.

Lemma observed_true_consistent people :
  observed_true people ⊆ dom people
  ∧ evidence_consistent people (observed_true people).
Proof.
  unfold observed_true. split.
  - apply dom_filter_subseteq.
  - intros person record observed Hp Ht. rewrite elem_of_dom. split.
    + intros [r (Hr & Htrue)%map_lookup_filter_Some]. simpl in Htrue. congruence.
    + intros ->. exists record. by apply map_lookup_filter_Some.
Qed.

Lemma hypotheses_nonempty people : hypotheses people ≠ [].
Proof.
  destruct (observed_true_consistent people) as [Hsub Hc].
  assert ((∅, ∅, observed_true people) ∈ hypotheses people) as Hin.
  { apply elem_of_hypotheses. simpl. split_and!; [done|done|set_solver..]. }
  intros Hnil. rewrite Hnil in Hin. by apply elem_of_nil in Hin.
Qed.

Lemma hypotheses_well_formed people h :
  h ∈ hypotheses people → well_formed people h.1.1 h.1.2 h.2.
Proof.
  intros (? & _ & ? & ?)%elem_of_hypotheses. split; set_solver.
Qed.

Lemma accumulate_quiet people :
  valid_pedigree people → ∃ probs, accumulate people = ([], Return probs).
Proof.
  intros Hped. rewrite accumulate_flat.
  destruct (foldM_quiet (score_and_update people) (λ _, True)
              (hypotheses people) (probabilities_init people))
    as (probs & ? & _); [|done|by eauto].
  intros probs h Hh%hypotheses_well_formed _.
  destruct h as [[one_gene two_genes] have_trait]. simpl in *.
  destruct (joint_probability_quiet _ _ _ _ Hped Hh) as [p Hp].
  unfold score_and_update. rewrite (bind_quiet _ _ _ Hp). eauto.
Qed.

(** In exact arithmetic the accumulation gives every person the same total
    in the three gene buckets and in the two trait buckets: the sum of the
    numbers [joint_probability] returned, which is positive. *)
Lemma accumulate_exact_totals (people : gmap string Person) :
  (valid_pedigree people → ∃ probabilities, accumulate people = ([], Return probabilities))
  ∧ ∀ out probabilities,
      accumulate people = (out, Return probabilities) →
      ∃ ps total,
        Forall2 (scores people) (hypotheses people) ps
        ∧ total = Qsum ps
        ∧ 0 < total
        ∧ ∀ person, person ∈ dom people →
            ∃ b, probabilities !! person = Some b
                 ∧ gene0 b + gene1 b + gene2 b == total
                 ∧ trait_True b + trait_False b == total
                 ∧ gene0 b + gene1 b + gene2 b == trait_True b + trait_False b.
Proof.
  split; [apply accumulate_quiet|].
  intros out probabilities Hacc. rewrite accumulate_flat in Hacc.
  apply foldM_score_totals in Hacc as (ps & Hps & Htot).
  exists ps, (Qsum ps). split_and!; [done|done| |].
  - apply Qsum_pos.
    + intros ->. apply Forall2_nil_inv_r in Hps. by apply hypotheses_nonempty in Hps.
    + clear Htot. induction Hps as [|h p hs ps [o Hp] _ IH]; constructor; [|done].
      by eapply joint_probability_pos.
  - intros person [record Hrec]%elem_of_dom. specialize (Htot person).
    unfold probabilities_init in Htot. rewrite lookup_fmap, Hrec in Htot.
    simpl in Htot. inversion Htot as [b0 b [Hg Ht] Hb0 Hb|]; subst.
    exists b. split; [done|].
    unfold gene_total, trait_total in Hg, Ht. simpl in Hg, Ht.
    split_and!; lra.
Qed.

Lemma lookup_fold_updates probabilities scored person :
  fold_updates probabilities scored !! person
  = (λ b, fold_update_person person b scored) <$> probabilities !! person.
Proof.
  revert probabilities. induction scored as [|[[[o t] h] p] scored IH];
    intros probabilities; simpl.
  - by destruct (probabilities !! person).
  - unfold fold_updates, fold_update_person in *. simpl.
    rewrite IH, lookup_update. by destruct (probabilities !! person).
Qed.

Lemma fold_update_person_proper person scored b1 b2 :
  belief_equiv b1 b2 →
  belief_equiv (fold_update_person person b1 scored)
               (fold_update_person person b2 scored).
Proof.
  revert b1 b2. induction scored as [|[[[o t] h] p] scored IH]; intros b1 b2 Hb.
  - done.
  - apply IH. by apply update_person_proper.
Qed.

Lemma fold_update_person_Permutation person scored1 scored2 b :
  scored1 ≡ₚ scored2 →
  belief_equiv (fold_update_person person b scored1)
               (fold_update_person person b scored2).
Proof.
  intros Hperm. revert b.
  induction Hperm as [|[[[o t] h] p] l1 l2 _ IH
                     |[[[o1 t1] h1] p1] [[[o2 t2] h2] p2] l
                     |l1 l2 l3 _ IH1 _ IH2]; intros b.
  - done.
  - apply IH.
  - apply (fold_update_person_proper person l), update_person_comm.
  - by rewrite IH1.
Qed.

(** In exact arithmetic the order of the updates does not matter. *)
Lemma fold_updates_Permutation (probabilities : gmap string belief)
    (scored1 scored2 : list (hypothesis * Q)) :
  scored1 ≡ₚ scored2 →
  ∀ person,
    option_Forall2 belief_equiv
      (fold_updates probabilities scored1 !! person)
      (fold_updates probabilities scored2 !! person).
Proof.
  intros Hperm person. rewrite !lookup_fold_updates.
  destruct (probabilities !! person) as [b|]; constructor.
  by apply fold_update_person_Permutation.
Qed.

(** ** [normalize]: rescaling and division by zero *)

Lemma Qeq_bool_false (y : Q) : ¬ y == 0 → Qeq_bool y 0 = false.
Proof.
  intros Hy. destruct (Qeq_bool y 0) eqn:Heq; [|done].
  by apply Qeq_bool_eq in Heq.
Qed.

Lemma normalize_person_nonzero (b : belief) :
  ¬ gene_total b == 0 → ¬ trait_total b == 0 →
  normalize_person b = ([], Return (normalized b)).
Proof.
  intros Hg Ht. unfold normalize_person, truediv.
  by rewrite (Qeq_bool_false _ Hg), (Qeq_bool_false _ Ht).
Qed.

Lemma normalize_person_zero (b : belief) :
  gene_total b == 0 ∨ trait_total b == 0 →
  normalize_person b = ([], Raise ZeroDivisionError).
Proof.
  intros Hz. unfold normalize_person, truediv.
  destruct (Qeq_dec (gene_total b) 0) as [Hg|Hg].
  - by rewrite (Qeq_eq_bool _ _ Hg).
  - destruct Hz as [Hz|Ht]; [done|].
    by rewrite (Qeq_bool_false _ Hg), (Qeq_eq_bool _ _ Ht).
Qed.

Lemma normalize_person_outcome (b : belief) :
  normalize_person b = ([], Raise ZeroDivisionError)
  ∨ normalize_person b = ([], Return (normalized b)).
Proof.
  destruct (Qeq_dec (gene_total b) 0) as [Hg|Hg];
    [left; apply normalize_person_zero; by left|].
  destruct (Qeq_dec (trait_total b) 0) as [Ht|Ht];
    [left; apply normalize_person_zero; by right|].
  right. by apply normalize_person_nonzero.
Qed.

Lemma normalize_step_nonzero acc person (b : belief) :
  ¬ gene_total b == 0 → ¬ trait_total b == 0 →
  normalize_step acc (person, b) = ([], Return (<[person := normalized b]> acc)).
Proof.
  intros Hg Ht. unfold normalize_step.
  by rewrite (bind_quiet _ _ _ (normalize_person_nonzero b Hg Ht)).
Qed.

Lemma foldl_insert_lookup (l : list (string * belief)) (acc : gmap string belief) k :
  NoDup l.*1 →
  foldl (λ acc '(person, b), <[person := normalized b]> acc) acc l !! k
  = match (list_to_map l : gmap string belief) !! k with
    | Some b => Some (normalized b)
    | None => acc !! k
    end.
Proof.
  revert acc. induction l as [|[k0 b0] l IH]; intros acc Hnd; [done|].
  apply NoDup_cons in Hnd as [Hk0 Hnd]. csimpl. rewrite IH by done.
  destruct (decide (k = k0)) as [->|Hne].
  - rewrite lookup_insert_eq.
    rewrite (not_elem_of_list_to_map_1 (M := gmap string) l k0 Hk0).
    by rewrite lookup_insert_eq.
  - by rewrite !lookup_insert_ne.
Qed.

Lemma normalize_quiet (probabilities : gmap string belief) :
  (∀ person b, probabilities !! person = Some b →
               ¬ gene_total b == 0 ∧ ¬ trait_total b == 0) →
  normalize probabilities = ([], Return (normalized <$> probabilities)).
Proof.
  intros Hnz. unfold normalize.
  assert (∀ l acc,
            (∀ person b, (person, b) ∈ l → ¬ gene_total b == 0 ∧ ¬ trait_total b == 0) →
            foldM normalize_step acc l
            = ([], Return (foldl (λ acc '(person, b), <[person := normalized b]> acc)
                             acc l))) as Hfold.
  { induction l as [|[person b] l IH]; intros acc Hl; [done|]. simpl.
    destruct (Hl person b) as [Hg Ht]; [left|].
    rewrite (bind_quiet _ _ _ (normalize_step_nonzero acc person b Hg Ht)).
    apply IH. intros k bk ?. apply (Hl k bk). by right. }
  rewrite Hfold.
  - do 2 f_equal. apply map_eq. intros k.
    rewrite foldl_insert_lookup by apply NoDup_fst_map_to_list.
    rewrite list_to_map_to_list, lookup_fmap.
    by destruct (probabilities !! k).
  - intros person b Hin%elem_of_map_to_list. by apply (Hnz person b).
Qed.

Lemma normalize_raises (probabilities : gmap string belief) person b :
  probabilities !! person = Some b →
  gene_total b == 0 ∨ trait_total b == 0 →
  result (normalize probabilities) = Raise ZeroDivisionError.
Proof.
  intros Hp Hz. unfold normalize.
  apply (foldM_Raise _ _ _ _ (person, b)).
  - intros acc [k bk] _. simpl.
    destruct (normalize_person_outcome bk) as [-> | ->]; [by left|right].
    rewrite (bind_quiet _ _ (normalized bk) eq_refl). eauto.
  - by apply elem_of_map_to_list.
  - intros acc. simpl. by rewrite (normalize_person_zero b Hz).
Qed.

Lemma gene_total_sum (b : belief) : gene_total b == gene0 b + gene1 b + gene2 b.
Proof. unfold gene_total. ring. Qed.

Lemma trait_total_sum (b : belief) : trait_total b == trait_True b + trait_False b.
Proof. unfold trait_total. ring. Qed.

Lemma normalized_spec (b : belief) :
  ¬ gene_total b == 0 → ¬ trait_total b == 0 →
  gene0 (normalized b) + gene1 (normalized b) + gene2 (normalized b) == 1
  ∧ trait_True (normalized b) + trait_False (normalized b) == 1
  ∧ same_ratios b (normalized b).
Proof.
  intros Hg Ht. unfold same_ratios, normalized. simpl.
  unfold gene_total, trait_total in *.
  rewrite Qplus_0_l in Hg, Ht. split_and!; field; done.
Qed.


Lemma example_beliefs_positive person b :
  example_beliefs !! person = Some b →
  0 < gene0 b + gene1 b + gene2 b ∧ 0 < trait_True b + trait_False b.
Proof.
  unfold example_beliefs. intros [_ <-]%lookup_singleton_Some. split; reflexivity.
Defined.


(** C9. If some distribution of some person has total zero, [normalize]
    ends with [ZeroDivisionError] and yields no belief state; if every
    total is positive, it returns without error. *)
Theorem normalize_zero_total (probabilities : gmap string belief) :
  ((∃ person b, probabilities !! person = Some b
                ∧ (gene0 b + gene1 b + gene2 b == 0 ∨ trait_True b + trait_False b == 0)) →
   result (normalize probabilities) = Raise ZeroDivisionError)
  ∧ ((∀ person b, probabilities !! person = Some b →
                  0 < gene0 b + gene1 b + gene2 b ∧ 0 < trait_True b + trait_False b) →
     ∃ probabilities', normalize probabilities = ([], Return probabilities')).
Proof.
  split.
  - intros (person & b & Hb & Hz). apply (normalize_raises _ person b Hb).
    by rewrite gene_total_sum, trait_total_sum.
  - intros Hpos. exists (normalized <$> probabilities). apply normalize_quiet.
    intros person b Hb. destruct (Hpos person b Hb) as [Hg Ht].
    rewrite gene_total_sum, trait_total_sum. split; lra.
Qed.

Lemma normalize_zero_total_witness :
  result (normalize example_empty_beliefs) = Raise ZeroDivisionError
  ∧ ∃ probabilities', normalize example_beliefs = ([], Return probabilities').
Proof.
  split.
  - apply (proj1 (normalize_zero_total example_empty_beliefs)).
    exists "Ada"%string, (mkBelief 0 0 0 3 1). split; [reflexivity|].
    left. reflexivity.
  - exact (proj2 (normalize_zero_total example_beliefs) example_beliefs_positive).
Defined.

Lemma foldM_score_quiet people hs qs probs :
  Forall2 (λ h q, joint_probability people h.1.1 h.1.2 h.2 = ([], Return q)) hs qs →
  foldM (score_and_update people) probs hs
  = ([], Return (fold_updates probs (zip hs qs))).
Proof.
  intros Hqs. revert probs.
  induction Hqs as [|[[one_gene two_genes] have_trait] q hs qs Hq _ IH]; intros probs;
    [done|].
  simpl in Hq.
  assert (score_and_update people probs (one_gene, two_genes, have_trait)
          = ([], Return (update probs one_gene two_genes have_trait q))) as Hscore.
  { unfold score_and_update. by rewrite (bind_quiet _ _ q Hq). }
  cbn [foldM]. rewrite (bind_quiet _ _ _ Hscore). apply IH.
Qed.

(** ** Founders *)

Section founder.
Variable people : gmap string Person.
Variables one_gene two_genes have_trait : gset string.
Variable person : string.
Variable record : Person.
Hypothesis Hlookup : people !! person = Some record.
Hypothesis Hmother : mother record = None.
Hypothesis Hfather : father record = None.

Ltac founder_body :=
  unfold getitem; rewrite Hlookup, bind_mret_l, Hmother, Hfather;
  cbn [is_none andb]; rewrite bind_mret_l;
  assert (person ∈ dom people) by (apply elem_of_dom; eauto);
  destruct (decide (person ∈ have_trait));
  [ by rewrite bool_decide_eq_true_2
  | rewrite bool_decide_eq_false_2 by done;
    by rewrite bool_decide_eq_true_2 by set_solver ].

Lemma body_two_genes_founder acc :
  body_two_genes people one_gene two_genes have_trait acc person
  = mret (if bool_decide (person ∈ have_trait)
          then mkProducts
                 (prob_two_genes_with_trait acc * (PROBS_gene G2 * PROBS_trait G2 true))
                 (prob_two_genes_without_trait acc)
                 (prob_one_gene_with_trait acc) (prob_one_gene_without_trait acc)
                 (prob_no_genes_with_trait acc) (prob_no_genes_without_trait acc)
          else mkProducts
                 (prob_two_genes_with_trait acc)
                 (prob_two_genes_without_trait acc * (PROBS_gene G2 * PROBS_trait G2 false))
                 (prob_one_gene_with_trait acc) (prob_one_gene_without_trait acc)
                 (prob_no_genes_with_trait acc) (prob_no_genes_without_trait acc)).
Proof. unfold body_two_genes, factor_two_genes. founder_body. Qed.

Lemma body_one_gene_founder acc :
  body_one_gene people one_gene two_genes have_trait acc person
  = mret (if bool_decide (person ∈ have_trait)
          then mkProducts
                 (prob_two_genes_with_trait acc) (prob_two_genes_without_trait acc)
                 (prob_one_gene_with_trait acc * (PROBS_gene G1 * PROBS_trait G1 true))
                 (prob_one_gene_without_trait acc)
                 (prob_no_genes_with_trait acc) (prob_no_genes_without_trait acc)
          else mkProducts
                 (prob_two_genes_with_trait acc) (prob_two_genes_without_trait acc)
                 (prob_one_gene_with_trait acc)
                 (prob_one_gene_without_trait acc * (PROBS_gene G1 * PROBS_trait G1 false))
                 (prob_no_genes_with_trait acc) (prob_no_genes_without_trait acc)).
Proof. unfold body_one_gene, factor_one_gene. founder_body. Qed.

Lemma body_no_genes_founder acc :
  body_no_genes people one_gene two_genes have_trait acc person
  = mret (if bool_decide (person ∈ have_trait)
          then mkProducts
                 (prob_two_genes_with_trait acc) (prob_two_genes_without_trait acc)
                 (prob_one_gene_with_trait acc) (prob_one_gene_without_trait acc)
                 (prob_no_genes_with_trait acc * (PROBS_gene G0 * PROBS_trait G0 true))
                 (prob_no_genes_without_trait acc)
          else mkProducts
                 (prob_two_genes_with_trait acc) (prob_two_genes_without_trait acc)
                 (prob_one_gene_with_trait acc) (prob_one_gene_without_trait acc)
                 (prob_no_genes_with_trait acc)
                 (prob_no_genes_without_trait acc * (PROBS_gene G0 * PROBS_trait G0 false))).
Proof. unfold body_no_genes, factor_no_genes. founder_body. Qed.
End founder.

(** ** A single founder without observation *)

Section single_founder.
Variable person : string.
Variable record : Person.
Hypothesis Hmother : mother record = None.
Hypothesis Hfather : father record = None.
Hypothesis Htrait : trait record = None.

Let people : gmap string Person := {[person := record]}.

Lemma founder_dom : dom people = {[person]}.
Proof. apply dom_singleton_L. Qed.

Lemma founder_fails_evidence have_trait : fails_evidence people have_trait = false.
Proof.
  unfold fails_evidence, people. rewrite map_to_list_singleton. simpl.
  by rewrite Htrait.
Qed.

Lemma founder_hypotheses :
  hypotheses people
  = [(∅, ∅, ∅); (∅, {[person]}, ∅); ({[person]}, ∅, ∅);
     (∅, ∅, {[person]}); (∅, {[person]}, {[person]}); ({[person]}, ∅, {[person]})].
Proof.
  unfold hypotheses. rewrite founder_dom, powerset_singleton.
  csimpl. rewrite !founder_fails_evidence.
  rewrite difference_empty_L, difference_diag_L, powerset_singleton, powerset_empty.
  done.
Qed.

Lemma founder_lookup : people !! person = Some record.
Proof. apply lookup_singleton_eq. Qed.

Lemma founder_joint_probability one_gene two_genes have_trait :
  one_gene ⊆ {[person]} → two_genes ⊆ {[person]} ∖ one_gene →
  ∃ p, joint_probability people one_gene two_genes have_trait = ([], Return p)
       ∧ p == PROBS_gene (count_of person one_gene two_genes)
              * PROBS_trait (count_of person one_gene two_genes)
                  (bool_decide (person ∈ have_trait)).
Proof.
  intros Hone Htwo. unfold joint_probability, count_of. rewrite founder_dom.
  destruct (decide (person ∈ one_gene)) as [H1|H1];
    [|destruct (decide (person ∈ two_genes)) as [H2|H2]].
  - assert (one_gene = {[person]}) as -> by set_solver.
    assert (two_genes = ∅) as -> by set_solver.
    replace ({[person]} ∖ {[person]} ∖ ∅) with (∅ : gset string) by set_solver.
    rewrite elements_empty, elements_singleton. cbn [foldM].
    eexists. split.
    { rewrite ?bind_mret_l.
      rewrite (body_one_gene_founder _ _ _ _ _ _ founder_lookup Hmother Hfather).
      by rewrite ?bind_mret_l. }
    rewrite (bool_decide_eq_true_2 _ H1).
    destruct (bool_decide (person ∈ have_trait)); unfold products_total; simpl; ring.
  - assert (one_gene = ∅) as -> by set_solver.
    assert (two_genes = {[person]}) as -> by set_solver.
    replace ({[person]} ∖ ∅ ∖ {[person]}) with (∅ : gset string) by set_solver.
    rewrite elements_empty, elements_singleton. cbn [foldM].
    eexists. split.
    { rewrite ?bind_mret_l.
      rewrite (body_two_genes_founder _ _ _ _ _ _ founder_lookup Hmother Hfather).
      by rewrite ?bind_mret_l. }
    rewrite (bool_decide_eq_false_2 _ H1), (bool_decide_eq_true_2 _ H2).
    destruct (bool_decide (person ∈ have_trait)); unfold products_total; simpl; ring.
  - assert (one_gene = ∅) as -> by set_solver.
    assert (two_genes = ∅) as -> by set_solver.
    replace ({[person]} ∖ ∅ ∖ ∅) with ({[person]} : gset string) by set_solver.
    rewrite elements_empty, elements_singleton. cbn [foldM].
    eexists. split.
    { rewrite ?bind_mret_l.
      rewrite (body_no_genes_founder _ _ _ _ _ _ founder_lookup Hmother Hfather).
      by rewrite ?bind_mret_l. }
    rewrite (bool_decide_eq_false_2 _ H1).
    destruct (bool_decide (person ∈ have_trait)); unfold products_total; simpl; ring.
Qed.

Lemma founder_posterior :
  ∃ probabilities b,
    infer people = ([], Return probabilities)
    ∧ probabilities !! person = Some b
    ∧ gene0 b == 0.96 ∧ gene1 b == 0.03 ∧ gene2 b == 0.01.
Proof.
  destruct (founder_joint_probability ∅ ∅ ∅) as (q1 & Hj1 & Hq1); [set_solver..|].
  destruct (founder_joint_probability ∅ {[person]} ∅) as (q2 & Hj2 & Hq2); [set_solver..|].
  destruct (founder_joint_probability {[person]} ∅ ∅) as (q3 & Hj3 & Hq3); [set_solver..|].
  destruct (founder_joint_probability ∅ ∅ {[person]}) as (q4 & Hj4 & Hq4); [set_solver..|].
  destruct (founder_joint_probability ∅ {[person]} {[person]}) as (q5 & Hj5 & Hq5);
    [set_solver..|].
  destruct (founder_joint_probability {[person]} ∅ {[person]}) as (q6 & Hj6 & Hq6);
    [set_solver..|].
  assert (Hin : person ∈ ({[person]} : gset string)) by set_solver.
  assert (Hnot : person ∉ (∅ : gset string)) by set_solver.
  unfold count_of in *.
  rewrite ?(bool_decide_eq_true_2 _ Hin), ?(bool_decide_eq_false_2 _ Hnot) in Hq1.
  rewrite ?(bool_decide_eq_true_2 _ Hin), ?(bool_decide_eq_false_2 _ Hnot) in Hq2.
  rewrite ?(bool_decide_eq_true_2 _ Hin), ?(bool_decide_eq_false_2 _ Hnot) in Hq3.
  rewrite ?(bool_decide_eq_true_2 _ Hin), ?(bool_decide_eq_false_2 _ Hnot) in Hq4.
  rewrite ?(bool_decide_eq_true_2 _ Hin), ?(bool_decide_eq_false_2 _ Hnot) in Hq5.
  rewrite ?(bool_decide_eq_true_2 _ Hin), ?(bool_decide_eq_false_2 _ Hnot) in Hq6.
  simpl in Hq1, Hq2, Hq3, Hq4, Hq5, Hq6.
  set (b := mkBelief (0 + q2 + q5) (0 + q3 + q6) (0 + q1 + q4)
                     (0 + q4 + q5 + q6) (0 + q1 + q2 + q3)).
  assert (accumulate people = ([], Return {[person := b]})) as Hacc.
  { rewrite accumulate_flat, founder_hypotheses.
    rewrite (foldM_score_quiet people _ [q1; q2; q3; q4; q5; q6])
      by (repeat constructor; done).
    do 2 f_equal. apply map_eq. intros k. rewrite lookup_fold_updates.
    unfold probabilities_init, people. rewrite map_fmap_singleton.
    destruct (decide (k = person)) as [->|Hk].
    - rewrite !lookup_singleton_eq. simpl. rewrite !update_person_count.
      unfold count_of.
      rewrite ?(bool_decide_eq_true_2 _ Hin), ?(bool_decide_eq_false_2 _ Hnot). done.
    - by rewrite !lookup_singleton_ne. }
  assert (gene_total b == 1 ∧ trait_total b == 1) as [Hg Ht].
  { unfold gene_total, trait_total, b. simpl.
    rewrite Hq1, Hq2, Hq3, Hq4, Hq5, Hq6. done. }
  exists (normalized <$> {[person := b]}), (normalized b). split_and!.
  - unfold infer. rewrite (bind_quiet _ _ _ Hacc). apply normalize_quiet.
    intros k bk [_ <-]%lookup_singleton_Some. rewrite Hg, Ht. done.
  - by rewrite map_fmap_singleton, lookup_singleton_eq.
  - unfold normalized. simpl. rewrite Hg. unfold b. simpl. rewrite Hq1, Hq4. done.
  - unfold normalized. simpl. rewrite Hg. unfold b. simpl. rewrite Hq3, Hq6. done.
  - unfold normalized. simpl. rewrite Hg. unfold b. simpl. rewrite Hq2, Hq5. done.
Qed.
End single_founder.

(** ** [load_data] stores every row *)

Lemma load_data_lookup_acc (rows : list Row) (acc : gmap string Person) name record :
  foldl load_row acc rows !! name = Some record →
  acc !! name = Some record
  ∨ ∃ row, row ∈ rows ∧ row_name row = name ∧ record = record_of_row row.
Proof.
  revert acc. induction rows as [|row rows IH]; intros acc; simpl; [by left|].
  intros [Hacc|(row' & ? & ? & ?)]%IH.
  - unfold load_row in Hacc. apply lookup_insert_Some in Hacc as [[<- <-]|[_ ?]].
    + right. exists row. split; [left|done].
    + by left.
  - right. exists row'. split; [by right|done].
Qed.

Lemma load_data_is_Some_acc (rows : list Row) (acc : gmap string Person) name :
  is_Some (acc !! name) ∨ (∃ row, row ∈ rows ∧ row_name row = name) →
  is_Some (foldl load_row acc rows !! name).
Proof.
  revert acc. induction rows as [|row rows IH]; intros acc; simpl.
  - intros [?|(row & []%elem_of_nil & _)]. done.
  - intros [Hacc|(row' & [->|Hin]%elem_of_cons & Hname)]; apply IH.
    + left. unfold load_row. rewrite lookup_insert_is_Some'. by right.
    + left. unfold load_row. rewrite <- Hname, lookup_insert_eq. done.
    + right. eauto.
Qed.

(** ** An invalid pedigree makes [joint_probability] raise *)

Section invalid.
Variable people : gmap string Person.
Variables one_gene two_genes have_trait : gset string.
Hypothesis Hwf : well_formed people one_gene two_genes have_trait.
Variable bad : string.
Variable bad_record : Person.
Hypothesis Hbad : people !! bad = Some bad_record.
Hypothesis Hinvalid : valid_person people bad_record = false.

Lemma in_set_outside (x : option string) (s : gset string) :
  s ⊆ dom people →
  match x with Some n => n ∉ dom people | None => True end →
  in_set x s = false.
Proof.
  intros Hs Hx. destruct x as [n|]; [|done]. simpl.
  apply bool_decide_eq_false_2. set_solver.
Qed.

Lemma invalid_parents :
  is_none (mother bad_record) && is_none (father bad_record) = false
  ∧ ((∀ s, s ⊆ dom people → in_set (mother bad_record) s = false)
     ∨ (∀ s, s ⊆ dom people → in_set (father bad_record) s = false)).
Proof.
  pose proof Hinvalid as Hv. unfold valid_person in Hv.
  destruct (mother bad_record) as [m|], (father bad_record) as [f|];
    try done; (split; [done|]).
  - apply andb_false_iff in Hv as [Hm%bool_decide_eq_false|Hf%bool_decide_eq_false].
    + left. intros s Hs. by apply in_set_outside.
    + right. intros s Hs. by apply in_set_outside.
  - right. intros s Hs. by apply in_set_outside.
  - left. intros s Hs. by apply in_set_outside.
Qed.

Ltac factor_invalid :=
  destruct Hwf as [? ? ? ?];
  destruct invalid_parents as [-> [Hm|Hf]];
  [ rewrite !Hm by set_solver; by rewrite ?andb_false_r
  | rewrite !Hf by set_solver; by rewrite ?andb_false_r ].

Lemma factor_two_genes_invalid :
  factor_two_genes people one_gene two_genes (mother bad_record) (father bad_record)
  = ([], Raise TypeError).
Proof. unfold factor_two_genes. factor_invalid. Qed.

Lemma factor_one_gene_invalid :
  factor_one_gene people one_gene two_genes (mother bad_record) (father bad_record)
  = ([], Raise TypeError).
Proof. unfold factor_one_gene. factor_invalid. Qed.

Lemma factor_no_genes_invalid :
  factor_no_genes people one_gene two_genes (mother bad_record) (father bad_record)
  = ([], Raise TypeError).
Proof. unfold factor_no_genes. factor_invalid. Qed.

(** Every iteration over a person of the pedigree returns or raises
    [TypeError]; the one over the invalid record raises. *)
Ltac body_outcome person Hfactor :=
  intros [record Hp]%elem_of_dom; unfold getitem; rewrite Hp, bind_mret_l;
  destruct (Hfactor people one_gene two_genes (mother record) (father record))
    as [Hf|[q Hf]]; [rewrite Hf; by left|right];
  rewrite (bind_quiet _ _ _ Hf);
  repeat case_bool_decide; simpl; eauto.

Lemma body_two_genes_outcome acc person :
  person ∈ dom people →
  result (body_two_genes people one_gene two_genes have_trait acc person)
  = Raise TypeError
  ∨ ∃ acc', result (body_two_genes people one_gene two_genes have_trait acc person)
            = Return acc'.
Proof. unfold body_two_genes. body_outcome person factor_two_genes_outcome. Qed.

Lemma body_one_gene_outcome acc person :
  person ∈ dom people →
  result (body_one_gene people one_gene two_genes have_trait acc person)
  = Raise TypeError
  ∨ ∃ acc', result (body_one_gene people one_gene two_genes have_trait acc person)
            = Return acc'.
Proof. unfold body_one_gene. body_outcome person factor_one_gene_outcome. Qed.

Lemma body_no_genes_outcome acc person :
  person ∈ dom people →
  result (body_no_genes people one_gene two_genes have_trait acc person)
  = Raise TypeError
  ∨ ∃ acc', result (body_no_genes people one_gene two_genes have_trait acc person)
            = Return acc'.
Proof. unfold body_no_genes. body_outcome person factor_no_genes_outcome. Qed.

Lemma body_two_genes_invalid acc :
  result (body_two_genes people one_gene two_genes have_trait acc bad) = Raise TypeError.
Proof.
  unfold body_two_genes, getitem.
  by rewrite Hbad, bind_mret_l, factor_two_genes_invalid.
Qed.

Lemma body_one_gene_invalid acc :
  result (body_one_gene people one_gene two_genes have_trait acc bad) = Raise TypeError.
Proof.
  unfold body_one_gene, getitem.
  by rewrite Hbad, bind_mret_l, factor_one_gene_invalid.
Qed.

Lemma body_no_genes_invalid acc :
  result (body_no_genes people one_gene two_genes have_trait acc bad) = Raise TypeError.
Proof.
  unfold body_no_genes, getitem.
  by rewrite Hbad, bind_mret_l, factor_no_genes_invalid.
Qed.

Lemma joint_probability_invalid :
  result (joint_probability people one_gene two_genes have_trait) = Raise TypeError.
Proof.
  destruct Hwf as [Hone Htwo Hdisj Htrait].
  assert (bad ∈ dom people) as Hdom by (apply elem_of_dom; eauto).
  unfold joint_probability.
  destruct (decide (bad ∈ two_genes)) as [Hin2|Hout2].
  { apply result_bind_Raise, (foldM_Raise _ _ _ _ bad).
    - intros acc y Hy%elem_of_elements. apply body_two_genes_outcome. set_solver.
    - by apply elem_of_elements.
    - apply body_two_genes_invalid. }
  destruct (foldM_Return_or_Raise
              (body_two_genes people one_gene two_genes have_trait) TypeError
              (elements two_genes) products_init) as [H2|[acc2 H2]].
  { intros acc y Hy%elem_of_elements. apply body_two_genes_outcome. set_solver. }
  { by apply result_bind_Raise. }
  rewrite (result_bind_Return _ _ _ H2).
  destruct (decide (bad ∈ one_gene)) as [Hin1|Hout1].
  { apply result_bind_Raise, (foldM_Raise _ _ _ _ bad).
    - intros acc y Hy%elem_of_elements. apply body_one_gene_outcome. set_solver.
    - by apply elem_of_elements.
    - apply body_one_gene_invalid. }
  destruct (foldM_Return_or_Raise
              (body_one_gene people one_gene two_genes have_trait) TypeError
              (elements one_gene) acc2) as [H1|[acc1 H1]].
  { intros acc y Hy%elem_of_elements. apply body_one_gene_outcome. set_solver. }
  { by apply result_bind_Raise. }
  rewrite (result_bind_Return _ _ _ H1).
  apply result_bind_Raise, (foldM_Raise _ _ _ _ bad).
  - intros acc y Hy%elem_of_elements. apply body_no_genes_outcome. set_solver.
  - apply elem_of_elements. set_solver.
  - apply body_no_genes_invalid.
Qed.
End invalid.

Lemma infer_invalid (people : gmap string Person) :
  ¬ valid_pedigree people → result (infer people) = Raise TypeError.
Proof.
  intros Hinv. apply map_not_Forall in Hinv as (bad & record & Hbad & Hrec); [|apply _].
  apply not_true_is_false in Hrec.
  unfold infer. apply result_bind_Raise. rewrite accumulate_flat.
  destruct (hypotheses people) as [|h hs] eqn:Hhyp; [by apply hypotheses_nonempty in Hhyp|].
  assert (h ∈ hypotheses people) as Hh%hypotheses_well_formed by (rewrite Hhyp; left).
  destruct h as [[one_gene two_genes] have_trait]. simpl in Hh.
  cbn [foldM]. apply result_bind_Raise. unfold score_and_update.
  apply result_bind_Raise. by eapply joint_probability_invalid.
Qed.

Lemma load_data_rows (rows : list Row) :
  (∀ row, row ∈ rows → is_Some (load_data rows !! row_name row))
  ∧ (∀ name record, load_data rows !! name = Some record →
       ∃ row, row ∈ rows ∧ row_name row = name ∧ record = record_of_row row).
Proof.
  split.
  - intros row Hrow. apply load_data_is_Some_acc. right. eauto.
  - intros name record [Hempty|?]%load_data_lookup_acc; [|done].
    by rewrite lookup_empty in Hempty.
Qed.

(** ** The gene factor against the closed form *)

(** A child in [two_genes] whose parents are both in [two_genes] gets the
    factor [2 * (1 - mutation)], whatever the rest of the hypothesis. *)
Lemma factor_two_genes_parents_two_genes
    (people : gmap string Person) (one_gene two_genes : gset string) (m f : string) :
  m ∈ two_genes → f ∈ two_genes →
  factor_two_genes people one_gene two_genes (Some m) (Some f)
  = ([], Return (2 * (1 - PROBS_mutation))).
Proof.
  intros Hm Hf. unfold factor_two_genes. simpl.
  by rewrite (bool_decide_eq_true_2 _ Hm), (bool_decide_eq_true_2 _ Hf).
Qed.

(** The cells (child, mother, father) on which the code's table and the
    closed form agree: 12 of the 27. *)
Lemma closed_form_agreement :
  filter (λ '(child, mo, fa), agrees_with_closed_form child mo fa = true) cells
  = [(G0, G0, G0); (G0, G0, G1); (G0, G0, G2); (G0, G1, G0); (G0, G2, G0);
     (G0, G2, G2);
     (G1, G0, G0); (G1, G0, G2); (G1, G2, G0);
     (G2, G0, G0); (G2, G0, G2); (G2, G2, G0)].
Proof. vm_compute. reflexivity. Qed.

(** C1 (the code departs from the claim). In the example family, under
    the hypothesis that the child and both parents carry two copies, the
    gene factor [joint_probability] uses for the child is [2 * (1 - 0.01)],
    that is 1.98, where the closed form gives [0.99 * 0.99 = 0.9801]; the
    joint probability returned is off by the same ratio.  For a child and
    parents without the gene the factor is 0.9801, as the closed form says. *)
Theorem joint_probability_two_two_two :
  example_family !! "Harry" = Some (mkPerson "Harry" (Some "Lily") (Some "James") None)
  ∧ factor_two_genes example_family ∅ {["Harry"; "Lily"; "James"]}
      (Some "Lily") (Some "James")
    = ([], Return (2 * (1 - PROBS_mutation)))
  ∧ 2 * (1 - PROBS_mutation) == 1.98
  ∧ closed_form G2 G2 G2 == 0.9801
  ∧ ¬ 2 * (1 - PROBS_mutation) == closed_form G2 G2 G2
  ∧ (∃ p, joint_probability example_family ∅ {["Harry"; "Lily"; "James"]} ∅
          = ([], Return p)
          ∧ p == (0.01 * 0.35) * (0.01 * 0.35) * (1.98 * 0.35)
          ∧ ¬ p == (0.01 * 0.35) * (0.01 * 0.35) * (closed_form G2 G2 G2 * 0.35))
  ∧ factor_no_genes example_family ∅ ∅ (Some "Lily") (Some "James")
    = ([], Return ((1 - PROBS_mutation) ^ 2))
  ∧ (1 - PROBS_mutation) ^ 2 == closed_form G0 G0 G0.
Proof.
  split_and!.
  - reflexivity.
  - apply factor_two_genes_parents_two_genes; set_solver.
  - reflexivity.
  - reflexivity.
  - intros Heq. vm_compute in Heq. discriminate.
  - eexists. split_and!.
    + vm_compute. reflexivity.
    + reflexivity.
    + intros Heq. vm_compute in Heq. discriminate.
  - vm_compute. reflexivity.
  - reflexivity.
Qed.

(** * Further properties *)

(** ** What is printed *)

Lemma printed_bind {A B} (m : M A) (f : A → M B) :
  printed m = [] → (∀ a, printed (f a) = []) → printed (m ≫= f) = [].
Proof.
  destruct m as [o [a|e]]; simpl; intros ->; [|done].
  intros Hf. specialize (Hf a). unfold mbind, M_bind.
  by destruct (f a) as [o' r]; simpl in *; subst.
Qed.

Lemma printed_foldM {A B} (body : A → B → M A) (l : list B) (a : A) :
  (∀ a x, x ∈ l → printed (body a x) = []) → printed (foldM body a l) = [].
Proof.
  revert a. induction l as [|x l IH]; intros a Hbody; [done|]. simpl.
  apply printed_bind; [apply Hbody; left|].
  intros a'. apply IH. intros ???. apply Hbody. by right.
Qed.

Section never_prints.
Variable people : gmap string Person.
Variables one_gene two_genes have_trait : gset string.

Ltac body_printed person Hfactor :=
  unfold getitem;
  destruct (people !! person) as [record|] eqn:Hp; [|done];
  rewrite bind_mret_l;
  destruct (Hfactor people one_gene two_genes (mother record) (father record))
    as [Hf|[q Hf]]; [by rewrite Hf|];
  rewrite (bind_quiet _ _ _ Hf);
  assert (person ∈ dom people) by (apply elem_of_dom; eauto);
  destruct (decide (person ∈ have_trait));
  [ by rewrite bool_decide_eq_true_2
  | rewrite bool_decide_eq_false_2 by done;
    by rewrite bool_decide_eq_true_2 by set_solver ].

Lemma body_two_genes_printed acc person :
  printed (body_two_genes people one_gene two_genes have_trait acc person) = [].
Proof. unfold body_two_genes. body_printed person factor_two_genes_outcome. Qed.

Lemma body_one_gene_printed acc person :
  printed (body_one_gene people one_gene two_genes have_trait acc person) = [].
Proof. unfold body_one_gene. body_printed person factor_one_gene_outcome. Qed.

Lemma body_no_genes_printed acc person :
  printed (body_no_genes people one_gene two_genes have_trait acc person) = [].
Proof. unfold body_no_genes. body_printed person factor_no_genes_outcome. Qed.

Lemma joint_probability_printed :
  printed (joint_probability people one_gene two_genes have_trait) = [].
Proof.
  unfold joint_probability.
  apply printed_bind; [apply printed_foldM; intros; apply body_two_genes_printed|].
  intros acc1.
  apply printed_bind; [apply printed_foldM; intros; apply body_one_gene_printed|].
  intros acc2.
  apply printed_bind; [apply printed_foldM; intros; apply body_no_genes_printed|].
  done.
Qed.
End never_prints.

Lemma normalize_printed probabilities : printed (normalize probabilities) = [].
Proof.
  unfold normalize. apply printed_foldM. intros acc [person b] _. simpl.
  by destruct (normalize_person_outcome b) as [-> | ->].
Qed.

Lemma accumulate_printed people : printed (accumulate people) = [].
Proof.
  rewrite accumulate_flat. apply printed_foldM.
  intros probs [[one_gene two_genes] have_trait] _. unfold score_and_update.
  apply printed_bind; [apply joint_probability_printed|done].
Qed.

(** X1. Nothing is ever printed: for every pedigree and every three sets,
    [joint_probability] prints no line (the three branches that print
    ["Error"] are never taken, also on inputs that are not well formed),
    and neither does the inference of [main]. *)
Theorem nothing_is_printed (people : gmap string Person)
    (one_gene two_genes have_trait : gset string) :
  printed (joint_probability people one_gene two_genes have_trait) = []
  ∧ printed (infer people) = [].
Proof.
  split; [apply joint_probability_printed|].
  unfold infer. apply printed_bind; [apply accumulate_printed|].
  apply normalize_printed.
Qed.

Lemma foldM_raises {A B} (body : A → B → M A) (l : list B) (a : A) (x : B) :
  x ∈ l → (∀ a, ∃ e, result (body a x) = Raise e) →
  ∃ e, result (foldM body a l) = Raise e.
Proof.
  intros Hx Hraise. revert a.
  induction l as [|y l IH]; intros a; [by apply elem_of_nil in Hx|]. simpl.
  destruct (result (body a y)) as [a'|e] eqn:Hy.
  - rewrite (result_bind_Return _ _ _ Hy).
    apply elem_of_cons in Hx as [->|Hx]; [|by apply IH].
    destruct (Hraise a) as [e He]. congruence.
  - exists e. by apply result_bind_Raise.
Qed.

Section any_sets.
Variable people : gmap string Person.
Variables one_gene two_genes have_trait : gset string.

Ltac body_missing person :=
  intros Hout%not_elem_of_dom; unfold getitem; by rewrite Hout.

Lemma body_two_genes_missing acc person :
  person ∉ dom people →
  body_two_genes people one_gene two_genes have_trait acc person = ([], Raise KeyError).
Proof. unfold body_two_genes. body_missing person. Qed.

Lemma body_one_gene_missing acc person :
  person ∉ dom people →
  body_one_gene people one_gene two_genes have_trait acc person = ([], Raise KeyError).
Proof. unfold body_one_gene. body_missing person. Qed.

Hypothesis Hpedigree : valid_pedigree people.

Ltac classify_any person record Hp :=
  destruct (valid_parents people Hpedigree person record Hp)
    as [[-> ->]|(m & f & -> & -> & Hm & Hf)];
  [simpl; eauto|];
  simpl; repeat case_bool_decide; simpl; eauto; set_solver.

Lemma factor_two_genes_valid person record :
  people !! person = Some record →
  ∃ q, factor_two_genes people one_gene two_genes (mother record) (father record)
       = ([], Return q).
Proof. intros Hp. unfold factor_two_genes. classify_any person record Hp. Qed.

Lemma factor_one_gene_valid person record :
  people !! person = Some record →
  ∃ q, factor_one_gene people one_gene two_genes (mother record) (father record)
       = ([], Return q).
Proof. intros Hp. unfold factor_one_gene. classify_any person record Hp. Qed.

Lemma factor_no_genes_valid person record :
  people !! person = Some record →
  ∃ q, factor_no_genes people one_gene two_genes (mother record) (father record)
       = ([], Return q).
Proof. intros Hp. unfold factor_no_genes. classify_any person record Hp. Qed.

Ltac body_valid person Hfactor :=
  intros [record Hp]%elem_of_dom; unfold getitem; rewrite Hp, bind_mret_l;
  destruct (Hfactor _ _ Hp) as [q Hq];
  rewrite (bind_quiet _ _ q Hq);
  assert (Hin : person ∈ dom people) by (apply elem_of_dom; eauto);
  destruct (decide (person ∈ have_trait));
  [ rewrite bool_decide_eq_true_2 by done; eauto
  | rewrite bool_decide_eq_false_2 by done;
    rewrite bool_decide_eq_true_2 by set_solver; eauto ].

Lemma body_two_genes_valid acc person :
  person ∈ dom people →
  ∃ acc', body_two_genes people one_gene two_genes have_trait acc person
          = ([], Return acc').
Proof. unfold body_two_genes. body_valid person factor_two_genes_valid. Qed.

Lemma body_one_gene_valid acc person :
  person ∈ dom people →
  ∃ acc', body_one_gene people one_gene two_genes have_trait acc person
          = ([], Return acc').
Proof. unfold body_one_gene. body_valid person factor_one_gene_valid. Qed.

Lemma body_no_genes_valid acc person :
  person ∈ dom people →
  ∃ acc', body_no_genes people one_gene two_genes have_trait acc person
          = ([], Return acc').
Proof. unfold body_no_genes. body_valid person factor_no_genes_valid. Qed.

Lemma loop_valid (body : products → string → M products) (s : gset string) acc :
  s ⊆ dom people →
  (∀ acc person, person ∈ dom people → ∃ acc', body acc person = ([], Return acc')) →
  ∃ acc', foldM body acc (elements s) = ([], Return acc').
Proof.
  intros Hs Hbody.
  destruct (foldM_quiet body (λ _, True) (elements s) acc) as (acc' & ? & _);
    [|done|by eauto].
  intros a x Hx%elem_of_elements _.
  destruct (Hbody a x) as [a' ?]; [set_solver|eauto].
Qed.

Lemma joint_probability_valid :
  one_gene ∪ two_genes ⊆ dom people →
  ∃ p, joint_probability people one_gene two_genes have_trait = ([], Return p).
Proof.
  intros Hsub. unfold joint_probability.
  destruct (loop_valid (body_two_genes people one_gene two_genes have_trait)
              two_genes products_init) as [acc1 H1];
    [set_solver|apply body_two_genes_valid|].
  rewrite (bind_quiet _ _ _ H1).
  destruct (loop_valid (body_one_gene people one_gene two_genes have_trait)
              one_gene acc1) as [acc2 H2];
    [set_solver|apply body_one_gene_valid|].
  rewrite (bind_quiet _ _ _ H2).
  destruct (loop_valid (body_no_genes people one_gene two_genes have_trait)
              (dom people ∖ one_gene ∖ two_genes) acc2) as [acc3 H3];
    [set_solver|apply body_no_genes_valid|].
  rewrite (bind_quiet _ _ _ H3). eauto.
Qed.

(** Every iteration of the first two loops returns or raises [KeyError]. *)
Lemma body_two_genes_KeyError_or_Return acc person :
  result (body_two_genes people one_gene two_genes have_trait acc person)
  = Raise KeyError
  ∨ ∃ acc', result (body_two_genes people one_gene two_genes have_trait acc person)
            = Return acc'.
Proof.
  destruct (decide (person ∈ dom people)) as [Hin|Hout].
  - right. destruct (body_two_genes_valid acc person Hin) as [acc' ->]. eauto.
  - left. by rewrite body_two_genes_missing.
Qed.

Lemma body_one_gene_KeyError_or_Return acc person :
  result (body_one_gene people one_gene two_genes have_trait acc person)
  = Raise KeyError
  ∨ ∃ acc', result (body_one_gene people one_gene two_genes have_trait acc person)
            = Return acc'.
Proof.
  destruct (decide (person ∈ dom people)) as [Hin|Hout].
  - right. destruct (body_one_gene_valid acc person Hin) as [acc' ->]. eauto.
  - left. by rewrite body_one_gene_missing.
Qed.

Lemma joint_probability_missing x :
  x ∈ one_gene ∪ two_genes → x ∉ dom people →
  result (joint_probability people one_gene two_genes have_trait) = Raise KeyError.
Proof.
  intros Hx Hout. unfold joint_probability.
  destruct (decide (x ∈ two_genes)) as [Hin2|Hout2].
  { apply result_bind_Raise, (foldM_Raise _ _ _ _ x).
    - intros acc y _. apply body_two_genes_KeyError_or_Return.
    - by apply elem_of_elements.
    - intros acc. by rewrite body_two_genes_missing. }
  destruct (foldM_Return_or_Raise
              (body_two_genes people one_gene two_genes have_trait) KeyError
              (elements two_genes) products_init) as [H2|[acc2 H2]].
  { intros acc y _. apply body_two_genes_KeyError_or_Return. }
  { by apply result_bind_Raise. }
  rewrite (result_bind_Return _ _ _ H2).
  apply result_bind_Raise, (foldM_Raise _ _ _ _ x).
  - intros acc y _. apply body_one_gene_KeyError_or_Return.
  - apply elem_of_elements. set_solver.
  - intros acc. by rewrite body_one_gene_missing.
Qed.
End any_sets.

Lemma well_formed_empty (people : gmap string Person) : well_formed people ∅ ∅ ∅.
Proof. split; set_solver. Qed.

Section invalid_inside.
Variable people : gmap string Person.
Variables one_gene two_genes have_trait : gset string.
Variable bad : string.
Variable bad_record : Person.
Hypothesis Hbad : people !! bad = Some bad_record.
Hypothesis Hinvalid : valid_person people bad_record = false.
Hypothesis Hinside : one_gene ∪ two_genes ⊆ dom people.

Ltac factor_TypeError :=
  destruct (invalid_parents people ∅ ∅ ∅ (well_formed_empty people)
              bad bad_record Hbad Hinvalid) as [-> [Hm|Hf]];
  [ rewrite !Hm by set_solver; by rewrite ?andb_false_r
  | rewrite !Hf by set_solver; by rewrite ?andb_false_r ].

Lemma factor_two_genes_TypeError :
  factor_two_genes people one_gene two_genes (mother bad_record) (father bad_record)
  = ([], Raise TypeError).
Proof. unfold factor_two_genes. factor_TypeError. Qed.

Lemma factor_one_gene_TypeError :
  factor_one_gene people one_gene two_genes (mother bad_record) (father bad_record)
  = ([], Raise TypeError).
Proof. unfold factor_one_gene. factor_TypeError. Qed.

Lemma factor_no_genes_TypeError :
  factor_no_genes people one_gene two_genes (mother bad_record) (father bad_record)
  = ([], Raise TypeError).
Proof. unfold factor_no_genes. factor_TypeError. Qed.

Lemma joint_probability_TypeError :
  result (joint_probability people one_gene two_genes have_trait) = Raise TypeError.
Proof.
  assert (bad ∈ dom people) as Hdom by (apply elem_of_dom; eauto).
  assert (∀ acc, result (body_two_genes people one_gene two_genes have_trait acc bad)
                 = Raise TypeError) as Hbad2.
  { intros acc. unfold body_two_genes, getitem.
    by rewrite Hbad, bind_mret_l, factor_two_genes_TypeError. }
  assert (∀ acc, result (body_one_gene people one_gene two_genes have_trait acc bad)
                 = Raise TypeError) as Hbad1.
  { intros acc. unfold body_one_gene, getitem.
    by rewrite Hbad, bind_mret_l, factor_one_gene_TypeError. }
  assert (∀ acc, result (body_no_genes people one_gene two_genes have_trait acc bad)
                 = Raise TypeError) as Hbad0.
  { intros acc. unfold body_no_genes, getitem.
    by rewrite Hbad, bind_mret_l, factor_no_genes_TypeError. }
  unfold joint_probability.
  destruct (decide (bad ∈ two_genes)) as [Hin2|Hout2].
  { apply result_bind_Raise, (foldM_Raise _ _ _ _ bad); [|by apply elem_of_elements|done].
    intros acc y Hy%elem_of_elements. apply body_two_genes_outcome. set_solver. }
  destruct (foldM_Return_or_Raise
              (body_two_genes people one_gene two_genes have_trait) TypeError
              (elements two_genes) products_init) as [H2|[acc2 H2]].
  { intros acc y Hy%elem_of_elements. apply body_two_genes_outcome. set_solver. }
  { by apply result_bind_Raise. }
  rewrite (result_bind_Return _ _ _ H2).
  destruct (decide (bad ∈ one_gene)) as [Hin1|Hout1].
  { apply result_bind_Raise, (foldM_Raise _ _ _ _ bad); [|by apply elem_of_elements|done].
    intros acc y Hy%elem_of_elements. apply body_one_gene_outcome. set_solver. }
  destruct (foldM_Return_or_Raise
              (body_one_gene people one_gene two_genes have_trait) TypeError
              (elements one_gene) acc2) as [H1|[acc1 H1]].
  { intros acc y Hy%elem_of_elements. apply body_one_gene_outcome. set_solver. }
  { by apply result_bind_Raise. }
  rewrite (result_bind_Return _ _ _ H1).
  apply result_bind_Raise, (foldM_Raise _ _ _ _ bad); [| |done].
  - intros acc y Hy%elem_of_elements. apply body_no_genes_outcome. set_solver.
  - apply elem_of_elements. set_solver.
Qed.
End invalid_inside.

Lemma not_subseteq_witness (X Y : gset string) : ¬ X ⊆ Y → ∃ x, x ∈ X ∧ x ∉ Y.
Proof.
  intros Hsub. destruct (set_choose_or_empty (X ∖ Y)) as [[x Hx]|Hempty].
  - exists x. set_solver.
  - destruct Hsub. set_solver.
Qed.

Lemma invalid_pedigree_record (people : gmap string Person) :
  ¬ valid_pedigree people →
  ∃ bad record, people !! bad = Some record ∧ valid_person people record = false.
Proof.
  intros Hinv. apply map_not_Forall in Hinv as (bad & record & Hbad & Hrec); [|apply _].
  apply not_true_is_false in Hrec. eauto.
Qed.

Lemma joint_probability_missing_raises people one_gene two_genes have_trait x :
  x ∈ one_gene ∪ two_genes → x ∉ dom people →
  ∃ e, result (joint_probability people one_gene two_genes have_trait) = Raise e.
Proof.
  intros Hx Hout. unfold joint_probability.
  destruct (decide (x ∈ two_genes)) as [Hin2|Hout2].
  { destruct (foldM_raises (body_two_genes people one_gene two_genes have_trait)
                (elements two_genes) products_init x) as [e He].
    - by apply elem_of_elements.
    - intros acc. exists KeyError. by rewrite body_two_genes_missing.
    - exists e. by apply result_bind_Raise. }
  destruct (result (foldM (body_two_genes people one_gene two_genes have_trait)
                      products_init (elements two_genes))) as [acc2|e] eqn:H2;
    [|exists e; by apply result_bind_Raise].
  rewrite (result_bind_Return _ _ _ H2).
  destruct (foldM_raises (body_one_gene people one_gene two_genes have_trait)
              (elements one_gene) acc2 x) as [e He].
  - apply elem_of_elements. set_solver.
  - intros acc. exists KeyError. by rewrite body_one_gene_missing.
  - exists e. by apply result_bind_Raise.
Qed.

(** X3. The two ways [joint_probability] fails: on a valid pedigree a
    member of [one_gene] or [two_genes] that is no person of the pedigree
    gives [KeyError]; on an invalid pedigree with both sets inside the
    pedigree the result is [TypeError]. *)
Theorem joint_probability_errors (people : gmap string Person)
    (one_gene two_genes have_trait : gset string) :
  (valid_pedigree people →
   ∀ x, x ∈ one_gene ∪ two_genes → x ∉ dom people →
        result (joint_probability people one_gene two_genes have_trait) = Raise KeyError)
  ∧ (¬ valid_pedigree people → one_gene ∪ two_genes ⊆ dom people →
     result (joint_probability people one_gene two_genes have_trait) = Raise TypeError).
Proof.
  split.
  - intros Hv x. by apply joint_probability_missing.
  - intros (bad & record & Hbad & Hrec)%invalid_pedigree_record Hsub.
    by eapply joint_probability_TypeError.
Qed.

Lemma Qprod_app (l1 l2 : list Q) : Qprod (l1 ++ l2) == Qprod l1 * Qprod l2.
Proof.
  induction l1 as [|q l1 IH]; simpl; [ring|].
  unfold Qprod in *. simpl. rewrite IH. ring.
Qed.

Lemma Qprod_Permutation (l1 l2 : list Q) : l1 ≡ₚ l2 → Qprod l1 == Qprod l2.
Proof.
  unfold Qprod. induction 1 as [|q l1 l2 _ IH|q1 q2 l|l1 l2 l3 _ IH1 _ IH2]; simpl.
  - done.
  - by rewrite IH.
  - ring.
  - by rewrite IH1.
Qed.

Lemma foldM_product (body : products → string → M products) (f : string → Q)
    (l : list string) (acc : products) :
  (∀ acc x, x ∈ l →
     ∃ acc', body acc x = ([], Return acc')
             ∧ products_total acc' == products_total acc * f x) →
  ∃ acc', foldM body acc l = ([], Return acc')
          ∧ products_total acc' == products_total acc * Qprod (f <$> l).
Proof.
  revert acc. induction l as [|x l IH]; intros acc Hbody.
  - exists acc. split; [done|]. unfold Qprod. simpl. ring.
  - destruct (Hbody acc x) as (acc1 & H1 & Ht1); [left|].
    destruct (IH acc1) as (acc' & H' & Ht').
    { intros ???. apply Hbody. by right. }
    exists acc'. split.
    + simpl. by rewrite (bind_quiet _ _ _ H1).
    + rewrite Ht', Ht1. unfold Qprod. csimpl. ring.
Qed.

Section factorization.
Variable people : gmap string Person.
Variables one_gene two_genes have_trait : gset string.
Hypothesis Hpedigree : valid_pedigree people.
Hypothesis Hwf : well_formed people one_gene two_genes have_trait.

Lemma in_set_count (m : string) :
  m ∈ dom people →
  in_set (Some m) one_gene = bool_decide (count_of m one_gene two_genes = G1)
  ∧ in_set (Some m) two_genes = bool_decide (count_of m one_gene two_genes = G2)
  ∧ in_set (Some m) (dom people ∖ one_gene ∖ two_genes)
    = bool_decide (count_of m one_gene two_genes = G0).
Proof.
  intros Hm. destruct Hwf as [? ? ? ?]. unfold count_of. simpl.
  repeat case_bool_decide; try done; set_solver.
Qed.

Ltac factor_table m f Hm Hf :=
  destruct (in_set_count m Hm) as (-> & -> & ->);
  destruct (in_set_count f Hf) as (-> & -> & ->);
  by destruct (count_of m one_gene two_genes), (count_of f one_gene two_genes).

Lemma factor_two_genes_table m f :
  m ∈ dom people → f ∈ dom people →
  factor_two_genes people one_gene two_genes (Some m) (Some f)
  = mret (table_two_genes (count_of m one_gene two_genes)
                          (count_of f one_gene two_genes)).
Proof. intros Hm Hf. unfold factor_two_genes. cbn [is_none andb]. factor_table m f Hm Hf. Qed.

Lemma factor_one_gene_table m f :
  m ∈ dom people → f ∈ dom people →
  factor_one_gene people one_gene two_genes (Some m) (Some f)
  = mret (table_one_gene (count_of m one_gene two_genes)
                         (count_of f one_gene two_genes)).
Proof. intros Hm Hf. unfold factor_one_gene. cbn [is_none andb]. factor_table m f Hm Hf. Qed.

Lemma factor_no_genes_table m f :
  m ∈ dom people → f ∈ dom people →
  factor_no_genes people one_gene two_genes (Some m) (Some f)
  = mret (table_no_genes (count_of m one_gene two_genes)
                         (count_of f one_gene two_genes)).
Proof. intros Hm Hf. unfold factor_no_genes. cbn [is_none andb]. factor_table m f Hm Hf. Qed.

Lemma factor_two_genes_founder :
  factor_two_genes people one_gene two_genes None None = mret (PROBS_gene G2).
Proof. done. Qed.

Lemma factor_one_gene_founder :
  factor_one_gene people one_gene two_genes None None = mret (PROBS_gene G1).
Proof. done. Qed.

Lemma factor_no_genes_founder :
  factor_no_genes people one_gene two_genes None None = mret (PROBS_gene G0).
Proof. done. Qed.

Ltac body_factor person Hfounder Hfactor Hcount :=
  intros Hin; assert (person ∈ dom people) as [record Hp]%elem_of_dom
    by (destruct Hwf; set_solver);
  assert (person ∈ dom people) as Hdom by (apply elem_of_dom; eauto);
  unfold person_factor, getitem; rewrite Hp, bind_mret_l, Hcount by done;
  destruct (valid_parents people Hpedigree person record Hp)
    as [[-> ->]|(m & f & -> & -> & Hm & Hf)];
  [ rewrite Hfounder, bind_mret_l
  | rewrite (Hfactor m f Hm Hf), bind_mret_l ];
  (destruct (decide (person ∈ have_trait));
   [ rewrite !bool_decide_eq_true_2 by done
   | rewrite !(bool_decide_eq_false_2 (person ∈ have_trait)) by done;
     rewrite bool_decide_eq_true_2 by set_solver ];
   eexists; (split; [reflexivity|]); unfold products_total; simpl; ring).

Lemma count_of_two_genes person :
  person ∈ two_genes → count_of person one_gene two_genes = G2.
Proof.
  intros Hin. destruct Hwf as [? ? ? ?]. unfold count_of.
  rewrite bool_decide_eq_false_2 by set_solver. by rewrite bool_decide_eq_true_2.
Qed.

Lemma count_of_one_gene person :
  person ∈ one_gene → count_of person one_gene two_genes = G1.
Proof. intros Hin. unfold count_of. by rewrite bool_decide_eq_true_2. Qed.

Lemma count_of_no_genes person :
  person ∈ dom people ∖ one_gene ∖ two_genes →
  count_of person one_gene two_genes = G0.
Proof.
  intros Hin. unfold count_of.
  by rewrite !bool_decide_eq_false_2 by set_solver.
Qed.

Lemma body_two_genes_factor acc person :
  person ∈ two_genes →
  ∃ acc', body_two_genes people one_gene two_genes have_trait acc person
          = ([], Return acc')
          ∧ products_total acc'
            == products_total acc
               * person_factor people one_gene two_genes have_trait person.
Proof.
  unfold body_two_genes.
  body_factor person factor_two_genes_founder factor_two_genes_table count_of_two_genes.
Qed.

Lemma body_one_gene_factor acc person :
  person ∈ one_gene →
  ∃ acc', body_one_gene people one_gene two_genes have_trait acc person
          = ([], Return acc')
          ∧ products_total acc'
            == products_total acc
               * person_factor people one_gene two_genes have_trait person.
Proof.
  unfold body_one_gene.
  body_factor person factor_one_gene_founder factor_one_gene_table count_of_one_gene.
Qed.

Lemma body_no_genes_factor acc person :
  person ∈ dom people ∖ one_gene ∖ two_genes →
  ∃ acc', body_no_genes people one_gene two_genes have_trait acc person
          = ([], Return acc')
          ∧ products_total acc'
            == products_total acc
               * person_factor people one_gene two_genes have_trait person.
Proof.
  unfold body_no_genes.
  body_factor person factor_no_genes_founder factor_no_genes_table count_of_no_genes.
Qed.

Lemma elements_partition :
  elements (dom people)
  ≡ₚ elements two_genes ++ elements one_gene
     ++ elements (dom people ∖ one_gene ∖ two_genes).
Proof.
  destruct Hwf as [? ? ? ?].
  rewrite <- !elements_disj_union by set_solver.
  apply elements_proper. apply set_equiv. intros x.
  destruct (decide (x ∈ one_gene)), (decide (x ∈ two_genes)); set_solver.
Qed.

Lemma joint_probability_product :
  ∃ p, joint_probability people one_gene two_genes have_trait = ([], Return p)
       ∧ p == Qprod (person_factor people one_gene two_genes have_trait
                       <$> elements (dom people)).
Proof.
  unfold joint_probability.
  destruct (foldM_product (body_two_genes people one_gene two_genes have_trait)
              (person_factor people one_gene two_genes have_trait)
              (elements two_genes) products_init) as (acc1 & H1 & Ht1).
  { intros acc x Hx%elem_of_elements. by apply body_two_genes_factor. }
  destruct (foldM_product (body_one_gene people one_gene two_genes have_trait)
              (person_factor people one_gene two_genes have_trait)
              (elements one_gene) acc1) as (acc2 & H2 & Ht2).
  { intros acc x Hx%elem_of_elements. by apply body_one_gene_factor. }
  destruct (foldM_product (body_no_genes people one_gene two_genes have_trait)
              (person_factor people one_gene two_genes have_trait)
              (elements (dom people ∖ one_gene ∖ two_genes)) acc2) as (acc3 & H3 & Ht3).
  { intros acc x Hx%elem_of_elements. by apply body_no_genes_factor. }
  exists (products_total acc3). split.
  - rewrite (bind_quiet _ _ _ H1), (bind_quiet _ _ _ H2), (bind_quiet _ _ _ H3). done.
  - rewrite (Qprod_Permutation _ _ (fmap_Permutation _ _ _ elements_partition)).
    rewrite !fmap_app, !Qprod_app, Ht3, Ht2, Ht1.
    unfold products_total, products_init. simpl. ring.
Qed.
End factorization.

(** X4. On a valid pedigree and a well-formed hypothesis the number
    [joint_probability] returns is the product, over the persons of the
    pedigree, of one factor per person: the prior of the person's count
    for a founder, the table entry of the person's and the parents' counts
    otherwise, times the trait probability. *)
Theorem joint_probability_factors (people : gmap string Person)
    (one_gene two_genes have_trait : gset string) :
  valid_pedigree people →
  well_formed people one_gene two_genes have_trait →
  ∃ p, joint_probability people one_gene two_genes have_trait = ([], Return p)
       ∧ p == Qprod (person_factor people one_gene two_genes have_trait
                       <$> elements (dom people)).
Proof. apply joint_probability_product. Qed.

Lemma joint_probability_factors_witness :
  ∃ p, joint_probability example_family {["Harry"]} {["James"]} {["James"]}
       = ([], Return p)
       ∧ p == Qprod (person_factor example_family {["Harry"]} {["James"]} {["James"]}
                       <$> elements (dom example_family)).
Proof.
  assert (well_formed example_family {["Harry"]} {["James"]} {["James"]}) as Hwf.
  { split; by_computation. }
  exact (joint_probability_factors _ _ _ _ example_family_valid Hwf).
Defined.

(** ** The hypotheses scored *)

Lemma NoDup_hypotheses (people : gmap string Person) : NoDup (hypotheses people).
Proof.
  unfold hypotheses. apply NoDup_bind; [| |apply NoDup_powerset].
  - intros ht1 ht2 [[one two] ht] _ _ H1 H2.
    destruct (fails_evidence people ht1); [by apply elem_of_nil in H1|].
    destruct (fails_evidence people ht2); [by apply elem_of_nil in H2|].
    apply list_elem_of_bind in H1 as (o1 & H1 & _).
    apply list_elem_of_bind in H1 as (t1 & H1 & _).
    apply list_elem_of_bind in H2 as (o2 & H2 & _).
    apply list_elem_of_bind in H2 as (t2 & H2 & _).
    apply list_elem_of_singleton in H1, H2. congruence.
  - intros ht _. destruct (fails_evidence people ht); [constructor|].
    apply NoDup_bind; [| |apply NoDup_powerset].
    + intros o1 o2 [[one two] ht'] _ _ H1 H2.
      apply list_elem_of_bind in H1 as (t1 & H1 & _).
      apply list_elem_of_bind in H2 as (t2 & H2 & _).
      apply list_elem_of_singleton in H1, H2. congruence.
    + intros one _. apply NoDup_bind; [| |apply NoDup_powerset].
      * intros t1 t2 y _ _ H1 H2.
        apply list_elem_of_singleton in H1, H2. congruence.
      * intros two _. apply NoDup_singleton.
Qed.

(** X5. The hypotheses [main] scores are pairwise distinct; they are
    exactly the triples of an evidence-consistent [have_trait] inside the
    pedigree, a [one_gene] inside the pedigree and a [two_genes] inside the
    rest; and the three nested loops are one loop over this list. *)
Theorem hypotheses_exact (people : gmap string Person) :
  NoDup (hypotheses people)
  ∧ (∀ one_gene two_genes have_trait,
       (one_gene, two_genes, have_trait) ∈ hypotheses people
       ↔ have_trait ⊆ dom people ∧ evidence_consistent people have_trait
         ∧ one_gene ⊆ dom people ∧ two_genes ⊆ dom people ∖ one_gene)
  ∧ accumulate people
    = foldM (score_and_update people) (probabilities_init people) (hypotheses people).
Proof.
  split_and!.
  - apply NoDup_hypotheses.
  - intros one_gene two_genes have_trait.
    apply (elem_of_hypotheses people (one_gene, two_genes, have_trait)).
  - apply accumulate_flat.
Qed.

(** ** What a bucket holds *)

Lemma mass_cons selected h p scored :
  mass selected ((h, p) :: scored)
  = (if selected h then p else 0) + mass selected scored.
Proof. done. Qed.

Lemma update_person_buckets one_gene two_genes have_trait p person b :
  (∀ g, gene_bucket g (update_person one_gene two_genes have_trait p person b)
        == gene_bucket g b
           + (if has_count person g (one_gene, two_genes, have_trait) then p else 0))
  ∧ (∀ t, trait_bucket t (update_person one_gene two_genes have_trait p person b)
          == trait_bucket t b
             + (if has_trait person t (one_gene, two_genes, have_trait) then p else 0)).
Proof.
  rewrite update_person_count. unfold has_count, has_trait. simpl.
  split.
  - intros g. destruct (count_of person one_gene two_genes), g,
      (bool_decide (person ∈ have_trait)); simpl; ring.
  - intros t. destruct (count_of person one_gene two_genes), t,
      (bool_decide (person ∈ have_trait)); simpl; ring.
Qed.

Lemma fold_update_person_buckets person scored b :
  (∀ g, gene_bucket g (fold_update_person person b scored)
        == gene_bucket g b + mass (has_count person g) scored)
  ∧ (∀ t, trait_bucket t (fold_update_person person b scored)
          == trait_bucket t b + mass (has_trait person t) scored).
Proof.
  revert b. induction scored as [|[[[one two] ht] p] scored IH]; intros b.
  - unfold mass, Qsum. simpl. split; intros; ring.
  - destruct (IH (update_person one two ht p person b)) as [IHg IHt].
    destruct (update_person_buckets one two ht p person b) as [Hg Ht].
    split.
    + intros g. rewrite mass_cons. etrans; [apply IHg|]. rewrite Hg. ring.
    + intros t. rewrite mass_cons. etrans; [apply IHt|]. rewrite Ht. ring.
Qed.

Lemma dom_fold_updates (probabilities : gmap string belief)
    (scored : list (hypothesis * Q)) :
  dom (fold_updates probabilities scored) = dom probabilities.
Proof.
  apply set_eq. intros k. rewrite !elem_of_dom, lookup_fold_updates.
  by rewrite fmap_is_Some.
Qed.

(** X6. Folding scored hypotheses with [update] keeps the persons of the
    belief state, and leaves in each bucket of a person its initial value
    plus the sum of the [p] of exactly those hypotheses that put the person
    in that bucket (a person in both [one_gene] and [two_genes] counts as
    one copy). *)
Theorem fold_updates_buckets (probabilities : gmap string belief)
    (scored : list (hypothesis * Q)) (person : string) :
  dom (fold_updates probabilities scored) = dom probabilities
  ∧ ∀ b, probabilities !! person = Some b →
      ∃ b', fold_updates probabilities scored !! person = Some b'
            ∧ (∀ g, gene_bucket g b'
                    == gene_bucket g b + mass (has_count person g) scored)
            ∧ (∀ t, trait_bucket t b'
                    == trait_bucket t b + mass (has_trait person t) scored).
Proof.
  split; [apply dom_fold_updates|].
  intros b Hb. exists (fold_update_person person b scored).
    rewrite lookup_fold_updates, Hb. split; [done|].
    apply fold_update_person_buckets.
Qed.

(** ** The posterior [main] computes *)

Lemma foldM_score_zip people hs probs out probs' :
  foldM (score_and_update people) probs hs = (out, Return probs') →
  ∃ ps, Forall2 (scores people) hs ps ∧ probs' = fold_updates probs (zip hs ps).
Proof.
  revert probs out. induction hs as [|h hs IH]; intros probs out; simpl.
  - intros [= _ <-]. exists []. split; [constructor|done].
  - intros (o1 & probs1 & o2 & H1 & H2 & _)%bind_Return_inv.
    apply score_and_update_Return_inv in H1 as (p & Hp & ->).
    apply IH in H2 as (ps & Hps & ->).
    exists (p :: ps). split; [by constructor|].
    by destruct h as [[one two] ht].
Qed.

Lemma fold_update_person_totals person scored b :
  gene_total (fold_update_person person b scored)
  == gene_total b + Qsum (snd <$> scored)
  ∧ trait_total (fold_update_person person b scored)
    == trait_total b + Qsum (snd <$> scored).
Proof.
  revert b. induction scored as [|[[[one two] ht] p] scored IH]; intros b.
  - unfold Qsum. simpl. split; ring.
  - destruct (IH (update_person one two ht p person b)) as [IHg IHt].
    destruct (update_person_totals one two ht p person b) as [Hg Ht].
    rewrite fmap_cons, Qsum_cons. simpl. split.
    + etrans; [apply IHg|]. rewrite Hg. ring.
    + etrans; [apply IHt|]. rewrite Ht. ring.
Qed.

Lemma scores_positive people hs ps :
  Forall2 (scores people) hs ps → Forall (λ p, 0 < p) ps.
Proof.
  induction 1 as [|h p hs ps [o Hp] _ IH]; constructor; [|done].
  by eapply joint_probability_pos.
Qed.


Lemma mass_none selected scored :
  Forall (λ hp, selected hp.1 = false) scored → mass selected scored == 0.
Proof.
  induction 1 as [|[h p] scored Hsel _ IH]; [done|].
  rewrite mass_cons. simpl in Hsel. rewrite Hsel, IH. ring.
Qed.

Lemma mass_all selected scored :
  Forall (λ hp, selected hp.1 = true) scored →
  mass selected scored == Qsum (snd <$> scored).
Proof.
  induction 1 as [|[h p] scored Hsel _ IH]; [done|].
  rewrite mass_cons, fmap_cons, Qsum_cons. simpl in *. rewrite Hsel, IH. ring.
Qed.


Lemma zip_scored_snd people hs ps :
  Forall2 (scores people) hs ps → (zip hs ps).*2 = ps.
Proof. intros Hps. apply snd_zip. by rewrite (Forall2_length _ _ _ Hps). Qed.

Lemma zip_scored_Forall (P : hypothesis → Prop) (hs : list hypothesis) (ps : list Q) :
  Forall P hs → Forall (λ hp, P hp.1) (zip hs ps).
Proof.
  intros Hhs. revert ps. induction Hhs as [|h hs Hh _ IH]; intros [|p ps];
    simpl; constructor; auto.
Qed.

Lemma infer_marginals (people : gmap string Person) :
  valid_pedigree people →
  ∃ probabilities ps,
    infer people = ([], Return probabilities)
    ∧ Forall2 (scores people) (hypotheses people) ps
    ∧ 0 < Qsum ps
    ∧ dom probabilities = dom people
    ∧ ∀ person, person ∈ dom people →
        ∃ b, probabilities !! person = Some b
             ∧ (∀ g, gene_bucket g b
                     == mass (has_count person g) (zip (hypotheses people) ps) / Qsum ps)
             ∧ (∀ t, trait_bucket t b
                     == mass (has_trait person t) (zip (hypotheses people) ps) / Qsum ps)
             ∧ gene0 b + gene1 b + gene2 b == 1
             ∧ trait_True b + trait_False b == 1.
Proof.
  intros Hv. destruct (accumulate_quiet people Hv) as [acc Hacc].
  pose proof Hacc as Hflat. rewrite accumulate_flat in Hflat.
  apply foldM_score_zip in Hflat as (ps & Hps & ->).
  set (scored := zip (hypotheses people) ps) in *.
  assert (0 < Qsum ps) as Hpos.
  { apply Qsum_pos; [|by eapply scores_positive].
    intros ->. apply Forall2_nil_inv_r in Hps. by apply hypotheses_nonempty in Hps. }
  assert (∀ person b, fold_updates (probabilities_init people) scored !! person = Some b →
            gene_total b == Qsum ps ∧ trait_total b == Qsum ps) as Htot.
  { intros person b. rewrite lookup_fold_updates. unfold probabilities_init.
    rewrite lookup_fmap. destruct (people !! person); [|done]. simpl.
    intros [= <-].
    destruct (fold_update_person_totals person scored (mkBelief 0 0 0 0 0)) as [Hg Ht].
    unfold scored in Hg, Ht at 2. rewrite (zip_scored_snd _ _ _ Hps) in Hg, Ht.
    split; [etrans; [apply Hg|]|etrans; [apply Ht|]];
      unfold gene_total, trait_total; simpl; ring. }
  exists (normalized <$> fold_updates (probabilities_init people) scored), ps.
  split_and!; [|done|done| |].
  - unfold infer. rewrite (bind_quiet _ _ _ Hacc). apply normalize_quiet.
    intros person b Hb. destruct (Htot person b Hb) as [-> ->]. split; lra.
  - rewrite dom_fmap_L, dom_fold_updates.
    unfold probabilities_init. by rewrite dom_fmap_L.
  - intros person [record Hrec]%elem_of_dom.
    set (b := fold_update_person person (mkBelief 0 0 0 0 0) scored).
    assert (fold_updates (probabilities_init people) scored !! person = Some b) as Hb.
    { rewrite lookup_fold_updates. unfold probabilities_init.
      by rewrite lookup_fmap, Hrec. }
    destruct (fold_update_person_buckets person scored (mkBelief 0 0 0 0 0))
      as [Hg Ht]. fold b in Hg, Ht.
    destruct (Htot person b Hb) as [Hgt Htt].
    exists (normalized b). rewrite lookup_fmap, Hb. split; [done|].
    assert (¬ gene_total b == 0 ∧ ¬ trait_total b == 0) as [Hgnz Htnz]
      by (rewrite Hgt, Htt; split; lra).
    destruct (normalized_spec b Hgnz Htnz) as (Hsum_g & Hsum_t & _).
    split_and!; [| |done|done].
    + intros g. transitivity (gene_bucket g b * 1 / gene_total b).
      { by destruct g. }
      rewrite Hg, Hgt. unfold scored.
      destruct g; cbn [gene_bucket gene2 gene1 gene0]; field; lra.
    + intros t. transitivity (trait_bucket t b * 1 / trait_total b).
      { by destruct t. }
      rewrite Ht, Htt. unfold scored.
      destruct t; cbn [trait_bucket trait_True trait_False]; field; lra.
Qed.

(** X7. On a valid pedigree the inference of [main] returns, for every
    person, in each gene bucket and each trait bucket the sum of the joint
    probabilities of the scored hypotheses that put the person there,
    divided by the sum over all scored hypotheses. *)
Theorem infer_posterior (people : gmap string Person) :
  valid_pedigree people →
  ∃ probabilities ps,
    infer people = ([], Return probabilities)
    ∧ Forall2 (scores people) (hypotheses people) ps
    ∧ 0 < Qsum ps
    ∧ ∀ person, person ∈ dom people →
        ∃ b, probabilities !! person = Some b
             ∧ (∀ g, gene_bucket g b
                     == mass (has_count person g) (zip (hypotheses people) ps) / Qsum ps)
             ∧ (∀ t, trait_bucket t b
                     == mass (has_trait person t) (zip (hypotheses people) ps) / Qsum ps).
Proof.
  intros Hv. destruct (infer_marginals people Hv)
    as (probabilities & ps & Hinfer & Hps & Hpos & _ & Hb).
  exists probabilities, ps. split_and!; [done..|].
  intros person Hperson. destruct (Hb person Hperson) as (b & ? & ? & ? & _).
  eauto.
Qed.

Lemma infer_posterior_witness :
  ∃ probabilities ps,
    infer example_family = ([], Return probabilities)
    ∧ Forall2 (scores example_family) (hypotheses example_family) ps
    ∧ 0 < Qsum ps
    ∧ ∀ person, person ∈ dom example_family →
        ∃ b, probabilities !! person = Some b
             ∧ (∀ g, gene_bucket g b
                     == mass (has_count person g) (zip (hypotheses example_family) ps)
                        / Qsum ps)
             ∧ (∀ t, trait_bucket t b
                     == mass (has_trait person t) (zip (hypotheses example_family) ps)
                        / Qsum ps).
Proof. exact (infer_posterior example_family example_family_valid). Defined.



(** X9. The inference of [main] ends with [TypeError] exactly on the
    invalid pedigrees and returns (printing nothing) exactly on the valid
    ones; so it never ends with [KeyError] or [ZeroDivisionError]. *)
Theorem infer_fails_iff_invalid (people : gmap string Person) :
  (result (infer people) = Raise TypeError ↔ ¬ valid_pedigree people)
  ∧ ((∃ probabilities, infer people = ([], Return probabilities))
     ↔ valid_pedigree people).
Proof.
  split; split.
  - intros Hraise Hv. destruct (infer_marginals people Hv) as (probs & _ & Hinfer & _).
    rewrite Hinfer in Hraise. done.
  - apply infer_invalid.
  - intros [probs Hinfer]. destruct (decide (valid_pedigree people)) as [|Hinv]; [done|].
    apply infer_invalid in Hinv. rewrite Hinfer in Hinv. done.
  - intros Hv. destruct (infer_marginals people Hv) as (probs & _ & Hinfer & _). eauto.
Qed.

(** X10. On a valid pedigree a person whose trait is observed gets
    probability 1 on the observed value and 0 on the other. *)
Theorem observed_trait_certain (people : gmap string Person)
    (person : string) (record : Person) (observed : bool) :
  valid_pedigree people →
  people !! person = Some record → trait record = Some observed →
  ∃ probabilities b,
    infer people = ([], Return probabilities)
    ∧ probabilities !! person = Some b
    ∧ trait_bucket observed b == 1
    ∧ trait_bucket (negb observed) b == 0.
Proof.
  intros Hv Hrec Hobs. destruct (infer_marginals people Hv)
    as (probabilities & ps & Hinfer & Hps & Hpos & _ & Hb).
  destruct (Hb person) as (b & Hlook & _ & Ht & _); [apply elem_of_dom; eauto|].
  exists probabilities, b. split_and!; [done|done| |].
  - rewrite Ht, mass_all, (zip_scored_snd _ _ _ Hps); [field; lra|].
    apply (zip_scored_Forall (λ h, has_trait person observed h = true)), Forall_forall. intros h Hh%elem_of_hypotheses.
    destruct Hh as (_ & Hc & _). unfold has_trait.
    apply bool_decide_eq_true_2. specialize (Hc person record observed Hrec Hobs).
    destruct observed.
    + apply bool_decide_eq_true_2. by apply Hc.
    + apply bool_decide_eq_false_2. intros Hin. by apply Hc in Hin.
  - rewrite Ht, mass_none; [field; lra|].
    apply (zip_scored_Forall (λ h, has_trait person (negb observed) h = false)),
      Forall_forall. intros h Hh%elem_of_hypotheses.
    destruct Hh as (_ & Hc & _). unfold has_trait.
    apply bool_decide_eq_false_2. specialize (Hc person record observed Hrec Hobs).
    destruct observed; simpl.
    + rewrite bool_decide_eq_true_2; [done|by apply Hc].
    + rewrite bool_decide_eq_false_2; [done|]. intros Hin. by apply Hc in Hin.
Qed.

Lemma observed_trait_certain_witness :
  ∃ probabilities b,
    infer example_family = ([], Return probabilities)
    ∧ probabilities !! "James" = Some b
    ∧ trait_bucket true b == 1
    ∧ trait_bucket (negb true) b == 0.
Proof.
  exact (observed_trait_certain example_family "James"
           (mkPerson "James" None None (Some true)) true
           example_family_valid eq_refl eq_refl).
Defined.

(** ** More on [normalize] *)

Lemma normalize_Return_inv (probabilities : gmap string belief) out probabilities' :
  normalize probabilities = (out, Return probabilities') →
  ∀ person b, probabilities !! person = Some b →
              ¬ gene_total b == 0 ∧ ¬ trait_total b == 0.
Proof.
  intros Hnorm person b Hb.
  destruct (Qeq_dec (gene_total b) 0) as [Hg|Hg].
  { pose proof (normalize_raises probabilities person b Hb (or_introl Hg)) as Hr.
    rewrite Hnorm in Hr. done. }
  destruct (Qeq_dec (trait_total b) 0) as [Ht|Ht]; [|done].
  pose proof (normalize_raises probabilities person b Hb (or_intror Ht)) as Hr.
  rewrite Hnorm in Hr. done.
Qed.

Lemma normalize_Raise_inv (probabilities : gmap string belief) e :
  result (normalize probabilities) = Raise e → e = ZeroDivisionError.
Proof.
  unfold normalize. intros Hr.
  destruct (foldM_Return_or_Raise normalize_step ZeroDivisionError
              (map_to_list probabilities) probabilities) as [H|[a H]].
  - intros acc [k bk] _. simpl.
    destruct (normalize_person_outcome bk) as [-> | ->]; [by left|right].
    rewrite (bind_quiet _ _ (normalized bk) eq_refl). eauto.
  - congruence.
  - congruence.
Qed.

(** ** More on [load_data] *)

Lemma load_data_snoc (rows : list Row) (row : Row) :
  load_data (rows ++ [row]) = load_row (load_data rows) row.
Proof. unfold load_data. by rewrite foldl_snoc. Qed.

Lemma load_data_last (rows : list Row) (name : string) :
  load_data rows !! name
  = record_of_row <$> last (filter (λ row, row_name row = name) rows).
Proof.
  induction rows as [|row rows IH] using rev_ind; [done|].
  rewrite load_data_snoc, filter_app. unfold load_row.
  destruct (decide (row_name row = name)) as [<-|Hne].
  - rewrite lookup_insert_eq, filter_cons_True by done.
    by rewrite filter_nil, last_snoc.
  - rewrite lookup_insert_ne by done.
    rewrite filter_cons_False by done. by rewrite filter_nil, app_nil_r.
Qed.

Lemma dom_load_data (rows : list Row) :
  dom (load_data rows) = list_to_set (row_name <$> rows).
Proof.
  induction rows as [|row rows IH] using rev_ind; [apply dom_empty_L|].
  rewrite load_data_snoc. unfold load_row. rewrite dom_insert_L, IH.
  rewrite fmap_app, list_to_set_app_L. simpl. set_solver.
Qed.

(** X13. In the pedigree [load_data] builds, the entry of a name is the
    record of the last row with that name, the names are exactly the names
    of the rows, every record carries its key as name, and no parent is the
    empty string. *)
Theorem load_data_last_row_wins (rows : list Row) :
  (∀ name, load_data rows !! name
           = record_of_row <$> last (filter (λ row, row_name row = name) rows))
  ∧ dom (load_data rows) = list_to_set (row_name <$> rows)
  ∧ (∀ key record, load_data rows !! key = Some record →
       name record = key ∧ mother record ≠ Some ""%string
       ∧ father record ≠ Some ""%string).
Proof.
  split_and!.
  - apply load_data_last.
  - apply dom_load_data.
  - intros key record (row & _ & <- & ->)%load_data_rows. simpl.
    unfold or_None. split_and!; [done|case_bool_decide; congruence..].
Qed.

Lemma or_None_blank : or_None "" = None.
Proof. done. Qed.

Lemma or_None_name (s : string) : s ≠ ""%string → or_None s = Some s.
Proof. intros Hs. unfold or_None. by rewrite bool_decide_eq_false_2. Qed.

Lemma load_data_valid (rows : list Row) :
  Forall (row_ok rows) rows → valid_pedigree (load_data rows).
Proof.
  intros Hok key record (row & Hrow & _ & ->)%load_data_rows.
  rewrite Forall_forall in Hok. unfold valid_person. simpl.
  destruct (Hok row Hrow) as [[-> ->]|(Hm & Hf & Hmin & Hfin)]; [done|].
  rewrite !or_None_name by done.
  rewrite !bool_decide_eq_true_2; [done|..];
    rewrite dom_load_data; by apply elem_of_list_to_set.
Qed.

(** X14. If every row has both parents blank or both parents naming rows
    of the file (the condition of the docstring of [load_data]), the
    pedigree loaded is valid and the inference of [main] returns a belief
    state for exactly the names of the file. *)
Theorem load_data_then_infer (rows : list Row) :
  Forall (row_ok rows) rows →
  valid_pedigree (load_data rows)
  ∧ ∃ probabilities,
      infer (load_data rows) = ([], Return probabilities)
      ∧ dom probabilities = list_to_set (row_name <$> rows).
Proof.
  intros Hok%load_data_valid. split; [done|].
  destruct (infer_marginals _ Hok) as (probabilities & _ & Hinfer & _ & _ & Hdom & _).
  exists probabilities. split; [done|]. by rewrite Hdom, dom_load_data.
Qed.

Lemma load_data_then_infer_witness :
  valid_pedigree example_family
  ∧ ∃ probabilities,
      infer example_family = ([], Return probabilities)
      ∧ dom probabilities = {["Harry"; "James"; "Lily"]}.
Proof.
  assert (Forall
            (row_ok [mkRow "Harry" "Lily" "James" ""; mkRow "James" "" "" "1";
                     mkRow "Lily" "" "" "0"])
            [mkRow "Harry" "Lily" "James" ""; mkRow "James" "" "" "1";
             mkRow "Lily" "" "" "0"]) as Hok by by_computation.
  destruct (load_data_then_infer _ Hok) as (Hv & probabilities & Hinfer & Hdom).
  split; [exact Hv|]. exists probabilities. split; [exact Hinfer|].
  rewrite Hdom. by_computation.
Defined.

(** ** How many hypotheses are scored *)
















(** * Exact and binary64 arithmetic *)

(** ** Exact and binary64 arithmetic take the same path *)

Lemma same_effects_mret {A B} (R : A → B → Prop) (a : A) (b : B) :
  R a b → same_effects R (mret a) (mret b).
Proof. by split. Qed.

Lemma same_effects_raise {A B} (R : A → B → Prop) (e : exn) :
  same_effects R (raise e) (raise e).
Proof. by split. Qed.

Lemma same_effects_bind {A A' B B'} (R : A → A' → Prop) (S : B → B' → Prop)
    (m : M A) (m' : M A') (f : A → M B) (f' : A' → M B') :
  same_effects R m m' →
  (∀ a a', R a a' → same_effects S (f a) (f' a')) →
  same_effects S (m ≫= f) (m' ≫= f').
Proof.
  destruct m as [out [a|e]], m' as [out' [a'|e']]; intros [Hp Hr] Hf;
    cbn [printed result fst snd] in *; [|done..|by subst].
  destruct (Hf a a' Hr) as [Hp' Hr']. unfold same_effects, mbind, M_bind.
  destruct (f a) as [o r], (f' a') as [o' r']. simpl in *. by subst.
Qed.

Lemma same_effects_foldM {A A' B} (R : A → A' → Prop)
    (body : A → B → M A) (body' : A' → B → M A') (l : list B) (a : A) (a' : A') :
  (∀ a a' x, R a a' → same_effects R (body a x) (body' a' x)) →
  R a a' → same_effects R (foldM body a l) (foldM body' a' l).
Proof.
  intros Hbody. revert a a'. induction l as [|x l IH]; intros a a' Ha.
  - by apply same_effects_mret.
  - cbn [foldM]. eapply same_effects_bind; [by apply Hbody|]. apply IH.
Qed.

Lemma same_effects_quiet {A B} (R : A → B → Prop) (m : M A) (m' : M B) (a : A) :
  same_effects R m m' → m = ([], Return a) → ∃ b, m' = ([], Return b) ∧ R a b.
Proof.
  intros [Hp Hr] ->. destruct m' as [out [b|e]]; simpl in *; [|done].
  exists b. by subst.
Qed.

Lemma same_effects_Raise {A B} (R : A → B → Prop) (m : M A) (m' : M B) (e : exn) :
  same_effects R m m' → result m = Raise e → result m' = Raise e.
Proof.
  intros [_ Hr] He. rewrite He in Hr. destruct (result m'); [done|by subst].
Qed.

Lemma same_effects_getitem {V} (d : gmap string V) (k : string) :
  same_effects eq (getitem d k) (getitem d k).
Proof. unfold getitem. by destruct (d !! k). Qed.

Section same_path.
Variable people : gmap string Person.
Variables one_gene two_genes have_trait : gset string.

Ltac same_branches :=
  repeat (match goal with
          | |- context [if ?c then _ else _] => destruct c
          end; [by apply same_effects_mret|]);
  try apply same_effects_raise; try (by apply same_effects_mret).

Lemma factor_two_genes_same mo fa :
  same_effects any (factor_two_genes people one_gene two_genes mo fa)
                   (binary64.factor_two_genes people one_gene two_genes mo fa).
Proof. unfold factor_two_genes, binary64.factor_two_genes. same_branches. Qed.

Lemma factor_one_gene_same mo fa :
  same_effects any (factor_one_gene people one_gene two_genes mo fa)
                   (binary64.factor_one_gene people one_gene two_genes mo fa).
Proof. unfold factor_one_gene, binary64.factor_one_gene. same_branches. Qed.

Lemma factor_no_genes_same mo fa :
  same_effects any (factor_no_genes people one_gene two_genes mo fa)
                   (binary64.factor_no_genes people one_gene two_genes mo fa).
Proof. unfold factor_no_genes, binary64.factor_no_genes. same_branches. Qed.

Ltac same_body Hfactor :=
  eapply same_effects_bind; [apply same_effects_getitem|];
  intros record ? <-;
  eapply same_effects_bind; [apply Hfactor|];
  intros q q' _;
  repeat (match goal with
          | |- context [if ?c then _ else _] => destruct c
          end; [by apply same_effects_mret|]);
  apply (same_effects_bind any); [by split|]; intros; by apply same_effects_mret.

Lemma body_two_genes_same acc acc' person :
  same_effects any (body_two_genes people one_gene two_genes have_trait acc person)
                   (binary64.body_two_genes people one_gene two_genes have_trait acc' person).
Proof.
  unfold body_two_genes, binary64.body_two_genes. same_body factor_two_genes_same.
Qed.

Lemma body_one_gene_same acc acc' person :
  same_effects any (body_one_gene people one_gene two_genes have_trait acc person)
                   (binary64.body_one_gene people one_gene two_genes have_trait acc' person).
Proof.
  unfold body_one_gene, binary64.body_one_gene. same_body factor_one_gene_same.
Qed.

Lemma body_no_genes_same acc acc' person :
  same_effects any (body_no_genes people one_gene two_genes have_trait acc person)
                   (binary64.body_no_genes people one_gene two_genes have_trait acc' person).
Proof.
  unfold body_no_genes, binary64.body_no_genes. same_body factor_no_genes_same.
Qed.

Lemma joint_probability_same :
  same_effects any (joint_probability people one_gene two_genes have_trait)
                   (binary64.joint_probability people one_gene two_genes have_trait).
Proof.
  unfold joint_probability, binary64.joint_probability.
  eapply same_effects_bind.
  { apply (same_effects_foldM any); [|done]. intros. apply body_two_genes_same. }
  intros acc2 acc2' _. eapply same_effects_bind.
  { apply (same_effects_foldM any); [|done]. intros. apply body_one_gene_same. }
  intros acc1 acc1' _. eapply same_effects_bind.
  { apply (same_effects_foldM any); [|done]. intros. apply body_no_genes_same. }
  intros. by apply same_effects_mret.
Qed.
End same_path.

Lemma score_and_update_same people probabilities probabilities' h :
  same_effects any (score_and_update people probabilities h)
                   (binary64.score_and_update people probabilities' h).
Proof.
  destruct h as [[one_gene two_genes] have_trait].
  unfold score_and_update, binary64.score_and_update.
  eapply same_effects_bind; [apply joint_probability_same|].
  intros. by apply same_effects_mret.
Qed.

(** ** The loops of [main] in binary64, flattened *)

Lemma binary64_loop_two_genes_flat people have_trait one_gene probabilities :
  binary64.loop_two_genes people have_trait one_gene probabilities
  = foldM (binary64.score_and_update people) probabilities
      ((λ two_genes, (one_gene, two_genes, have_trait))
         <$> powerset (dom people ∖ one_gene)).
Proof.
  unfold binary64.loop_two_genes.
  generalize (powerset (dom people ∖ one_gene)). intros l. revert probabilities.
  induction l as [|two_genes l IH]; intros probabilities; [done|].
  simpl. apply bind_ext. intros a. apply IH.
Qed.

Lemma binary64_accumulate_flat people :
  binary64.accumulate people
  = foldM (binary64.score_and_update people) (binary64.probabilities_init people)
      (hypotheses people).
Proof.
  unfold binary64.accumulate, hypotheses. rewrite <- foldM_bind.
  apply foldM_ext. intros probabilities have_trait _.
  unfold binary64.visit_have_trait. destruct (fails_evidence people have_trait); [done|].
  unfold binary64.loop_one_gene. rewrite <- foldM_bind.
  apply foldM_ext. intros probs one_gene _.
  rewrite binary64_loop_two_genes_flat.
  generalize (powerset (dom people ∖ one_gene)). intros l.
  by rewrite list_fmap_bind_singleton.
Qed.

Lemma binary64_accumulate_same people :
  same_effects any (accumulate people) (binary64.accumulate people).
Proof.
  rewrite accumulate_flat, binary64_accumulate_flat.
  apply (same_effects_foldM any); [|done].
  intros. apply score_and_update_same.
Qed.

Lemma binary64_score_and_update_Return_inv people probs h out probs' :
  binary64.score_and_update people probs h = (out, Return probs') →
  ∃ p, binary64.scores people h p ∧ probs' = binary64.update probs h.1.1 h.1.2 h.2 p.
Proof.
  destruct h as [[one_gene two_genes] have_trait]. simpl.
  intros (o1 & p & o2 & Hp & [= _ <-] & _)%bind_Return_inv.
  exists p. split; [|done]. by exists o1.
Qed.

Lemma binary64_foldM_score_zip people hs probs out probs' :
  foldM (binary64.score_and_update people) probs hs = (out, Return probs') →
  ∃ ps, Forall2 (binary64.scores people) hs ps
        ∧ probs' = binary64.fold_updates probs (zip hs ps).
Proof.
  revert probs out. induction hs as [|h hs IH]; intros probs out; simpl.
  - intros [= _ <-]. exists []. split; [constructor|done].
  - intros (o1 & probs1 & o2 & H1 & H2 & _)%bind_Return_inv.
    apply binary64_score_and_update_Return_inv in H1 as (p & Hp & ->).
    apply IH in H2 as (ps & Hps & ->).
    exists (p :: ps). split; [by constructor|].
    by destruct h as [[one two] ht].
Qed.

(** ** What a binary64 bucket holds *)

Lemma binary64_lookup_update probabilities one_gene two_genes have_trait p person :
  binary64.update probabilities one_gene two_genes have_trait p !! person
  = binary64.update_person one_gene two_genes have_trait p person
      <$> probabilities !! person.
Proof.
  unfold binary64.update. rewrite map_lookup_imap. by destruct (probabilities !! person).
Qed.

Lemma binary64_lookup_fold_updates probabilities scored person :
  binary64.fold_updates probabilities scored !! person
  = (λ b, binary64.fold_update_person person b scored) <$> probabilities !! person.
Proof.
  revert probabilities. induction scored as [|[[[o t] h] p] scored IH];
    intros probabilities; simpl.
  - by destruct (probabilities !! person).
  - unfold binary64.fold_updates, binary64.fold_update_person in *. simpl.
    rewrite IH, binary64_lookup_update. by destruct (probabilities !! person).
Qed.

Lemma binary64_update_person_buckets one_gene two_genes have_trait p person b :
  (∀ g, binary64.gene_bucket g
          (binary64.update_person one_gene two_genes have_trait p person b)
        = if has_count person g (one_gene, two_genes, have_trait)
          then PrimFloat.add (binary64.gene_bucket g b) p
          else binary64.gene_bucket g b)
  ∧ (∀ t, binary64.trait_bucket t
            (binary64.update_person one_gene two_genes have_trait p person b)
          = if has_trait person t (one_gene, two_genes, have_trait)
            then PrimFloat.add (binary64.trait_bucket t b) p
            else binary64.trait_bucket t b).
Proof.
  unfold binary64.update_person, has_count, has_trait, count_of. simpl.
  split.
  - intros g. repeat case_bool_decide; destruct g; simpl; congruence.
  - intros t. repeat case_bool_decide; destruct t; simpl; congruence.
Qed.

Lemma addends_cons selected h p scored :
  binary64.addends selected ((h, p) :: scored)
  = if selected h then p :: binary64.addends selected scored
    else binary64.addends selected scored.
Proof.
  unfold binary64.addends. rewrite filter_cons. simpl.
  destruct (selected h); by case_decide.
Qed.

Lemma binary64_fold_update_person_buckets person scored b :
  (∀ g, binary64.gene_bucket g (binary64.fold_update_person person b scored)
        = binary64.running_sum (binary64.gene_bucket g b)
            (binary64.addends (has_count person g) scored))
  ∧ (∀ t, binary64.trait_bucket t (binary64.fold_update_person person b scored)
          = binary64.running_sum (binary64.trait_bucket t b)
              (binary64.addends (has_trait person t) scored)).
Proof.
  revert b. induction scored as [|[[[one two] ht] p] scored IH]; intros b.
  - done.
  - destruct (IH (binary64.update_person one two ht p person b)) as [IHg IHt].
    destruct (binary64_update_person_buckets one two ht p person b) as [Hg Ht].
    split.
    + intros g. rewrite addends_cons. etrans; [apply IHg|]. rewrite Hg.
      by destruct (has_count person g (one, two, ht)).
    + intros t. rewrite addends_cons. etrans; [apply IHt|]. rewrite Ht.
      by destruct (has_trait person t (one, two, ht)).
Qed.

Lemma addends_Permutation selected scored1 scored2 :
  scored1 ≡ₚ scored2 →
  binary64.addends selected scored1 ≡ₚ binary64.addends selected scored2.
Proof. unfold binary64.addends. by intros ->. Qed.

(** Every scored [p] is an addend of exactly one gene bucket and of exactly
    one trait bucket of each person. *)
Lemma has_count_iff person g h :
  has_count person g h = true ↔ count_of person h.1.1 h.1.2 = g.
Proof. apply bool_decide_eq_true. Qed.

Lemma has_trait_iff person t h :
  has_trait person t h = true ↔ bool_decide (person ∈ h.2) = t.
Proof. apply bool_decide_eq_true. Qed.

Lemma addends_gene_partition person scored :
  binary64.addends (has_count person G2) scored
  ++ binary64.addends (has_count person G1) scored
  ++ binary64.addends (has_count person G0) scored
  ≡ₚ scored.*2.
Proof.
  induction scored as [|[h p] scored IH]; [done|].
  rewrite !addends_cons, fmap_cons. cbn [fst snd].
  destruct (has_count person G2 h) eqn:H2, (has_count person G1 h) eqn:H1,
    (has_count person G0 h) eqn:H0;
    repeat match goal with
           | H : has_count _ _ _ = true |- _ => apply has_count_iff in H
           end; try congruence.
  - by rewrite <- IH.
  - rewrite <- IH, <- !app_comm_cons. by rewrite <- Permutation_middle.
  - rewrite <- IH. by rewrite <- !Permutation_middle.
  - apply not_true_iff_false in H2, H1, H0. rewrite has_count_iff in H2, H1, H0.
    by destruct (count_of person h.1.1 h.1.2).
Qed.

Lemma addends_trait_partition person scored :
  binary64.addends (has_trait person true) scored
  ++ binary64.addends (has_trait person false) scored
  ≡ₚ scored.*2.
Proof.
  induction scored as [|[h p] scored IH]; [done|].
  rewrite !addends_cons, fmap_cons. cbn [fst snd].
  destruct (has_trait person true h) eqn:HT, (has_trait person false h) eqn:HF;
    repeat match goal with
           | H : has_trait _ _ _ = true |- _ => apply has_trait_iff in H
           end; try congruence.
  - by rewrite <- IH.
  - rewrite <- IH. by rewrite <- Permutation_middle.
  - apply not_true_iff_false in HT, HF. rewrite has_trait_iff in HT, HF.
    by destruct (bool_decide (person ∈ h.2)).
Qed.

(** ** The accumulated totals *)

Lemma binary64_accumulate_quiet people :
  valid_pedigree people →
  ∃ probabilities, binary64.accumulate people = ([], Return probabilities).
Proof.
  intros [probabilities Hacc]%accumulate_quiet.
  destruct (same_effects_quiet any _ _ _ (binary64_accumulate_same people) Hacc)
    as (b & Hb & _).
  eauto.
Qed.

Lemma binary64_zip_scored_snd people hs ps :
  Forall2 (binary64.scores people) hs ps → (zip hs ps).*2 = ps.
Proof. intros Hps. apply snd_zip. by rewrite (Forall2_length _ _ _ Hps). Qed.

Lemma binary64_accumulate_buckets (people : gmap string Person) :
  valid_pedigree people →
  ∃ probabilities ps,
    binary64.accumulate people = ([], Return probabilities)
    ∧ Forall2 (binary64.scores people) (hypotheses people) ps
    ∧ ∀ person, person ∈ dom people →
        ∃ b, probabilities !! person = Some b
             ∧ (∀ g, binary64.gene_bucket g b
                     = binary64.running_sum 0
                         (binary64.addends (has_count person g)
                            (zip (hypotheses people) ps)))
             ∧ (∀ t, binary64.trait_bucket t b
                     = binary64.running_sum 0
                         (binary64.addends (has_trait person t)
                            (zip (hypotheses people) ps)))
             ∧ binary64.addends (has_count person G2) (zip (hypotheses people) ps)
               ++ binary64.addends (has_count person G1) (zip (hypotheses people) ps)
               ++ binary64.addends (has_count person G0) (zip (hypotheses people) ps)
               ≡ₚ ps
             ∧ binary64.addends (has_trait person true) (zip (hypotheses people) ps)
               ++ binary64.addends (has_trait person false) (zip (hypotheses people) ps)
               ≡ₚ ps.
Proof.
  intros [probabilities Hacc]%binary64_accumulate_quiet.
  pose proof Hacc as Hflat. rewrite binary64_accumulate_flat in Hflat.
  apply binary64_foldM_score_zip in Hflat as (ps & Hps & ->).
  eexists _, ps. split_and!; [done..|].
  intros person [record Hrec]%elem_of_dom.
  exists (binary64.fold_update_person person (binary64.mkBelief 0 0 0 0 0)
            (zip (hypotheses people) ps)).
  destruct (binary64_fold_update_person_buckets person (zip (hypotheses people) ps)
              (binary64.mkBelief 0 0 0 0 0)) as [Hg Ht].
  split_and!.
  - rewrite binary64_lookup_fold_updates. unfold binary64.probabilities_init.
    by rewrite lookup_fmap, Hrec.
  - intros g. rewrite Hg. by destruct g.
  - intros t. rewrite Ht. by destruct t.
  - rewrite addends_gene_partition. by rewrite (binary64_zip_scored_snd _ _ _ Hps).
  - rewrite addends_trait_partition. by rewrite (binary64_zip_scored_snd _ _ _ Hps).
Qed.

Lemma accumulate_exact (people : gmap string Person) :
  valid_pedigree people →
  ∃ probabilities ps,
    accumulate people = ([], Return probabilities)
    ∧ Forall2 (scores people) (hypotheses people) ps
    ∧ 0 < Qsum ps
    ∧ ∀ person, person ∈ dom people →
        ∃ b, probabilities !! person = Some b
             ∧ gene0 b + gene1 b + gene2 b == Qsum ps
             ∧ trait_True b + trait_False b == Qsum ps.
Proof.
  intros [probabilities Hacc]%accumulate_quiet.
  destruct (proj2 (accumulate_exact_totals people) _ _ Hacc)
    as (ps & total & Hps & -> & Hpos & Hb).
  exists probabilities, ps. split_and!; [done..|].
  intros person Hperson. destruct (Hb person Hperson) as (b & ? & ? & ? & _). eauto.
Qed.

(** C2. After the loops of [main] on a valid pedigree, and before
    [normalize], every person's three gene buckets together and two trait
    buckets together have received the same addends: the number
    [joint_probability] returned for each hypothesis scored, once.  Each
    bucket holds the binary64 sum of its addends in the order of the
    enumeration, so the two totals agree up to the rounding of these
    additions; in exact arithmetic both equal the sum of the numbers
    returned, which is positive and the same for every person. *)
Theorem accumulate_totals (people : gmap string Person) :
  valid_pedigree people →
  (∃ probabilities ps,
     binary64.accumulate people = ([], Return probabilities)
     ∧ Forall2 (binary64.scores people) (hypotheses people) ps
     ∧ ∀ person, person ∈ dom people →
         ∃ b, probabilities !! person = Some b
              ∧ (∀ g, binary64.gene_bucket g b
                      = binary64.running_sum 0
                          (binary64.addends (has_count person g)
                             (zip (hypotheses people) ps)))
              ∧ (∀ t, binary64.trait_bucket t b
                      = binary64.running_sum 0
                          (binary64.addends (has_trait person t)
                             (zip (hypotheses people) ps)))
              ∧ binary64.addends (has_count person G2) (zip (hypotheses people) ps)
                ++ binary64.addends (has_count person G1) (zip (hypotheses people) ps)
                ++ binary64.addends (has_count person G0) (zip (hypotheses people) ps)
                ≡ₚ ps
              ∧ binary64.addends (has_trait person true) (zip (hypotheses people) ps)
                ++ binary64.addends (has_trait person false) (zip (hypotheses people) ps)
                ≡ₚ ps)
  ∧ (∃ probabilities ps,
       accumulate people = ([], Return probabilities)
       ∧ Forall2 (scores people) (hypotheses people) ps
       ∧ 0 < Qsum ps
       ∧ ∀ person, person ∈ dom people →
           ∃ b, probabilities !! person = Some b
                ∧ gene0 b + gene1 b + gene2 b == Qsum ps
                ∧ trait_True b + trait_False b == Qsum ps).
Proof.
  intros Hv. split; [by apply binary64_accumulate_buckets|by apply accumulate_exact].
Qed.

Lemma accumulate_totals_witness :
  (∃ probabilities ps,
     binary64.accumulate example_family = ([], Return probabilities)
     ∧ Forall2 (binary64.scores example_family) (hypotheses example_family) ps
     ∧ ∀ person, person ∈ dom example_family →
         ∃ b, probabilities !! person = Some b
              ∧ (∀ g, binary64.gene_bucket g b
                      = binary64.running_sum 0
                          (binary64.addends (has_count person g)
                             (zip (hypotheses example_family) ps)))
              ∧ (∀ t, binary64.trait_bucket t b
                      = binary64.running_sum 0
                          (binary64.addends (has_trait person t)
                             (zip (hypotheses example_family) ps)))
              ∧ binary64.addends (has_count person G2) (zip (hypotheses example_family) ps)
                ++ binary64.addends (has_count person G1) (zip (hypotheses example_family) ps)
                ++ binary64.addends (has_count person G0) (zip (hypotheses example_family) ps)
                ≡ₚ ps
              ∧ binary64.addends (has_trait person true) (zip (hypotheses example_family) ps)
                ++ binary64.addends (has_trait person false)
                     (zip (hypotheses example_family) ps)
                ≡ₚ ps)
  ∧ (∃ probabilities ps,
       accumulate example_family = ([], Return probabilities)
       ∧ Forall2 (scores example_family) (hypotheses example_family) ps
       ∧ 0 < Qsum ps
       ∧ ∀ person, person ∈ dom example_family →
           ∃ b, probabilities !! person = Some b
                ∧ gene0 b + gene1 b + gene2 b == Qsum ps
                ∧ trait_True b + trait_False b == Qsum ps).
Proof. exact (accumulate_totals example_family example_family_valid). Defined.

(** C2, at concrete pedigrees.  For the single founder the program leaves
    gene buckets that sum to [1.0], in whichever order they are added, and
    trait buckets that sum to [0.99999999999999989].  For the family of
    three the total accumulated in exact arithmetic is [0.032010857495],
    where the marginal likelihood of the evidence is [0.03181759]. *)
Lemma accumulate_totals_differ :
  (∃ b, binary64.accumulate example_founder = ([], Return {["Harry" := b]})
        ∧ PrimFloat.add (PrimFloat.add (binary64.gene2 b) (binary64.gene1 b))
            (binary64.gene0 b) = 1%float
        ∧ PrimFloat.add (binary64.gene2 b)
            (PrimFloat.add (binary64.gene1 b) (binary64.gene0 b)) = 1%float
        ∧ PrimFloat.add (PrimFloat.add (binary64.gene2 b) (binary64.gene0 b))
            (binary64.gene1 b) = 1%float
        ∧ binary64.gene_total b = 1%float
        ∧ binary64.trait_total b = 0.99999999999999989%float
        ∧ PrimFloat.add (binary64.trait_True b) (binary64.trait_False b)
          = 0.99999999999999989%float
        ∧ PrimFloat.eqb 1 0.99999999999999989 = false)
  ∧ (∃ probabilities b,
       accumulate example_family = ([], Return probabilities)
       ∧ probabilities !! "Harry" = Some b
       ∧ gene0 b + gene1 b + gene2 b == 0.032010857495
       ∧ trait_True b + trait_False b == 0.032010857495
       ∧ spec_marginal_likelihood example_family == 0.03181759
       ∧ 0.03181759 < 0.032010857495).
Proof.
  split.
  - eexists. split; [vm_compute; reflexivity|]. by vm_compute.
  - eexists _, _. split; [vm_compute; reflexivity|].
    split; [vm_compute; reflexivity|]. by vm_compute.
Qed.

(** ** The order of the updates *)

(** C7. The belief state produced by folding scored hypotheses with
    [update] depends on the order in which they are processed only through
    the rounding of the additions: for every permutation of the same
    collection, every bucket of every person receives the same addends
    and ends as their binary64 sum in processing order; in exact
    arithmetic every bucket ends with the same total. *)
Theorem update_order_independent
    (probabilities : gmap string binary64.belief)
    (scored1 scored2 : list (hypothesis * float))
    (exact_probabilities : gmap string belief)
    (exact_scored1 exact_scored2 : list (hypothesis * Q)) :
  scored1 ≡ₚ scored2 → exact_scored1 ≡ₚ exact_scored2 →
  (∀ person b, probabilities !! person = Some b →
     ∃ b1 b2,
       binary64.fold_updates probabilities scored1 !! person = Some b1
       ∧ binary64.fold_updates probabilities scored2 !! person = Some b2
       ∧ (∀ g, binary64.addends (has_count person g) scored1
               ≡ₚ binary64.addends (has_count person g) scored2
               ∧ binary64.gene_bucket g b1
                 = binary64.running_sum (binary64.gene_bucket g b)
                     (binary64.addends (has_count person g) scored1)
               ∧ binary64.gene_bucket g b2
                 = binary64.running_sum (binary64.gene_bucket g b)
                     (binary64.addends (has_count person g) scored2))
       ∧ (∀ t, binary64.addends (has_trait person t) scored1
               ≡ₚ binary64.addends (has_trait person t) scored2
               ∧ binary64.trait_bucket t b1
                 = binary64.running_sum (binary64.trait_bucket t b)
                     (binary64.addends (has_trait person t) scored1)
               ∧ binary64.trait_bucket t b2
                 = binary64.running_sum (binary64.trait_bucket t b)
                     (binary64.addends (has_trait person t) scored2)))
  ∧ (∀ person,
       option_Forall2 belief_equiv
         (fold_updates exact_probabilities exact_scored1 !! person)
         (fold_updates exact_probabilities exact_scored2 !! person)).
Proof.
  intros Hperm Hexact. split; [|by apply fold_updates_Permutation].
  intros person b Hb.
  exists (binary64.fold_update_person person b scored1),
         (binary64.fold_update_person person b scored2).
  rewrite !binary64_lookup_fold_updates, Hb.
  destruct (binary64_fold_update_person_buckets person scored1 b) as [Hg1 Ht1].
  destruct (binary64_fold_update_person_buckets person scored2 b) as [Hg2 Ht2].
  split_and!; [done|done| |].
  - intros g. split_and!; [by apply addends_Permutation|done..].
  - intros t. split_and!; [by apply addends_Permutation|done..].
Qed.

Lemma example_scored_Permutation : example_scored ≡ₚ example_scored_reversed.
Proof. symmetry. apply (reverse_Permutation example_scored). Qed.

Lemma update_order_independent_witness :
  (∀ person b, binary64.probabilities_init example_founder !! person = Some b →
     ∃ b1 b2,
       binary64.fold_updates (binary64.probabilities_init example_founder)
         example_scored !! person = Some b1
       ∧ binary64.fold_updates (binary64.probabilities_init example_founder)
           example_scored_reversed !! person = Some b2
       ∧ (∀ g, binary64.addends (has_count person g) example_scored
               ≡ₚ binary64.addends (has_count person g) example_scored_reversed
               ∧ binary64.gene_bucket g b1
                 = binary64.running_sum (binary64.gene_bucket g b)
                     (binary64.addends (has_count person g) example_scored)
               ∧ binary64.gene_bucket g b2
                 = binary64.running_sum (binary64.gene_bucket g b)
                     (binary64.addends (has_count person g) example_scored_reversed))
       ∧ (∀ t, binary64.addends (has_trait person t) example_scored
               ≡ₚ binary64.addends (has_trait person t) example_scored_reversed
               ∧ binary64.trait_bucket t b1
                 = binary64.running_sum (binary64.trait_bucket t b)
                     (binary64.addends (has_trait person t) example_scored)
               ∧ binary64.trait_bucket t b2
                 = binary64.running_sum (binary64.trait_bucket t b)
                     (binary64.addends (has_trait person t) example_scored_reversed)))
  ∧ (∀ person,
       option_Forall2 belief_equiv
         (fold_updates example_beliefs
            [((∅, ∅, ∅), 0.5); (({["Ada"]}, ∅, {["Ada"]}), 0.25)] !! person)
         (fold_updates example_beliefs
            [(({["Ada"]}, ∅, {["Ada"]}), 0.25); ((∅, ∅, ∅), 0.5)] !! person)).
Proof.
  exact (update_order_independent (binary64.probabilities_init example_founder)
           example_scored example_scored_reversed example_beliefs _ _
           example_scored_Permutation (perm_swap _ _ _)).
Defined.

(** C7, at a concrete input.  The three hypotheses without trait of the
    single founder, with the numbers [joint_probability] returns for them:
    folded in the order of [main] the bucket [trait][False] ends as
    [0.96709999999999985], folded in the reverse order as
    [0.96709999999999996]. *)
Lemma update_order_matters :
  example_scored ≡ₚ example_scored_reversed
  ∧ Forall (λ hp, binary64.joint_probability example_founder hp.1.1.1 hp.1.1.2 hp.1.2
                  = ([], Return hp.2)) example_scored
  ∧ binary64.trait_False
      <$> binary64.fold_updates (binary64.probabilities_init example_founder)
            example_scored !! "Harry"
    = Some 0.96709999999999985%float
  ∧ binary64.trait_False
      <$> binary64.fold_updates (binary64.probabilities_init example_founder)
            example_scored_reversed !! "Harry"
    = Some 0.96709999999999996%float
  ∧ PrimFloat.eqb 0.96709999999999985 0.96709999999999996 = false.
Proof.
  split; [apply example_scored_Permutation|].
  split; [repeat constructor; vm_compute; reflexivity|].
  by vm_compute.
Qed.

(** ** A single founder in binary64 *)

Lemma binary64_foldM_score_quiet people hs qs probs :
  Forall2 (λ h q, binary64.joint_probability people h.1.1 h.1.2 h.2 = ([], Return q))
    hs qs →
  foldM (binary64.score_and_update people) probs hs
  = ([], Return (binary64.fold_updates probs (zip hs qs))).
Proof.
  intros Hqs. revert probs.
  induction Hqs as [|[[one_gene two_genes] have_trait] q hs qs Hq _ IH]; intros probs;
    [done|].
  simpl in Hq.
  assert (binary64.score_and_update people probs (one_gene, two_genes, have_trait)
          = ([], Return (binary64.update probs one_gene two_genes have_trait q)))
    as Hscore.
  { unfold binary64.score_and_update. by rewrite (bind_quiet _ _ q Hq). }
  cbn [foldM]. rewrite (bind_quiet _ _ _ Hscore). apply IH.
Qed.

Lemma binary64_update_person_count one_gene two_genes have_trait p person b :
  binary64.update_person one_gene two_genes have_trait p person b
  = (if bool_decide (person ∈ have_trait)
     then binary64.add_trait_True else binary64.add_trait_False)
      (match count_of person one_gene two_genes with
       | G1 => binary64.add_gene1 b p
       | G2 => binary64.add_gene2 b p
       | G0 => binary64.add_gene0 b p
       end) p.
Proof. unfold binary64.update_person, count_of. by repeat case_bool_decide. Qed.

Section binary64_founder.
Variable people : gmap string Person.
Variables one_gene two_genes have_trait : gset string.
Variable person : string.
Variable record : Person.
Hypothesis Hlookup : people !! person = Some record.
Hypothesis Hmother : mother record = None.
Hypothesis Hfather : father record = None.

Ltac founder_body :=
  unfold getitem; rewrite Hlookup, bind_mret_l, Hmother, Hfather;
  cbn [is_none andb]; rewrite bind_mret_l;
  assert (person ∈ dom people) by (apply elem_of_dom; eauto);
  destruct (decide (person ∈ have_trait));
  [ by rewrite bool_decide_eq_true_2
  | rewrite bool_decide_eq_false_2 by done;
    by rewrite bool_decide_eq_true_2 by set_solver ].

Lemma binary64_body_two_genes_founder acc :
  binary64.body_two_genes people one_gene two_genes have_trait acc person
  = mret (if bool_decide (person ∈ have_trait)
          then binary64.mkProducts
                 (PrimFloat.mul (binary64.prob_two_genes_with_trait acc)
                    (PrimFloat.mul (binary64.PROBS_gene G2) (binary64.PROBS_trait G2 true)))
                 (binary64.prob_two_genes_without_trait acc)
                 (binary64.prob_one_gene_with_trait acc)
                 (binary64.prob_one_gene_without_trait acc)
                 (binary64.prob_no_genes_with_trait acc)
                 (binary64.prob_no_genes_without_trait acc)
          else binary64.mkProducts
                 (binary64.prob_two_genes_with_trait acc)
                 (PrimFloat.mul (binary64.prob_two_genes_without_trait acc)
                    (PrimFloat.mul (binary64.PROBS_gene G2) (binary64.PROBS_trait G2 false)))
                 (binary64.prob_one_gene_with_trait acc)
                 (binary64.prob_one_gene_without_trait acc)
                 (binary64.prob_no_genes_with_trait acc)
                 (binary64.prob_no_genes_without_trait acc)).
Proof. unfold binary64.body_two_genes, binary64.factor_two_genes. founder_body. Qed.

Lemma binary64_body_one_gene_founder acc :
  binary64.body_one_gene people one_gene two_genes have_trait acc person
  = mret (if bool_decide (person ∈ have_trait)
          then binary64.mkProducts
                 (binary64.prob_two_genes_with_trait acc)
                 (binary64.prob_two_genes_without_trait acc)
                 (PrimFloat.mul (binary64.prob_one_gene_with_trait acc)
                    (PrimFloat.mul (binary64.PROBS_gene G1) (binary64.PROBS_trait G1 true)))
                 (binary64.prob_one_gene_without_trait acc)
                 (binary64.prob_no_genes_with_trait acc)
                 (binary64.prob_no_genes_without_trait acc)
          else binary64.mkProducts
                 (binary64.prob_two_genes_with_trait acc)
                 (binary64.prob_two_genes_without_trait acc)
                 (binary64.prob_one_gene_with_trait acc)
                 (PrimFloat.mul (binary64.prob_one_gene_without_trait acc)
                    (PrimFloat.mul (binary64.PROBS_gene G1) (binary64.PROBS_trait G1 false)))
                 (binary64.prob_no_genes_with_trait acc)
                 (binary64.prob_no_genes_without_trait acc)).
Proof. unfold binary64.body_one_gene, binary64.factor_one_gene. founder_body. Qed.

Lemma binary64_body_no_genes_founder acc :
  binary64.body_no_genes people one_gene two_genes have_trait acc person
  = mret (if bool_decide (person ∈ have_trait)
          then binary64.mkProducts
                 (binary64.prob_two_genes_with_trait acc)
                 (binary64.prob_two_genes_without_trait acc)
                 (binary64.prob_one_gene_with_trait acc)
                 (binary64.prob_one_gene_without_trait acc)
                 (PrimFloat.mul (binary64.prob_no_genes_with_trait acc)
                    (PrimFloat.mul (binary64.PROBS_gene G0) (binary64.PROBS_trait G0 true)))
                 (binary64.prob_no_genes_without_trait acc)
          else binary64.mkProducts
                 (binary64.prob_two_genes_with_trait acc)
                 (binary64.prob_two_genes_without_trait acc)
                 (binary64.prob_one_gene_with_trait acc)
                 (binary64.prob_one_gene_without_trait acc)
                 (binary64.prob_no_genes_with_trait acc)
                 (PrimFloat.mul (binary64.prob_no_genes_without_trait acc)
                    (PrimFloat.mul (binary64.PROBS_gene G0)
                       (binary64.PROBS_trait G0 false)))).
Proof. unfold binary64.body_no_genes, binary64.factor_no_genes. founder_body. Qed.
End binary64_founder.

Section binary64_single_founder.
Variable person : string.
Variable record : Person.
Hypothesis Hmother : mother record = None.
Hypothesis Hfather : father record = None.
Hypothesis Htrait : trait record = None.

Let people : gmap string Person := {[person := record]}.

Let Hlookup : people !! person = Some record := lookup_singleton_eq person record.
Let Hin : person ∈ ({[person]} : gset string) := proj2 (elem_of_singleton person person) eq_refl.
Let Hnot : person ∉ (∅ : gset string) := not_elem_of_empty person.

(** The six numbers [joint_probability] returns, in the order of [main]. *)
Lemma binary64_founder_no_genes_without_trait :
  binary64.joint_probability people ∅ ∅ ∅ = ([], Return 0.95039999999999991%float).
Proof.
  unfold binary64.joint_probability, people. rewrite (founder_dom person record).
  replace ({[person]} ∖ ∅ ∖ ∅) with ({[person]} : gset string) by set_solver.
  rewrite elements_empty, elements_singleton. cbn [foldM].
  rewrite ?bind_mret_l.
  rewrite (binary64_body_no_genes_founder _ _ _ _ _ _ Hlookup Hmother Hfather).
  rewrite (bool_decide_eq_false_2 _ Hnot). by rewrite ?bind_mret_l.
Qed.

Lemma binary64_founder_two_genes_without_trait :
  binary64.joint_probability people ∅ {[person]} ∅
  = ([], Return 0.0034999999999999996%float).
Proof.
  unfold binary64.joint_probability, people. rewrite (founder_dom person record).
  replace ({[person]} ∖ ∅ ∖ {[person]}) with (∅ : gset string) by set_solver.
  rewrite elements_empty, elements_singleton. cbn [foldM].
  rewrite ?bind_mret_l.
  rewrite (binary64_body_two_genes_founder _ _ _ _ _ _ Hlookup Hmother Hfather).
  rewrite (bool_decide_eq_false_2 _ Hnot). by rewrite ?bind_mret_l.
Qed.

Lemma binary64_founder_one_gene_without_trait :
  binary64.joint_probability people {[person]} ∅ ∅
  = ([], Return 0.0132%float).
Proof.
  unfold binary64.joint_probability, people. rewrite (founder_dom person record).
  replace ({[person]} ∖ {[person]} ∖ ∅) with (∅ : gset string) by set_solver.
  rewrite elements_empty, elements_singleton. cbn [foldM].
  rewrite ?bind_mret_l.
  rewrite (binary64_body_one_gene_founder _ _ _ _ _ _ Hlookup Hmother Hfather).
  rewrite (bool_decide_eq_false_2 _ Hnot). by rewrite ?bind_mret_l.
Qed.

Lemma binary64_founder_no_genes_with_trait :
  binary64.joint_probability people ∅ ∅ {[person]}
  = ([], Return 0.0095999999999999992%float).
Proof.
  unfold binary64.joint_probability, people. rewrite (founder_dom person record).
  replace ({[person]} ∖ ∅ ∖ ∅) with ({[person]} : gset string) by set_solver.
  rewrite elements_empty, elements_singleton. cbn [foldM].
  rewrite ?bind_mret_l.
  rewrite (binary64_body_no_genes_founder _ _ _ _ _ _ Hlookup Hmother Hfather).
  rewrite (bool_decide_eq_true_2 _ Hin). by rewrite ?bind_mret_l.
Qed.

Lemma binary64_founder_two_genes_with_trait :
  binary64.joint_probability people ∅ {[person]} {[person]}
  = ([], Return 0.0065000000000000006%float).
Proof.
  unfold binary64.joint_probability, people. rewrite (founder_dom person record).
  replace ({[person]} ∖ ∅ ∖ {[person]}) with (∅ : gset string) by set_solver.
  rewrite elements_empty, elements_singleton. cbn [foldM].
  rewrite ?bind_mret_l.
  rewrite (binary64_body_two_genes_founder _ _ _ _ _ _ Hlookup Hmother Hfather).
  rewrite (bool_decide_eq_true_2 _ Hin). by rewrite ?bind_mret_l.
Qed.

Lemma binary64_founder_one_gene_with_trait :
  binary64.joint_probability people {[person]} ∅ {[person]}
  = ([], Return 0.016800000000000002%float).
Proof.
  unfold binary64.joint_probability, people. rewrite (founder_dom person record).
  replace ({[person]} ∖ {[person]} ∖ ∅) with (∅ : gset string) by set_solver.
  rewrite elements_empty, elements_singleton. cbn [foldM].
  rewrite ?bind_mret_l.
  rewrite (binary64_body_one_gene_founder _ _ _ _ _ _ Hlookup Hmother Hfather).
  rewrite (bool_decide_eq_true_2 _ Hin). by rewrite ?bind_mret_l.
Qed.

Lemma binary64_founder_accumulate :
  binary64.accumulate people
  = ([], Return {[person := binary64.mkBelief 0.01 0.030000000000000002 0.96
                              0.032899999999999999 0.96709999999999985]}).
Proof.
  rewrite binary64_accumulate_flat. unfold people.
  rewrite (founder_hypotheses person record Htrait). fold people.
  rewrite (binary64_foldM_score_quiet people _
             [0.95039999999999991; 0.0034999999999999996; 0.0132;
              0.0095999999999999992; 0.0065000000000000006; 0.016800000000000002]%float).
  2:{ repeat constructor; simpl.
      - apply binary64_founder_no_genes_without_trait.
      - apply binary64_founder_two_genes_without_trait.
      - apply binary64_founder_one_gene_without_trait.
      - apply binary64_founder_no_genes_with_trait.
      - apply binary64_founder_two_genes_with_trait.
      - apply binary64_founder_one_gene_with_trait. }
  do 2 f_equal. apply map_eq. intros k. rewrite binary64_lookup_fold_updates.
  unfold binary64.probabilities_init, people. rewrite map_fmap_singleton.
  destruct (decide (k = person)) as [->|Hk].
  - rewrite !lookup_singleton_eq. simpl. rewrite !binary64_update_person_count.
    unfold count_of.
    rewrite ?(bool_decide_eq_true_2 _ Hin), ?(bool_decide_eq_false_2 _ Hnot). done.
  - by rewrite !lookup_singleton_ne.
Qed.

Lemma binary64_founder_posterior :
  binary64.infer people
  = ([], Return {[person := binary64.mkBelief 0.01 0.030000000000000002 0.96
                              0.032900000000000006 0.96709999999999996]}).
Proof.
  unfold binary64.infer. rewrite (bind_quiet _ _ _ binary64_founder_accumulate).
  unfold binary64.normalize. rewrite map_to_list_singleton. cbn [foldM].
  unfold binary64.normalize_step.
  change (binary64.normalize_person
            (binary64.mkBelief 0.01 0.030000000000000002 0.96
               0.032899999999999999 0.96709999999999985))
    with (mret (M := M) (binary64.mkBelief 0.01 0.030000000000000002 0.96
                  0.032900000000000006 0.96709999999999996)).
  rewrite !bind_mret_l. by rewrite insert_singleton_eq.
Qed.
End binary64_single_founder.

(** The exact sum of the three gene buckets of the founder is within half
    a unit in the last place of 1: summed by any method that rounds the
    exact sum, the total is [1.0] as well. *)
Lemma founder_gene_total_rounding :
  Qabs (binary64.to_Q 0.01 + binary64.to_Q 0.030000000000000002 + binary64.to_Q 0.96 - 1)
  < 1 # 2 ^ 54.
Proof. by vm_compute. Qed.

(** The distance of a binary64 number to a decimal. *)
Lemma prior_distance :
  Qabs (binary64.to_Q 0.96 - 0.96) <= 1 # 10 ^ 16
  ∧ Qabs (binary64.to_Q 0.030000000000000002 - 0.03) <= 1 # 10 ^ 16
  ∧ Qabs (binary64.to_Q 0.01 - 0.01) <= 1 # 10 ^ 16.
Proof. by vm_compute. Qed.

(** C3. For a pedigree of one founder (no mother, no father) whose trait
    is not observed, the whole pipeline (enumeration, scoring,
    accumulation, normalization) returns the unconditional prior up to the
    rounding of binary64: [0.96] for no copy, [0.030000000000000002] for
    one, [0.01] for two, each within [1e-16] of the prior; in exact
    arithmetic the gene distribution returned is exactly the prior. *)
Theorem single_founder_posterior (person : string) (record : Person) :
  mother record = None → father record = None → trait record = None →
  (∃ b, binary64.infer {[person := record]} = ([], Return {[person := b]})
        ∧ binary64.gene0 b = 0.96%float
        ∧ binary64.gene1 b = 0.030000000000000002%float
        ∧ binary64.gene2 b = 0.01%float
        ∧ Qabs (binary64.to_Q (binary64.gene0 b) - 0.96) <= 1 # 10 ^ 16
        ∧ Qabs (binary64.to_Q (binary64.gene1 b) - 0.03) <= 1 # 10 ^ 16
        ∧ Qabs (binary64.to_Q (binary64.gene2 b) - 0.01) <= 1 # 10 ^ 16)
  ∧ (∃ probabilities b,
       infer {[person := record]} = ([], Return probabilities)
       ∧ probabilities !! person = Some b
       ∧ gene0 b == 0.96 ∧ gene1 b == 0.03 ∧ gene2 b == 0.01).
Proof.
  intros Hmother Hfather Htrait. split; [|by apply founder_posterior].
  eexists. split; [by apply binary64_founder_posterior|].
  destruct prior_distance as (? & ? & ?). by split_and!.
Qed.

Lemma single_founder_posterior_witness :
  (∃ b, binary64.infer {["Ada" := mkPerson "Ada" None None None]}
        = ([], Return {["Ada" := b]})
        ∧ binary64.gene0 b = 0.96%float
        ∧ binary64.gene1 b = 0.030000000000000002%float
        ∧ binary64.gene2 b = 0.01%float
        ∧ Qabs (binary64.to_Q (binary64.gene0 b) - 0.96) <= 1 # 10 ^ 16
        ∧ Qabs (binary64.to_Q (binary64.gene1 b) - 0.03) <= 1 # 10 ^ 16
        ∧ Qabs (binary64.to_Q (binary64.gene2 b) - 0.01) <= 1 # 10 ^ 16)
  ∧ (∃ probabilities b,
       infer {["Ada" := mkPerson "Ada" None None None]} = ([], Return probabilities)
       ∧ probabilities !! "Ada" = Some b
       ∧ gene0 b == 0.96 ∧ gene1 b == 0.03 ∧ gene2 b == 0.01).
Proof.
  exact (single_founder_posterior "Ada" (mkPerson "Ada" None None None)
           eq_refl eq_refl eq_refl).
Defined.

(** C3, at a concrete input.  For the founder Harry the program returns
    [0.030000000000000002] for one copy: not the binary64 number [0.03],
    and larger than the rational [0.03]. *)
Lemma single_founder_not_exact :
  binary64.infer example_founder
  = ([], Return {["Harry" := binary64.mkBelief 0.01 0.030000000000000002 0.96
                               0.032900000000000006 0.96709999999999996]})
  ∧ PrimFloat.eqb 0.030000000000000002 0.03 = false
  ∧ 0.03 < binary64.to_Q 0.030000000000000002.
Proof. split; [vm_compute; reflexivity|]. by vm_compute. Qed.

(** ** What a consistent [have_trait] contributes *)










(** ** [load_data] validates nothing *)

(** C10. [load_data] validates nothing and raises nothing: for every list
    of rows it returns a pedigree in which each name is bound to the record
    of the last row with that name, kept as read (a blank parent becomes
    [None], any other text is kept), so that every row's name is bound.
    When the pedigree loaded is not valid, the inference ends with the
    [TypeError] of [joint_probability]; when it is valid, the inference
    returns. *)
Theorem load_data_no_validation (rows : list Row) :
  (∀ name, load_data rows !! name
           = record_of_row <$> last (filter (λ row, row_name row = name) rows))
  ∧ (∀ row, row ∈ rows → is_Some (load_data rows !! row_name row))
  ∧ (¬ valid_pedigree (load_data rows) →
     result (infer (load_data rows)) = Raise TypeError)
  ∧ (valid_pedigree (load_data rows) →
     ∃ probabilities, infer (load_data rows) = ([], Return probabilities)).
Proof.
  split_and!.
  - apply load_data_last.
  - apply load_data_rows.
  - apply infer_invalid.
  - intros Hv. destruct (infer_marginals _ Hv) as (probabilities & _ & Hinfer & _).
    eauto.
Qed.

(** C10, at concrete rows. A row with a mother and no father, and a row
    whose parents name no row, are both loaded without any error; the
    pedigrees returned are not valid. *)
Lemma load_data_accepts_invalid :
  load_data [mkRow "Harry" "Lily" "" ""]
  = {["Harry" := mkPerson "Harry" (Some "Lily") None None]}
  ∧ ¬ valid_pedigree (load_data [mkRow "Harry" "Lily" "" ""])
  ∧ load_data [mkRow "Harry" "Lily" "James" "1"]
    = {["Harry" := mkPerson "Harry" (Some "Lily") (Some "James") (Some true)]}
  ∧ ¬ valid_pedigree (load_data [mkRow "Harry" "Lily" "James" "1"]).
Proof.
  split_and!; try reflexivity; refuted_by_computation.
Qed.

Lemma load_data_no_validation_witness :
  load_data [mkRow "Harry" "Lily" "" ""] !! "Harry"
  = Some (mkPerson "Harry" (Some "Lily") None None)
  ∧ ¬ valid_pedigree (load_data [mkRow "Harry" "Lily" "" ""])
  ∧ result (infer (load_data [mkRow "Harry" "Lily" "" ""])) = Raise TypeError.
Proof.
  assert (¬ valid_pedigree (load_data [mkRow "Harry" "Lily" "" ""])) as Hinvalid.
  { refuted_by_computation. }
  split_and!; [|exact Hinvalid|].
  - exact (proj1 (load_data_no_validation [mkRow "Harry" "Lily" "" ""]) "Harry").
  - exact (proj1 (proj2 (proj2 (load_data_no_validation [mkRow "Harry" "Lily" "" ""])))
             Hinvalid).
Defined.

(** ** When [joint_probability] returns *)

Lemma same_effects_Return {A B} (R : A → B → Prop) (m : M A) (m' : M B) :
  same_effects R m m' →
  (∃ out a, m = (out, Return a)) → ∃ b, m' = (printed m, Return b).
Proof.
  intros [Hp Hr] (out & a & ->). destruct m' as [out' [b|e]]; simpl in *; [|done].
  subst. eauto.
Qed.

Lemma same_effects_Return_inv {A B} (R : A → B → Prop) (m : M A) (m' : M B) :
  same_effects R m m' →
  (∃ out b, m' = (out, Return b)) → ∃ a, m = (printed m', Return a).
Proof.
  intros [Hp Hr] (out & b & ->). destruct m as [out' [a|e]]; simpl in *; [|done].
  subst. eauto.
Qed.

Lemma joint_probability_returns people one_gene two_genes have_trait :
  (∃ out p, joint_probability people one_gene two_genes have_trait = (out, Return p))
  ↔ valid_pedigree people ∧ one_gene ∪ two_genes ⊆ dom people.
Proof.
  split.
  - intros (out & p & Hp).
    destruct (decide (valid_pedigree people)) as [Hv|Hinv].
    + split; [done|]. destruct (decide (one_gene ∪ two_genes ⊆ dom people)) as [|Hsub];
        [done|].
      apply not_subseteq_witness in Hsub as (x & Hx & Hout).
      destruct (joint_probability_missing_raises people one_gene two_genes
                  have_trait x Hx Hout) as [e He].
      rewrite Hp in He. done.
    + exfalso. apply invalid_pedigree_record in Hinv as (bad & record & Hbad & Hrec).
      destruct (decide (one_gene ∪ two_genes ⊆ dom people)) as [Hsub|Hsub].
      * pose proof (joint_probability_TypeError people one_gene two_genes have_trait
                      bad record Hbad Hrec Hsub) as He.
        rewrite Hp in He. done.
      * apply not_subseteq_witness in Hsub as (x & Hx & Hout).
        destruct (joint_probability_missing_raises people one_gene two_genes
                    have_trait x Hx Hout) as [e He].
        rewrite Hp in He. done.
  - intros [Hv Hsub].
    destruct (joint_probability_valid people one_gene two_genes have_trait Hv Hsub)
      as [p Hp]. eauto.
Qed.

(** X2. [joint_probability] returns exactly when the pedigree is valid
    and every member of [one_gene] and [two_genes] is a person of the
    pedigree (the two sets may overlap, [have_trait] is arbitrary), and
    then nothing is printed; in exact arithmetic and in binary64 alike. *)
Theorem joint_probability_returns_iff (people : gmap string Person)
    (one_gene two_genes have_trait : gset string) :
  ((∃ out p, joint_probability people one_gene two_genes have_trait = (out, Return p))
   ↔ valid_pedigree people ∧ one_gene ∪ two_genes ⊆ dom people)
  ∧ ((∃ out p, binary64.joint_probability people one_gene two_genes have_trait
               = (out, Return p))
     ↔ valid_pedigree people ∧ one_gene ∪ two_genes ⊆ dom people)
  ∧ (∀ out p, joint_probability people one_gene two_genes have_trait = (out, Return p) →
              out = [])
  ∧ (∀ out p, binary64.joint_probability people one_gene two_genes have_trait
              = (out, Return p) → out = []).
Proof.
  pose proof (joint_probability_same people one_gene two_genes have_trait) as Hsame.
  pose proof (joint_probability_printed people one_gene two_genes have_trait) as Hquiet.
  split_and!.
  - apply joint_probability_returns.
  - rewrite <- joint_probability_returns. split.
    + intros Hret. destruct (same_effects_Return_inv _ _ _ Hsame Hret) as [p Hp]. eauto.
    + intros Hret. destruct (same_effects_Return _ _ _ Hsame Hret) as [p Hp]. eauto.
  - intros out p Hp. by rewrite Hp in Hquiet.
  - intros out p Hp. destruct Hsame as [Hprinted _].
    rewrite Hquiet, Hp in Hprinted. done.
Qed.

(** ** When [normalize] returns *)

Lemma nonnegative_totals (b : belief) :
  nonnegative b →
  (¬ gene_total b == 0 ↔ 0 < gene0 b + gene1 b + gene2 b)
  ∧ (¬ trait_total b == 0 ↔ 0 < trait_True b + trait_False b).
Proof.
  intros (? & ? & ? & ? & ?). unfold gene_total, trait_total.
  split; split; intros; lra.
Qed.

(** X11. On a belief state without negative buckets, as the accumulated
    ones are, [normalize] returns exactly when every distribution has a
    positive total; it then prints nothing, keeps the persons and replaces
    every bucket by the bucket divided by the total of its distribution
    (in exact arithmetic).  The only exception [normalize] raises is
    [ZeroDivisionError]. *)
Theorem normalize_returns_iff (probabilities : gmap string belief) :
  (∀ person b, probabilities !! person = Some b → nonnegative b) →
  ((∃ out probabilities', normalize probabilities = (out, Return probabilities'))
   ↔ ∀ person b, probabilities !! person = Some b →
                 0 < gene0 b + gene1 b + gene2 b
                 ∧ 0 < trait_True b + trait_False b)
  ∧ (∀ out probabilities',
       normalize probabilities = (out, Return probabilities') →
       out = [] ∧ probabilities' = normalized <$> probabilities
       ∧ dom probabilities' = dom probabilities)
  ∧ (∀ e, result (normalize probabilities) = Raise e → e = ZeroDivisionError).
Proof.
  intros Hnonneg.
  assert (∀ out probabilities',
            normalize probabilities = (out, Return probabilities') →
            out = [] ∧ probabilities' = normalized <$> probabilities) as Hret.
  { intros out probabilities' Hnorm.
    rewrite (normalize_quiet probabilities (normalize_Return_inv _ _ _ Hnorm)) in Hnorm.
    by injection Hnorm as <- <-. }
  split_and!.
  - split.
    + intros (out & probabilities' & Hnorm) person b Hb.
      destruct (nonnegative_totals b (Hnonneg person b Hb)) as [<- <-].
      by eapply normalize_Return_inv.
    + intros Hpos. exists [], (normalized <$> probabilities). apply normalize_quiet.
      intros person b Hb.
      destruct (nonnegative_totals b (Hnonneg person b Hb)) as [-> ->].
      by apply (Hpos person b).
  - intros out probabilities' Hnorm. destruct (Hret _ _ Hnorm) as [-> ->].
    by rewrite dom_fmap_L.
  - apply normalize_Raise_inv.
Qed.

Lemma example_beliefs_nonnegative person b :
  example_beliefs !! person = Some b → nonnegative b.
Proof.
  unfold example_beliefs. intros [_ <-]%lookup_singleton_Some.
  unfold nonnegative. simpl. split_and!; lra.
Qed.

Lemma normalize_returns_iff_witness :
  ((∃ out probabilities', normalize example_beliefs = (out, Return probabilities'))
   ↔ ∀ person b, example_beliefs !! person = Some b →
                 0 < gene0 b + gene1 b + gene2 b
                 ∧ 0 < trait_True b + trait_False b)
  ∧ (∀ out probabilities',
       normalize example_beliefs = (out, Return probabilities') →
       out = [] ∧ probabilities' = normalized <$> example_beliefs
       ∧ dom probabilities' = dom example_beliefs)
  ∧ (∀ e, result (normalize example_beliefs) = Raise e → e = ZeroDivisionError).
Proof. exact (normalize_returns_iff example_beliefs example_beliefs_nonnegative). Defined.
